(** * Scalcetting tracker: the rating function and the match recorder

    A shallow embedding of [src/database/database.js] (class [Database]),
    with the statements of the specification proved or refuted on it.

    Conventions of the embedding.

    - A JavaScript number is a mathematical real ([R]): the arithmetic of
      [calcolaELO] and [createPartita] is the exact one, IEEE-754 rounding
      of intermediate results is not modelled.  The concrete evaluations
      below either go through values that are exact in binary64 or end
      more than 0.01 away from the nearest rounding boundary.  A
      statement that ranges over ratings carries the bounds within which
      binary64 gives what the exact arithmetic gives, and asks no more
      than both give there; module [Binary64] has the expression of
      [calcolaELO] in binary64 itself, for the inputs past those bounds.
    - A column declared [INT] holds a [Z].
    - A call into the mysql2 driver may throw; which call throws is given
      by a fault schedule, so that every failure path of the code is
      exercised. *)

From Stdlib Require Import Reals Lra Lia ZArith List String Bool.
From Stdlib Require PrimFloat.
Import ListNotations.

Local Open Scope R_scope.

(** ** Numbers *)

(** [Math.round(x)]: the integer nearest to [x], a tie going to the larger
    one, that is [floor (x + 1/2)]. *)
Definition Math_round (x : R) : Z := Int_part (x + / 2).

(** [Math.pow(10, y)]. *)
Definition Math_pow10 (y : R) : R := Rpower 10 y.

(** [const atteso = 1 / (1 + Math.pow(10, (eloB - eloA) / 400));]
    The exact value is strictly between 0 and 1; the binary64 one is
    between 0 and 1 and reaches either end when the ratings are far
    apart (1 from a gap of about 6400 points). *)
Definition atteso (eloA eloB : R) : R :=
  1 / (1 + Math_pow10 ((eloB - eloA) / 400)).

(** [calcolaELO(eloA, eloB, risultato, k = 32)]
    The binary64 result can differ from this one where the exact sum is
    within the rounding error of a half or the sizes pass 2^52, and it
    is infinite when the sum overflows. *)
Definition calcolaELO (eloA eloB risultato k : R) : Z :=
  Math_round (eloA + k * (risultato - atteso eloA eloB)).

(** The rounding the specification describes: nearest integer, a tie going
    away from zero. *)
Definition round_half_away (x : R) : Z :=
  if Rlt_dec x 0 then (- Int_part (- x + / 2))%Z else Int_part (x + / 2).

(** The specification's reading of [computeRating]. *)
Definition rounds_half_away (ratingSelf ratingOpponent outcome k : R) : Prop :=
  calcolaELO ratingSelf ratingOpponent outcome k
  = round_half_away (ratingSelf + k * (outcome - atteso ratingSelf ratingOpponent)).


(** The symmetry the specification states at equal ratings. *)
Definition equal_rating_symmetry (r k : R) : Prop :=
  IZR (calcolaELO r r 1 k) > r
  /\ IZR (calcolaELO r r 0 k) < r
  /\ IZR (calcolaELO r r 1 k) - r = r - IZR (calcolaELO r r 0 k).


(** ** The store

    The two tables of [createTables].  The timestamp columns ([creato],
    [aggiornato], [data]) are not read by the code modelled here and are
    left out. *)

(** [ruolo ENUM('portiere', 'attaccante')] *)
Inductive ruolo : Set := portiere | attaccante.

(** A row of [giocatori]. *)
Module Giocatore.
Record t : Set := mk {
  id : Z;
  nome : string;
  ruolo : ruolo;
  elo : Z;
  partite : Z;
  vittorie : Z;
  sconfitte : Z
}.
End Giocatore.

(** A row of [partite]; a team is the two-element array the caller
    passes ([routes/api.js] checks the length). *)
Module Partita.
Record t : Set := mk {
  id : Z;
  squadra1 : Z * Z;
  squadra2 : Z * Z;
  vincitore : Z
}.
End Partita.

(** The database: the rows of the two tables and their [AUTO_INCREMENT]
    counters. *)
Record database : Set := mkDb {
  giocatori : list Giocatore.t;
  partite : list Partita.t;
  auto_giocatori : Z;
  auto_partite : Z
}.

(** The state right after [createTables] on an empty schema. *)
Definition database_vuoto : database := mkDb [] [] 1 1.

(** [id INT AUTO_INCREMENT PRIMARY KEY] on [giocatori]: no two rows share
    an id, the counter is positive, and every id in use is positive and
    below the counter. *)
Definition primary_key (d : database) : Prop :=
  NoDup (map Giocatore.id (giocatori d))
  /\ (0 < auto_giocatori d)%Z
  /\ Forall (fun g => (0 < Giocatore.id g < auto_giocatori d)%Z) (giocatori d).

(** ** Errors and effects *)

(** What the code throws: [new Error(message)], or whatever a driver call
    rejected with. *)
Inductive errore : Set :=
| Error (message : string)
| DriverError.

Inductive esito (A : Type) : Type :=
| Ok (a : A)
| Throw (e : errore).
Arguments Ok {A} a.
Arguments Throw {A} e.

(** The world a method runs in: the database, the faults the driver is
    going to raise (one entry per driver call, in order, [true] for a call
    that throws; past the end of the list no call throws) and, while a
    transaction is open, the rows as they were at [beginTransaction]. *)
Record mondo : Type := mkMondo {
  db : database;
  guasti : list bool;
  transazione : option (list Giocatore.t * list Partita.t)
}.

Definition M (A : Type) : Type := mondo -> esito A * mondo.

Definition ret {A} (a : A) : M A := fun w => (Ok a, w).

Definition bind {A B} (c : M A) (k : A -> M B) : M B :=
  fun w => match c w with
           | (Ok a, w') => k a w'
           | (Throw e, w') => (Throw e, w')
           end.

Definition throw {A} (e : errore) : M A := fun w => (Throw e, w).

(** [try { c } catch (error) { h error }] *)
Definition try_catch {A} (c : M A) (h : errore -> M A) : M A :=
  fun w => match c w with
           | (Ok a, w') => (Ok a, w')
           | (Throw e, w') => h e w'
           end.

(** [try { c } finally { f }] *)
Definition try_finally {A} (c : M A) (f : M unit) : M A :=
  fun w => let (r, w') := c w in
           match f w' with
           | (Ok _, w'') => (r, w'')
           | (Throw e, w'') => (Throw e, w'')
           end.

Declare Scope M_scope.
Delimit Scope M_scope with M.
Notation "x <- c ;; k" := (bind c (fun x => k))
  (at level 61, c at next level, right associativity) : M_scope.
Notation "c ;; k" := (bind c (fun _ => k))
  (at level 61, right associativity) : M_scope.
Local Open Scope M_scope.

(** One call into the driver: it throws when the fault schedule says so,
    and runs the statement [f] on the database otherwise. *)
Definition driver {A} (f : database -> A * database) : M A :=
  fun w =>
    match guasti w with
    | true :: rest => (Throw DriverError, mkMondo (db w) rest (transazione w))
    | false :: rest =>
        let (a, d') := f (db w) in (Ok a, mkMondo d' rest (transazione w))
    | [] =>
        let (a, d') := f (db w) in (Ok a, mkMondo d' [] (transazione w))
    end.

(** Put the rows back as they were when the transaction began; the
    [AUTO_INCREMENT] counters are not part of a transaction. *)
Definition ripristina (snap : list Giocatore.t * list Partita.t)
    (d : database) : database :=
  mkDb (fst snap) (snd snap) (auto_giocatori d) (auto_partite d).

(** [connection.beginTransaction()] *)
Definition beginTransaction : M unit :=
  fun w =>
    match driver (fun d => (tt, d)) w with
    | (Ok _, w') =>
        (Ok tt, mkMondo (db w') (guasti w')
                  (Some (giocatori (db w'), partite (db w'))))
    | (Throw e, w') => (Throw e, w')
    end.

(** [connection.commit()]: a commit that throws has committed nothing. *)
Definition commit : M unit :=
  fun w =>
    match driver (fun d => (tt, d)) w with
    | (Ok _, w') => (Ok tt, mkMondo (db w') (guasti w') None)
    | (Throw e, w') => (Throw e, w')
    end.

(** What the server does with an open transaction that is given up. *)
Definition annulla (w : mondo) : mondo :=
  match transazione w with
  | Some snap => mkMondo (ripristina snap (db w)) (guasti w) None
  | None => w
  end.

(** [connection.rollback()] *)
Definition rollback : M unit :=
  fun w =>
    match driver (fun d => (tt, d)) w with
    | (Ok _, w') => (Ok tt, annulla w')
    | (Throw e, w') => (Throw e, w')
    end.

(** [connection.end()]: the server discards a transaction still open on a
    connection that closes. *)
Definition connection_end : M unit := fun w => (Ok tt, annulla w).

(** [mysql.createConnection(this.config)] *)
Definition createConnection : M unit := driver (fun d => (tt, d)).

(** ** The methods of [Database] *)

(** What [createPartita] resolves to. *)
Record esito_partita : Type := mkEsito {
  ep_id : Z;
  ep_squadra1 : Z * Z;
  ep_squadra2 : Z * Z;
  ep_vincitore : Z;
  squadra1_delta : R;
  squadra2_delta : R
}.

(** [Uno o piu' giocatori non esistono], the message of the error thrown
    when the fetch does not return four rows. *)
Definition UnknownPlayer : errore :=
  Error "Uno o più giocatori non esistono".

(** The message of the error [createGiocatore] throws on a name already
    in use. *)
Definition DuplicatePlayer : errore :=
  Error "Giocatore già esistente".

(** The message of the error [resetDatabase] throws in production. *)
Definition OperationForbidden : errore :=
  Error "Reset database non consentito in produzione".

(** [eloMap], the object filled by [giocatori.forEach(g => eloMap[g.id] = g.elo)]:
    a later row overwrites an earlier one with the same key. *)
Definition crea_eloMap (rows : list (Z * Z)) : Z -> option Z :=
  fold_left
    (fun (m : Z -> option Z) (g : Z * Z) =>
       fun i => if (i =? fst g)%Z then Some (snd g) else m i)
    rows (fun _ => None).

(** Reading [eloMap[i]] as a number.  A missing key reads [undefined] in
    JavaScript; after the four-row check no key the code reads is missing
    (lemma [eloMap_presente]), the default is never observed there. *)
Definition numero (o : option Z) : R :=
  match o with Some z => IZR z | None => 0 end.

(** [vincitore === n ? 1 : 0] *)
Definition flag (vincitore n : Z) : Z := if (vincitore =? n)%Z then 1%Z else 0%Z.

Section Metodi.

(** How the server turns the number bound to [elo = ?] into the value of
    the [INT] column.  The code leaves this to the server. *)
Variable INT_cast : R -> Z.

(** The SQL function [LOWER]. *)
Variable LOWER : string -> string.

(** [process.env.NODE_ENV] *)
Variable NODE_ENV : option string.

(** *** Statements *)

(** [SELECT id, elo FROM giocatori WHERE id IN (?,?,?,?)] *)
Definition select_elo (ids : list Z) (d : database) : list (Z * Z) :=
  map (fun g => (Giocatore.id g, Giocatore.elo g))
      (filter (fun g => existsb (Z.eqb (Giocatore.id g)) ids) (giocatori d)).

(** [UPDATE giocatori SET elo = ?, partite = partite + 1,
    vittorie = vittorie + ?, sconfitte = sconfitte + ? WHERE id = ?] on
    one row; the arguments are the four bound values, in order. *)
Definition UPDATE_riga (p_elo : R) (p_vittorie p_sconfitte p_id : Z)
    (g : Giocatore.t) : Giocatore.t :=
  if (Giocatore.id g =? p_id)%Z then
    Giocatore.mk (Giocatore.id g) (Giocatore.nome g) (Giocatore.ruolo g)
      (INT_cast p_elo)
      (Giocatore.partite g + 1)
      (Giocatore.vittorie g + p_vittorie)
      (Giocatore.sconfitte g + p_sconfitte)
  else g.

Definition UPDATE_giocatori (p_elo : R) (p_vittorie p_sconfitte p_id : Z)
    (d : database) : database :=
  mkDb (map (UPDATE_riga p_elo p_vittorie p_sconfitte p_id) (giocatori d))
       (partite d) (auto_giocatori d) (auto_partite d).

(** [INSERT INTO partite (squadra1, squadra2, vincitore, data)
    VALUES (?, ?, ?, NOW())]; the result carries [insertId]. *)
Definition insert_partita (squadra1 squadra2 : Z * Z) (vincitore : Z)
    (d : database) : Z * database :=
  (auto_partite d,
   mkDb (giocatori d)
        (partite d ++ [Partita.mk (auto_partite d) squadra1 squadra2 vincitore])
        (auto_giocatori d) (auto_partite d + 1)).

(** [INSERT INTO giocatori (nome, ruolo, elo, partite, vittorie, sconfitte)
    VALUES (?, ?, 1500, 0, 0, 0)], and with the column defaults
    [INSERT INTO giocatori (nome, ruolo) VALUES (?, ?)]. *)
Definition insert_giocatore (nome : string) (r : ruolo)
    (d : database) : Z * database :=
  (auto_giocatori d,
   mkDb (giocatori d ++ [Giocatore.mk (auto_giocatori d) nome r 1500 0 0 0])
        (partite d) (auto_giocatori d + 1) (auto_partite d)).

(** [SELECT id FROM giocatori WHERE LOWER(nome) = LOWER(?)] *)
Definition select_per_nome (nome : string) (d : database) : list Z :=
  map Giocatore.id
      (filter (fun g => String.eqb (LOWER (Giocatore.nome g)) (LOWER nome))
              (giocatori d)).

(** [TRUNCATE TABLE partite] and [TRUNCATE TABLE giocatori]: the rows go
    and the [AUTO_INCREMENT] counter starts again. *)
Definition truncate_partite (d : database) : database :=
  mkDb (giocatori d) [] (auto_giocatori d) 1.

Definition truncate_giocatori (d : database) : database :=
  mkDb [] (partite d) 1 (auto_partite d).

(** The statements as driver calls. *)
Definition execute_select_elo (ids : list Z) : M (list (Z * Z)) :=
  driver (fun d => (select_elo ids d, d)).

Definition execute_update (p_elo : R) (p_vittorie p_sconfitte p_id : Z)
    : M unit :=
  driver (fun d => (tt, UPDATE_giocatori p_elo p_vittorie p_sconfitte p_id d)).

Definition execute_insert_partita (squadra1 squadra2 : Z * Z)
    (vincitore : Z) : M Z :=
  driver (insert_partita squadra1 squadra2 vincitore).

Definition execute_insert_giocatore (nome : string) (r : ruolo) : M Z :=
  driver (insert_giocatore nome r).

(** A statement that only reads. *)
Definition execute_query {A} (f : database -> A) : M A :=
  driver (fun d => (f d, d)).

(** A [SET] or a [TRUNCATE]. *)
Definition execute_ddl (f : database -> database) : M unit :=
  driver (fun d => (tt, f d)).

(** [for (const x of xs) { await body(x) }] *)
Fixpoint for_of {A} (xs : list A) (body : A -> M unit) : M unit :=
  match xs with
  | [] => ret tt
  | x :: rest => body x ;; for_of rest body
  end.

(** *** [createPartita(squadra1, squadra2, vincitore)] *)
Definition createPartita (squadra1 squadra2 : Z * Z) (vincitore : Z)
    : M esito_partita :=
  createConnection ;;
  try_finally
    (try_catch
       (beginTransaction ;;
        let tuttiGiocatori :=
          [fst squadra1; snd squadra1; fst squadra2; snd squadra2] in
        giocatori <- execute_select_elo tuttiGiocatori ;;
        (if negb (List.length giocatori =? 4)%nat
         then throw UnknownPlayer else ret tt) ;;
        let eloMap := crea_eloMap giocatori in
        let eloSquadra1 :=
          (numero (eloMap (fst squadra1)) + numero (eloMap (snd squadra1)))
          / 2 in
        let eloSquadra2 :=
          (numero (eloMap (fst squadra2)) + numero (eloMap (snd squadra2)))
          / 2 in
        let k := 32 in
        let risultato1 := IZR (flag vincitore 1) in
        let risultato2 := IZR (flag vincitore 2) in
        let nuoviEloSquadra1 :=
          calcolaELO eloSquadra1 eloSquadra2 risultato1 k in
        let nuoviEloSquadra2 :=
          calcolaELO eloSquadra2 eloSquadra1 risultato2 k in
        let deltaElo1 := IZR nuoviEloSquadra1 - eloSquadra1 in
        let deltaElo2 := IZR nuoviEloSquadra2 - eloSquadra2 in
        for_of [fst squadra1; snd squadra1]
          (fun giocatoreId =>
             let nuovoElo := numero (eloMap giocatoreId) + deltaElo1 in
             let isVincitore := flag vincitore 1 in
             execute_update nuovoElo isVincitore (1 - isVincitore)
               giocatoreId) ;;
        for_of [fst squadra2; snd squadra2]
          (fun giocatoreId =>
             let nuovoElo := numero (eloMap giocatoreId) + deltaElo2 in
             let isVincitore := flag vincitore 2 in
             execute_update nuovoElo isVincitore (1 - isVincitore)
               giocatoreId) ;;
        insertId <- execute_insert_partita squadra1 squadra2 vincitore ;;
        commit ;;
        ret (mkEsito insertId squadra1 squadra2 vincitore
                     deltaElo1 deltaElo2))
       (fun error => rollback ;; throw error))
    connection_end.

(** *** [createGiocatore(nome, ruolo)] *)
Definition createGiocatore (nome : string) (r : ruolo) : M Giocatore.t :=
  try_catch
    (existing <- execute_query (select_per_nome nome) ;;
     (if (0 <? List.length existing)%nat
      then throw DuplicatePlayer else ret tt) ;;
     insertId <- execute_insert_giocatore nome r ;;
     ret (Giocatore.mk insertId nome r 1500 0 0 0))
    (fun error => throw error).

(** *** [insertSampleData()] *)
Definition samplePlayers : list (string * ruolo) :=
  [ ("Mario"%string, portiere); ("Luigi"%string, attaccante);
    ("Paolo"%string, portiere); ("Marco"%string, attaccante);
    ("Giovanni"%string, portiere); ("Luca"%string, attaccante) ].

Definition insertSampleData : M unit :=
  try_catch
    (count <- execute_query (fun d => List.length (giocatori d)) ;;
     if (count =? 0)%nat
     then for_of samplePlayers
            (fun p => execute_insert_giocatore (fst p) (snd p) ;; ret tt)
     else ret tt)
    (fun _ => ret tt).

(** *** [resetDatabase()] *)
Definition is_production : bool :=
  match NODE_ENV with
  | Some s => String.eqb s "production"
  | None => false
  end.

Definition resetDatabase : M bool :=
  try_catch
    ((if is_production then throw OperationForbidden else ret tt) ;;
     execute_ddl (fun d => d) ;;          (* SET FOREIGN_KEY_CHECKS = 0 *)
     execute_ddl truncate_partite ;;      (* TRUNCATE TABLE partite *)
     execute_ddl truncate_giocatori ;;    (* TRUNCATE TABLE giocatori *)
     execute_ddl (fun d => d) ;;          (* SET FOREIGN_KEY_CHECKS = 1 *)
     insertSampleData ;;
     ret true)
    (fun error => throw error).

(** *** What a call binds

    The values [createPartita] computes between the fetch and the writes,
    collected: lemma [createPartita_run] shows that a call that returns
    has written exactly these. *)

(** The values bound to one [UPDATE giocatori]: the new rating, the flag
    added to [vittorie] (one minus it is added to [sconfitte]) and the
    id. *)
Record aggiornamento : Type := mkAgg {
  nuovoElo : R;
  isVincitore : Z;
  giocatoreId : Z
}.

(** What [createPartita] computes between the fetch and the writes: the
    two deltas and one [aggiornamento] per loop iteration, in order. *)
Record piano : Type := mkPiano {
  deltaElo1 : R;
  deltaElo2 : R;
  aggiornamenti : list aggiornamento
}.

Definition calcola_piano (rows : list (Z * Z)) (squadra1 squadra2 : Z * Z)
    (vincitore : Z) : piano :=
  let eloMap := crea_eloMap rows in
  let eloSquadra1 :=
    (numero (eloMap (fst squadra1)) + numero (eloMap (snd squadra1))) / 2 in
  let eloSquadra2 :=
    (numero (eloMap (fst squadra2)) + numero (eloMap (snd squadra2))) / 2 in
  let k := 32 in
  let risultato1 := IZR (flag vincitore 1) in
  let risultato2 := IZR (flag vincitore 2) in
  let nuoviEloSquadra1 := calcolaELO eloSquadra1 eloSquadra2 risultato1 k in
  let nuoviEloSquadra2 := calcolaELO eloSquadra2 eloSquadra1 risultato2 k in
  let deltaElo1 := IZR nuoviEloSquadra1 - eloSquadra1 in
  let deltaElo2 := IZR nuoviEloSquadra2 - eloSquadra2 in
  mkPiano deltaElo1 deltaElo2
    (map (fun giocatoreId =>
            mkAgg (numero (eloMap giocatoreId) + deltaElo1)
                  (flag vincitore 1) giocatoreId)
         [fst squadra1; snd squadra1]
     ++
     map (fun giocatoreId =>
            mkAgg (numero (eloMap giocatoreId) + deltaElo2)
                  (flag vincitore 2) giocatoreId)
         [fst squadra2; snd squadra2]).

(** The [UPDATE] with the values of [a], on one row and on the table. *)
Definition update_riga (a : aggiornamento) (g : Giocatore.t) : Giocatore.t :=
  UPDATE_riga (nuovoElo a) (isVincitore a) (1 - isVincitore a)
    (giocatoreId a) g.

Definition update_giocatore (a : aggiornamento) (d : database) : database :=
  UPDATE_giocatori (nuovoElo a) (isVincitore a) (1 - isVincitore a)
    (giocatoreId a) d.

(** *** Two connections

    Each [createPartita] call works on a connection of its own, so the
    statements of two calls can interleave on the server.  The writes of
    one call, given what its fetch returned: the four [UPDATE]s, the
    [INSERT] and the commit. *)
Definition scrivi (rows : list (Z * Z)) (squadra1 squadra2 : Z * Z)
    (vincitore : Z) (d : database) : database :=
  snd (insert_partita squadra1 squadra2 vincitore
         (fold_left (fun d' a => update_giocatore a d')
            (aggiornamenti (calcola_piano rows squadra1 squadra2 vincitore))
            d)).

Definition tutti (squadra1 squadra2 : Z * Z) : list Z :=
  [fst squadra1; snd squadra1; fst squadra2; snd squadra2].

(** The schedule in which both calls fetch before either writes: call A
    begins and fetches, call B begins and fetches, A updates, inserts
    and commits, then B updates, inserts and commits.  The fetch is a
    plain [SELECT], it takes no lock, so B's fetch does not wait for A;
    B's [UPDATE]s run after A's commit on the rows A committed. *)
Definition intercalate
    (a1 a2 : Z * Z) (av : Z) (b1 b2 : Z * Z) (bv : Z)
    (d : database) : database :=
  let righeA := select_elo (tutti a1 a2) d in
  let righeB := select_elo (tutti b1 b2) d in
  let dA := scrivi righeA a1 a2 av d in
  scrivi righeB b1 b2 bv dA.

(** The same two calls one after the other. *)
Definition in_serie
    (a1 a2 : Z * Z) (av : Z) (b1 b2 : Z * Z) (bv : Z)
    (d : database) : database :=
  let dA := scrivi (select_elo (tutti a1 a2) d) a1 a2 av d in
  scrivi (select_elo (tutti b1 b2) dA) b1 b2 bv dA.

(** *** Runs *)

(** A method called on a database with a fault schedule, no transaction
    being open. *)
Definition esegui {A} (c : M A) (g : list bool) (d : database)
    : esito A * database :=
  let (r, w) := c (mkMondo d g None) in (r, db w).

(** The calls that write. *)
Inductive chiamata : Type :=
| CreateGiocatore (nome : string) (r : ruolo)
| CreatePartita (squadra1 squadra2 : Z * Z) (vincitore : Z)
| InsertSampleData
| ResetDatabase.

(** The database after call [c], made on [d] with the driver raising the
    faults [g]. *)
Definition dopo (c : chiamata) (g : list bool) (d : database) : database :=
  match c with
  | CreateGiocatore nome r => snd (esegui (createGiocatore nome r) g d)
  | CreatePartita squadra1 squadra2 vincitore =>
      snd (esegui (createPartita squadra1 squadra2 vincitore) g d)
  | InsertSampleData => snd (esegui insertSampleData g d)
  | ResetDatabase => snd (esegui resetDatabase g d)
  end.

(** The databases the methods can produce from the empty schema. *)
Inductive raggiungibile : database -> Prop :=
| ragg_vuoto : raggiungibile database_vuoto
| ragg_passo d c g : raggiungibile d -> raggiungibile (dopo c g d).

End Metodi.

(** ** Reading a table *)

(** The row of player [i], if any. *)
Definition riga (i : Z) (d : database) : option Giocatore.t :=
  find (fun g => (Giocatore.id g =? i)%Z) (giocatori d).

Definition esiste (i : Z) (d : database) : Prop :=
  In i (map Giocatore.id (giocatori d)).

(** The invariant of the data model on one row. *)
Definition contatori_ok (g : Giocatore.t) : Prop :=
  (Giocatore.partite g = Giocatore.vittorie g + Giocatore.sconfitte g
   /\ 0 <= Giocatore.vittorie g /\ 0 <= Giocatore.sconfitte g
   /\ 0 <= Giocatore.partite g)%Z.

(** A number that is an integer. *)
Definition intero (x : R) : Prop := exists z : Z, x = IZR z.


(** The row [g] after the [UPDATE]s of [l], in order. *)
Definition aggiorna_riga (INT_cast : R -> Z) (l : list aggiornamento)
    (g : Giocatore.t) : Giocatore.t :=
  fold_left (fun g' a => update_riga INT_cast a g') l g.

(** No counter of [g'] is below the one of [g]. *)
Definition contatori_le (g g' : Giocatore.t) : Prop :=
  (Giocatore.partite g <= Giocatore.partite g'
   /\ Giocatore.vittorie g <= Giocatore.vittorie g'
   /\ Giocatore.sconfitte g <= Giocatore.sconfitte g')%Z.

(** One more match played, and one more win or else one more loss. *)
Definition una_partita_in_piu (g g' : Giocatore.t) : Prop :=
  (Giocatore.partite g' = Giocatore.partite g + 1
   /\ (Giocatore.vittorie g' = Giocatore.vittorie g + 1
       /\ Giocatore.sconfitte g' = Giocatore.sconfitte g
       \/ Giocatore.vittorie g' = Giocatore.vittorie g
          /\ Giocatore.sconfitte g' = Giocatore.sconfitte g + 1))%Z.

(** A method that, started outside a transaction, ends outside a
    transaction and keeps [Inv] on the database, whatever the driver
    does. *)
Definition mantiene (Inv : database -> Prop) {A} (c : M A) : Prop :=
  forall w, transazione w = None -> Inv (db w) ->
            transazione (snd (c w)) = None /\ Inv (db (snd (c w))).

(** ** Concrete databases *)

Definition nuovo (i : Z) (nome : string) (r : ruolo) (elo : Z) : Giocatore.t :=
  Giocatore.mk i nome r elo 0 0 0.

(** Four players at 1500 who have not played (scenario 1). *)
Definition db_quattro : database :=
  mkDb [ nuovo 1 "A" portiere 1500; nuovo 2 "B" attaccante 1500;
         nuovo 3 "C" portiere 1500; nuovo 4 "D" attaccante 1500 ]
       [] 5 1.

(** Four players, each team with ratings 1500 and 1501. *)
Definition db_dispari : database :=
  mkDb [ nuovo 1 "A" portiere 1500; nuovo 2 "B" attaccante 1501;
         nuovo 3 "C" portiere 1501; nuovo 4 "D" attaccante 1500 ]
       [] 5 1.

(** Seven players at 1500. *)
Definition db_sette : database :=
  mkDb [ nuovo 1 "A" portiere 1500; nuovo 2 "B" attaccante 1500;
         nuovo 3 "C" portiere 1500; nuovo 4 "D" attaccante 1500;
         nuovo 5 "E" portiere 1500; nuovo 6 "F" attaccante 1500;
         nuovo 7 "G" portiere 1500 ]
       [] 8 1.

(** The database [insertSampleData] makes of the empty schema. *)
Definition db_esempio : database :=
  mkDb [ nuovo 1 "Mario" portiere 1500; nuovo 2 "Luigi" attaccante 1500;
         nuovo 3 "Paolo" portiere 1500; nuovo 4 "Marco" attaccante 1500;
         nuovo 5 "Giovanni" portiere 1500; nuovo 6 "Luca" attaccante 1500 ]
       [] 7 1.

(** The specification's reading of [resetAll] outside production: no
    player row and no match row is left. *)
Definition reset_clears (NODE_ENV : option string) (d : database) : Prop :=
  is_production NODE_ENV = false ->
  giocatori (snd (esegui (resetDatabase NODE_ENV) [] d)) = []
  /\ partite (snd (esegui (resetDatabase NODE_ENV) [] d)) = [].

(** What holds of every database the methods produce: the primary key of
    [giocatori], and the counters of every row. *)
Definition stato_ok (d : database) : Prop :=
  primary_key d /\ Forall contatori_ok (giocatori d).

(** [d] has the player rows of [d0], in order, and maybe more after. *)
Definition estende (d0 d : database) : Prop :=
  exists extra, giocatori d = giocatori d0 ++ extra.

(** Every row of [d] is still in [d'], under the same id, with no counter
    lower. *)
Definition contatori_monotoni (d d' : database) : Prop :=
  forall i g0, riga i d = Some g0 ->
    exists g1, riga i d' = Some g1 /\ contatori_le g0 g1.

(** [db_sette] after players 1 and 2 have beaten 3 and 4. *)
Definition db_sette_A : database :=
  mkDb [ Giocatore.mk 1 "A" portiere 1516 1 1 0;
         Giocatore.mk 2 "B" attaccante 1516 1 1 0;
         Giocatore.mk 3 "C" portiere 1484 1 0 1;
         Giocatore.mk 4 "D" attaccante 1484 1 0 1;
         nuovo 5 "E" portiere 1500; nuovo 6 "F" attaccante 1500;
         nuovo 7 "G" portiere 1500 ]
       [ Partita.mk 1 (1, 2)%Z (3, 4)%Z 1 ] 8 2.

(** [db_sette] after players 1 and 5 have beaten 6 and 7. *)
Definition db_sette_B : database :=
  mkDb [ Giocatore.mk 1 "A" portiere 1516 1 1 0;
         nuovo 2 "B" attaccante 1500;
         nuovo 3 "C" portiere 1500; nuovo 4 "D" attaccante 1500;
         Giocatore.mk 5 "E" portiere 1516 1 1 0;
         Giocatore.mk 6 "F" attaccante 1484 1 0 1;
         Giocatore.mk 7 "G" portiere 1484 1 0 1 ]
       [ Partita.mk 1 (1, 5)%Z (6, 7)%Z 1 ] 8 2.

(** Both matches recorded, the second fetch made before the first call
    wrote. *)
Definition db_intercalato : database :=
  mkDb [ Giocatore.mk 1 "A" portiere 1516 2 2 0;
         Giocatore.mk 2 "B" attaccante 1516 1 1 0;
         Giocatore.mk 3 "C" portiere 1484 1 0 1;
         Giocatore.mk 4 "D" attaccante 1484 1 0 1;
         Giocatore.mk 5 "E" portiere 1516 1 1 0;
         Giocatore.mk 6 "F" attaccante 1484 1 0 1;
         Giocatore.mk 7 "G" portiere 1484 1 0 1 ]
       [ Partita.mk 1 (1, 2)%Z (3, 4)%Z 1; Partita.mk 2 (1, 5)%Z (6, 7)%Z 1 ]
       8 3.

(** Both matches recorded one call after the other, A then B. *)
Definition db_serie_AB : database :=
  mkDb [ Giocatore.mk 1 "A" portiere 1532 2 2 0;
         Giocatore.mk 2 "B" attaccante 1516 1 1 0;
         Giocatore.mk 3 "C" portiere 1484 1 0 1;
         Giocatore.mk 4 "D" attaccante 1484 1 0 1;
         Giocatore.mk 5 "E" portiere 1516 1 1 0;
         Giocatore.mk 6 "F" attaccante 1484 1 0 1;
         Giocatore.mk 7 "G" portiere 1484 1 0 1 ]
       [ Partita.mk 1 (1, 2)%Z (3, 4)%Z 1; Partita.mk 2 (1, 5)%Z (6, 7)%Z 1 ]
       8 3.

(** Both matches recorded one call after the other, B then A. *)
Definition db_serie_BA : database :=
  mkDb [ Giocatore.mk 1 "A" portiere 1532 2 2 0;
         Giocatore.mk 2 "B" attaccante 1516 1 1 0;
         Giocatore.mk 3 "C" portiere 1484 1 0 1;
         Giocatore.mk 4 "D" attaccante 1484 1 0 1;
         Giocatore.mk 5 "E" portiere 1516 1 1 0;
         Giocatore.mk 6 "F" attaccante 1484 1 0 1;
         Giocatore.mk 7 "G" portiere 1484 1 0 1 ]
       [ Partita.mk 1 (1, 5)%Z (6, 7)%Z 1; Partita.mk 2 (1, 2)%Z (3, 4)%Z 1 ]
       8 3.

(** The sample players after 1 and 2 have beaten 3 and 4 once, and
    twice. *)
Definition db_esempio_1 : database :=
  mkDb [ Giocatore.mk 1 "Mario" portiere 1516 1 1 0;
         Giocatore.mk 2 "Luigi" attaccante 1516 1 1 0;
         Giocatore.mk 3 "Paolo" portiere 1484 1 0 1;
         Giocatore.mk 4 "Marco" attaccante 1484 1 0 1;
         nuovo 5 "Giovanni" portiere 1500; nuovo 6 "Luca" attaccante 1500 ]
       [ Partita.mk 1 (1, 2)%Z (3, 4)%Z 1 ] 7 2.

Definition db_esempio_2 : database :=
  mkDb [ Giocatore.mk 1 "Mario" portiere 1531 2 2 0;
         Giocatore.mk 2 "Luigi" attaccante 1531 2 2 0;
         Giocatore.mk 3 "Paolo" portiere 1469 2 0 2;
         Giocatore.mk 4 "Marco" attaccante 1469 2 0 2;
         nuovo 5 "Giovanni" portiere 1500; nuovo 6 "Luca" attaccante 1500 ]
       [ Partita.mk 1 (1, 2)%Z (3, 4)%Z 1; Partita.mk 2 (1, 2)%Z (3, 4)%Z 1 ]
       7 3.

(** What the code sends for [elo] when 1 and 5 then beat 2 and 6, and
    the rows the server makes of it. *)
Definition db_esempio_3 (INT_cast : R -> Z) : database :=
  mkDb [ Giocatore.mk 1 "Mario" portiere (INT_cast (3095 / 2)) 3 3 0;
         Giocatore.mk 2 "Luigi" attaccante (INT_cast (3031 / 2)) 3 2 1;
         Giocatore.mk 3 "Paolo" portiere 1469 2 0 2;
         Giocatore.mk 4 "Marco" attaccante 1469 2 0 2;
         Giocatore.mk 5 "Giovanni" portiere (INT_cast (3033 / 2)) 1 1 0;
         Giocatore.mk 6 "Luca" attaccante (INT_cast (2969 / 2)) 1 0 1 ]
       [ Partita.mk 1 (1, 2)%Z (3, 4)%Z 1; Partita.mk 2 (1, 2)%Z (3, 4)%Z 1;
         Partita.mk 3 (1, 5)%Z (2, 6)%Z 1 ]
       7 4.

(** [db_dispari] after 1 and 2 have beaten 3 and 4. *)
Definition db_dispari_1 (INT_cast : R -> Z) : database :=
  mkDb [ Giocatore.mk 1 "A" portiere (INT_cast (3033 / 2)) 1 1 0;
         Giocatore.mk 2 "B" attaccante (INT_cast (3035 / 2)) 1 1 0;
         Giocatore.mk 3 "C" portiere (INT_cast (2971 / 2)) 1 0 1;
         Giocatore.mk 4 "D" attaccante (INT_cast (2969 / 2)) 1 0 1 ]
       [ Partita.mk 1 (1, 2)%Z (3, 4)%Z 1 ] 5 2.

(** A row as [INSERT INTO giocatori] makes it. *)
Definition fresca (g : Giocatore.t) : Prop :=
  (Giocatore.elo g = 1500 /\ Giocatore.partite g = 0
   /\ Giocatore.vittorie g = 0 /\ Giocatore.sconfitte g = 0)%Z.

(** The specification's reading of the counters: whatever the call, no
    counter of a player is lower after it. *)
Definition contatori_mai_in_calo (INT_cast : R -> Z)
    (LOWER : string -> string) (NODE_ENV : option string) : Prop :=
  forall d c g,
    raggiungibile INT_cast LOWER NODE_ENV d ->
    contatori_monotoni d (dopo INT_cast LOWER NODE_ENV c g d).

(** ** More of [Database] *)

(** A statement the server rejects whatever the database holds; the call
    still uses up its entry of the fault schedule. *)
Definition driver_rifiuta {A} : M A :=
  fun w => (Throw DriverError, mkMondo (db w) (tl (guasti w)) (transazione w)).

(** [SELECT id, nome FROM giocatori WHERE id IN (...)] *)
Definition select_nomi (ids : list Z) (d : database) : list (Z * string) :=
  map (fun g => (Giocatore.id g, Giocatore.nome g))
      (filter (fun g => existsb (Z.eqb (Giocatore.id g)) ids) (giocatori d)).

(** The statement of [getNomiGiocatori]: one placeholder per id, so that
    with no id the text is [... WHERE id IN ()], which is not SQL. *)
Definition execute_select_nomi (ids : list Z) : M (list (Z * string)) :=
  match ids with
  | [] => driver_rifiuta
  | _ :: _ => driver (fun d => (select_nomi ids d, d))
  end.

(** [nomiMap], filled by [rows.forEach(row => nomiMap[row.id] = row.nome)]. *)
Definition crea_nomiMap (rows : list (Z * string)) : Z -> option string :=
  fold_left
    (fun (m : Z -> option string) (row : Z * string) =>
       fun i => if (i =? fst row)%Z then Some (snd row) else m i)
    rows (fun _ => None).

(** [getNomiGiocatori(ids)] *)
Definition getNomiGiocatori (ids : list Z) : M (Z -> option string) :=
  try_catch
    (rows <- execute_select_nomi ids ;;
     ret (crea_nomiMap rows))
    (fun error => throw error).

(** The rows [insertSampleData] makes of the players [l], the first with
    id [start]. *)
Fixpoint righe_esempio (start : Z) (l : list (string * ruolo))
    : list Giocatore.t :=
  match l with
  | [] => []
  | p :: rest =>
      Giocatore.mk start (fst p) (snd p) 1500 0 0 0
      :: righe_esempio (start + 1) rest
  end.

(** ** Totals and keys *)

(** The sum of a column of [giocatori]. *)
Definition totale (f : Giocatore.t -> Z) (d : database) : Z :=
  fold_right Z.add 0%Z (map f (giocatori d)).

(** [id INT AUTO_INCREMENT PRIMARY KEY] on [partite]. *)
Definition chiave_partite (d : database) : Prop :=
  NoDup (map Partita.id (partite d))
  /\ (0 < auto_partite d)%Z
  /\ Forall (fun m => (0 < Partita.id m < auto_partite d)%Z) (partite d).

(** Every match row names four different players, each with a row. *)
Definition riferimenti (d : database) : Prop :=
  Forall (fun m =>
            NoDup (tutti (Partita.squadra1 m) (Partita.squadra2 m))
            /\ Forall (fun i => esiste i d)
                 (tutti (Partita.squadra1 m) (Partita.squadra2 m)))
         (partite d).

(** The three together. *)
Definition integro (d : database) : Prop :=
  primary_key d /\ chiave_partite d /\ riferimenti d.

(** ** [GET /api/statistics]

    The object the route builds from the two arrays the database methods
    returned. *)
Record statistiche : Type := mkStat {
  totale_giocatori : nat;
  totale_partite : nat;
  portieri : nat;
  attaccanti : nat;
  elo_medio : Z;
  migliore_giocatore : option Giocatore.t;
  giocatori_con_partite : nat
}.

Definition ruolo_eqb (a b : ruolo) : bool :=
  match a, b with
  | portiere, portiere | attaccante, attaccante => true
  | _, _ => false
  end.

(** [giocatori.reduce((max, g) => g.elo > max.elo ? g : max)] on a
    non-empty array whose first element is [g0]. *)
Definition reduce_max (g0 : Giocatore.t) (rest : list Giocatore.t)
    : Giocatore.t :=
  fold_left
    (fun max g => if (Giocatore.elo g >? Giocatore.elo max)%Z then g else max)
    rest g0.

(** [giocatori.reduce((sum, g) => sum + g.elo, 0)] *)
Definition reduce_sum (giocatori : list Giocatore.t) : R :=
  fold_left (fun sum g => sum + IZR (Giocatore.elo g)) giocatori 0.

Definition stats {P : Type} (giocatori : list Giocatore.t) (partite : list P)
    : statistiche :=
  mkStat
    (List.length giocatori)
    (List.length partite)
    (List.length
       (filter (fun g => ruolo_eqb (Giocatore.ruolo g) portiere) giocatori))
    (List.length
       (filter (fun g => ruolo_eqb (Giocatore.ruolo g) attaccante) giocatori))
    (if (0 <? List.length giocatori)%nat
     then Math_round (reduce_sum giocatori / INR (List.length giocatori))
     else 0%Z)
    (match giocatori with
     | [] => None
     | g0 :: rest => Some (reduce_max g0 rest)
     end)
    (List.length (filter (fun g => (0 <? Giocatore.partite g)%Z) giocatori)).

(** [nome VARCHAR(100) NOT NULL UNIQUE], read with the comparison
    [createGiocatore] makes: no two rows whose names agree under
    [LOWER]. *)
Definition nomi_unici (LOWER : string -> string) (d : database) : Prop :=
  NoDup (map (fun g => LOWER (Giocatore.nome g)) (giocatori d)).

(** The database after the calls [cs], each with its fault schedule, made
    one after the other on [d]. *)
Definition dopo_tutte (INT_cast : R -> Z) (LOWER : string -> string)
    (NODE_ENV : option string) (cs : list (chiamata * list bool))
    (d : database) : database :=
  fold_left (fun d' cg => dopo INT_cast LOWER NODE_ENV (fst cg) (snd cg) d')
    cs d.

(** ** [utils/validation.js]

    A string of JavaScript is a sequence of UTF-16 code units. *)
Definition js_string : Type := list N.

(** The code units [String.prototype.trim] strips and [\s] matches: the
    white space and the line terminators of ECMAScript. *)
Definition spazio (c : N) : bool :=
  existsb (N.eqb c)
    [ 9; 10; 11; 12; 13; 32; 160; 5760;
      8192; 8193; 8194; 8195; 8196; 8197; 8198; 8199; 8200; 8201; 8202;
      8232; 8233; 8239; 8287; 12288; 65279 ]%N.

Fixpoint trimStart (s : js_string) : js_string :=
  match s with
  | [] => []
  | c :: rest => if spazio c then trimStart rest else s
  end.

Definition trimEnd (s : js_string) : js_string := rev (trimStart (rev s)).

(** [s.trim()] *)
Definition trim (s : js_string) : js_string := trimEnd (trimStart s).

(** The two angle brackets. *)
Definition angolare (c : N) : bool := (c =? 60)%N || (c =? 62)%N.

(** The apostrophe and the double quote. *)
Definition virgoletta (c : N) : bool := (c =? 39)%N || (c =? 34)%N.

(** [s.replace(/[...]/g, '')] for the class [classe]. *)
Definition replace_classe (classe : N -> bool) (s : js_string) : js_string :=
  filter (fun c => negb (classe c)) s.

(** [s.replace(/\s+/g, ' ')]: every maximal run of white space becomes
    one U+0020; [dentro] tells that the code unit before was part of a
    run. *)
Fixpoint replace_spazi (dentro : bool) (s : js_string) : js_string :=
  match s with
  | [] => []
  | c :: rest =>
      if spazio c
      then (if dentro then replace_spazi true rest
            else 32%N :: replace_spazi true rest)
      else c :: replace_spazi false rest
  end.

(** [s.substring(0, n)] *)
Definition substring_0 (n : nat) (s : js_string) : js_string := firstn n s.

(** [sanitizeString(str)]; [None] is an argument that is not a string. *)
Definition sanitizeString (str : option js_string) : js_string :=
  match str with
  | None => []
  | Some s =>
      substring_0 100
        (replace_spazi false
           (replace_classe virgoletta
              (replace_classe angolare (trim s))))
  end.

(** No two neighbours are both white space. *)
Fixpoint spazi_singoli (s : js_string) : bool :=
  match s with
  | c1 :: rest =>
      match rest with
      | c2 :: _ => negb (spazio c1 && spazio c2) && spazi_singoli rest
      | [] => true
      end
  | [] => true
  end.

(** The value of the code unit [c] as a digit in [radix], if it is one. *)
Definition cifra (radix : Z) (c : N) : option Z :=
  let v :=
    if ((48 <=? c) && (c <=? 57))%N then Some (Z.of_N c - 48)%Z
    else if ((97 <=? c) && (c <=? 122))%N then Some (Z.of_N c - 87)%Z
    else if ((65 <=? c) && (c <=? 90))%N then Some (Z.of_N c - 55)%Z
    else None in
  match v with
  | Some d => if (d <? radix)%Z then Some d else None
  | None => None
  end.

(** The number the longest prefix of digits of [s] writes in [radix];
    [acc] is the value read so far, [None] before the first digit. *)
Fixpoint cifre (radix : Z) (acc : option Z) (s : js_string) : option Z :=
  match s with
  | [] => acc
  | c :: rest =>
      match cifra radix c with
      | Some d =>
          cifre radix
            (Some (radix * match acc with Some a => a | None => 0 end + d)%Z)
            rest
      | None => acc
      end
  end.

(** [parseInt(s)] with no radix, on the text of its argument; [None] is
    [NaN].  Leading white space is skipped, a sign (code unit 45 or 43)
    is read, a following 0x or 0X (48 then 120 or 88) selects base 16,
    and the digits that follow are read as far as they go.  The result is the mathematical integer: the rounding to a
    double that follows keeps its order with 0 and with 999999. *)
Definition parseInt (s : js_string) : option Z :=
  let S := trimStart s in
  let '(sign, S1) :=
    match S with
    | c :: r =>
        if (c =? 45)%N then ((-1)%Z, r)
        else if (c =? 43)%N then (1%Z, r)
        else (1%Z, S)
    | [] => (1%Z, S)
    end in
  let '(radix, S2) :=
    match S1 with
    | c1 :: c2 :: r =>
        if ((c1 =? 48) && ((c2 =? 120) || (c2 =? 88)))%N
        then (16%Z, r) else (10%Z, S1)
    | _ => (10%Z, S1)
    end in
  match cifre radix None S2 with
  | None => None
  | Some m => Some (sign * m)%Z
  end.

(** [validateId(id)], on the text [ToString(id)] that [parseInt] reads. *)
Definition validateId (id : js_string) : bool :=
  let numId := parseInt id in
  match numId with
  | None => false
  | Some n => (0 <? n)%Z && (n <=? 999999)%Z
  end.

(** The decimal digits of [n >= 0], most significant first, in front of
    [acc]. *)
Fixpoint cifre_decimali (fuel : nat) (n : Z) (acc : js_string) : js_string :=
  match fuel with
  | O => acc
  | S f =>
      let acc' := Z.to_N (48 + n mod 10) :: acc in
      if (n <? 10)%Z then acc' else cifre_decimali f (n / 10) acc'
  end.

(** [ToString(n)] for a number that is an integer below 2^53 in
    absolute value: its decimal digits, after a minus sign when it is
    negative.  From 2^53 on [ToString] writes the shortest digits that
    read back as the same binary64 number, which are no longer these. *)
Definition Number_toString (n : Z) : js_string :=
  if (n <? 0)%Z
  then 45%N :: cifre_decimali (S (Z.to_nat (Z.log2 (- n)))) (- n) []
  else cifre_decimali (S (Z.to_nat (Z.log2 n))) n [].

(** ** The rating expression in binary64 *)

Module Binary64.
Import PrimFloat.
Local Open Scope float_scope.

(** The number [calcolaELO] hands to [Math.round], computed as the code
    computes it, each operation rounded to binary64; [pow10] stands for
    [y => Math.pow(10, y)].  [Math.round] gives back an infinity or a
    number of size 2^52 or more as it receives it. *)
Definition argomento (pow10 : float -> float)
    (eloA eloB risultato k : float) : float :=
  eloA + k * (risultato - 1 / (1 + pow10 ((eloB - eloA) / 400))).

End Binary64.
(** *** Facts on [Math_round] *)

Lemma Math_round_bounds (x : R) :
  IZR (Math_round x) - / 2 <= x < IZR (Math_round x) + / 2.
Proof.
  unfold Math_round.
  destruct (base_Int_part (x + / 2)) as [Hle Hgt].
  split; lra.
Qed.

Lemma Math_round_unique (x : R) (n : Z) :
  IZR n - / 2 <= x < IZR n + / 2 -> n = Math_round x.
Proof.
  intros [Hlo Hhi]. unfold Math_round.
  apply Int_part_spec. split; lra.
Qed.

Lemma Math_round_IZR (z : Z) : Math_round (IZR z) = z.
Proof.
  symmetry. apply Math_round_unique. split; lra.
Qed.

Lemma Math_round_half (z : Z) : Math_round (IZR z + / 2) = (z + 1)%Z.
Proof.
  symmetry. apply Math_round_unique. rewrite plus_IZR. split; lra.
Qed.

Lemma Math_round_plus_IZR (x : R) (z : Z) :
  Math_round (IZR z + x) = (z + Math_round x)%Z.
Proof.
  symmetry. apply Math_round_unique.
  rewrite plus_IZR.
  destruct (Math_round_bounds x). split; lra.
Qed.






(** *** Facts on [atteso] *)

Lemma Math_pow10_pos (y : R) : 0 < Math_pow10 y.
Proof. unfold Math_pow10, Rpower. apply exp_pos. Qed.

Lemma Math_pow10_0 : Math_pow10 0 = 1.
Proof. unfold Math_pow10. apply Rpower_O. lra. Qed.

Lemma atteso_range (eloA eloB : R) : 0 < atteso eloA eloB < 1.
Proof.
  unfold atteso.
  pose proof (Math_pow10_pos ((eloB - eloA) / 400)) as Hp.
  split.
  - apply Rdiv_lt_0_compat; lra.
  - apply Rmult_lt_reg_r with (1 + Math_pow10 ((eloB - eloA) / 400)); [lra |].
    unfold Rdiv. rewrite Rmult_assoc, Rinv_l; lra.
Qed.

Lemma atteso_equal (r : R) : atteso r r = / 2.
Proof.
  unfold atteso.
  replace ((r - r) / 400) with 0 by lra.
  rewrite Math_pow10_0. lra.
Qed.

(** ** The rating function *)

Lemma calcolaELO_equal (r risultato k : R) :
  calcolaELO r r risultato k = Math_round (r + k * (risultato - / 2)).
Proof. unfold calcolaELO. rewrite atteso_equal. reflexivity. Qed.


(** The same with positive ratings and a positive k: ratings 1 and 1, a
    loss and k = 7 give the unrounded value -5/2 again. *)
Lemma calcolaELO_not_half_away_pos : ~ rounds_half_away 1 1 0 7.
Proof.
  unfold rounds_half_away. rewrite calcolaELO_equal, atteso_equal.
  replace (1 + 7 * (0 - / 2)) with (IZR (-3) + / 2) by lra.
  rewrite Math_round_half.
  unfold round_half_away.
  destruct (Rlt_dec (IZR (-3) + / 2) 0) as [_ | Hn]; [| exfalso; lra].
  replace (- (IZR (-3) + / 2) + / 2) with (IZR 3) by lra.
  replace (Int_part (IZR 3)) with 3%Z.
  - discriminate.
  - apply Int_part_spec. lra.
Qed.





(** With k = 1 the loser of a match at equal ratings 1500 keeps 1500
    ([Math.round(1499.5)] is 1500): the two inequalities need k > 1. *)
Lemma equal_rating_symmetry_fails_k1 : ~ equal_rating_symmetry 1500 1.
Proof.
  unfold equal_rating_symmetry. intros (_ & Hlt & _).
  rewrite calcolaELO_equal in Hlt.
  replace (1500 + 1 * (0 - / 2)) with (IZR 1499 + / 2) in Hlt by lra.
  rewrite Math_round_half in Hlt. simpl in Hlt. lra.
Qed.

(** C4, as stated for every rating, fails at the code's own k = 32: at a
    half-integer rating, which is what [createPartita] passes for a team
    whose ratings sum to an odd number, the gain is not the loss.  At
    1500.5 the winner gains 16.5 and the loser loses 15.5. *)
Lemma equal_rating_symmetry_fails_half : ~ equal_rating_symmetry (3001 / 2) 32.
Proof.
  unfold equal_rating_symmetry. intros (_ & _ & Hsym).
  rewrite !calcolaELO_equal in Hsym.
  replace (3001 / 2 + 32 * (1 - / 2)) with (IZR 1516 + / 2) in Hsym by lra.
  replace (3001 / 2 + 32 * (0 - / 2)) with (IZR 1484 + / 2) in Hsym by lra.
  rewrite !Math_round_half in Hsym. simpl in Hsym. lra.
Qed.

(** Equal integer ratings, any integer k: the winner moves by
    [(k + 1) / 2] and the loser by [(1 - k) / 2], both rounded down. *)
Lemma calcolaELO_equal_win (r k : Z) :
  calcolaELO (IZR r) (IZR r) 1 (IZR k) = (r + (k + 1) / 2)%Z.
Proof.
  rewrite calcolaELO_equal. symmetry. apply Math_round_unique.
  rewrite plus_IZR.
  pose proof (Z.div_mod (k + 1) 2 ltac:(lia)) as Hdm.
  pose proof (Z.mod_pos_bound (k + 1) 2 ltac:(lia)) as Hb.
  assert (Hc : ((k + 1) mod 2 = 0 \/ (k + 1) mod 2 = 1)%Z) by lia.
  assert (Hk : IZR k + 1 = 2 * IZR ((k + 1) / 2) + IZR ((k + 1) mod 2)).
  { rewrite <- mult_IZR, <- !plus_IZR. f_equal. lia. }
  destruct Hc as [Hc | Hc]; rewrite Hc in Hk; split; lra.
Qed.

Lemma calcolaELO_equal_loss (r k : Z) :
  calcolaELO (IZR r) (IZR r) 0 (IZR k) = (r + (1 - k) / 2)%Z.
Proof.
  rewrite calcolaELO_equal. symmetry. apply Math_round_unique.
  rewrite plus_IZR.
  pose proof (Z.div_mod (1 - k) 2 ltac:(lia)) as Hdm.
  pose proof (Z.mod_pos_bound (1 - k) 2 ltac:(lia)) as Hb.
  assert (Hc : ((1 - k) mod 2 = 0 \/ (1 - k) mod 2 = 1)%Z) by lia.
  assert (Hk : 1 - IZR k = 2 * IZR ((1 - k) / 2) + IZR ((1 - k) mod 2)).
  { rewrite <- mult_IZR, <- plus_IZR, <- minus_IZR. f_equal. lia. }
  destruct Hc as [Hc | Hc]; rewrite Hc in Hk; split; lra.
Qed.

(** The two rounded values at equal ratings when twice the rating is
    the integer [m]: a whole [r + k/2] is kept, a half one goes up. *)
Lemma calcolaELO_equal_mezzi (m k : Z) :
  let r := IZR m / 2 in
  (Z.even (m + k) = true ->
   IZR (calcolaELO r r 1 (IZR k)) = r + IZR k / 2
   /\ IZR (calcolaELO r r 0 (IZR k)) = r - IZR k / 2)
  /\ (Z.even (m + k) = false ->
      IZR (calcolaELO r r 1 (IZR k)) = r + IZR k / 2 + / 2
      /\ IZR (calcolaELO r r 0 (IZR k)) = r - IZR k / 2 + / 2).
Proof.
  intros r. subst r. rewrite !calcolaELO_equal. split.
  - intros Hev. apply Z.even_spec in Hev. destruct Hev as [q Hq].
    assert (Hm : IZR m = 2 * IZR q - IZR k).
    { rewrite <- mult_IZR, <- minus_IZR. f_equal. lia. }
    replace (IZR m / 2 + IZR k * (1 - / 2)) with (IZR q) by lra.
    replace (IZR m / 2 + IZR k * (0 - / 2)) with (IZR (q - k))
      by (rewrite minus_IZR; lra).
    rewrite !Math_round_IZR, minus_IZR. split; lra.
  - intros Hodd.
    assert (Ho : Z.odd (m + k) = true).
    { rewrite <- Z.negb_even, Hodd. reflexivity. }
    apply Z.odd_spec in Ho. destruct Ho as [q Hq].
    assert (Hm : IZR m = 2 * IZR q + 1 - IZR k).
    { rewrite <- mult_IZR. change 1 with (IZR 1).
      rewrite <- plus_IZR, <- minus_IZR. f_equal. lia. }
    replace (IZR m / 2 + IZR k * (1 - / 2)) with (IZR q + / 2) by lra.
    replace (IZR m / 2 + IZR k * (0 - / 2)) with (IZR (q - k) + / 2)
      by (rewrite minus_IZR; lra).
    rewrite !Math_round_half, !plus_IZR, minus_IZR. split; lra.
Qed.

(** Whether [r + k/2] is whole, read off the parity. *)
Lemma intero_mezzi (m k : Z) :
  intero (IZR m / 2 + IZR k / 2) <-> Z.even (m + k) = true.
Proof.
  split.
  - intros [z Hz].
    assert (H : IZR (m + k) = IZR (2 * z)).
    { rewrite plus_IZR, mult_IZR. lra. }
    apply eq_IZR in H. apply Z.even_spec. exists z. exact H.
  - intros Hev. apply Z.even_spec in Hev. destruct Hev as [q Hq].
    exists q.
    assert (H : IZR m + IZR k = 2 * IZR q).
    { rewrite <- plus_IZR, <- mult_IZR. f_equal. exact Hq. }
    lra.
Qed.

(** C4, amended: for every rating r and every whole k > 1, sizes adding
    up to at most 2^52, the winner at equal ratings ends above r and the
    loser below r.  When r + k/2 is a whole number the winner gains k/2
    and the loser loses k/2; at any other r that is a whole or a half
    number the winner gains k/2 + 1/2 and the loser loses k/2 - 1/2.  So
    for such r the gain equals the loss exactly when r + k/2 is whole:
    with the code's k = 32 at every whole r and at no half r. *)
Theorem calcolaELO_equal_ratings (r : R) (k : Z) :
  (1 < k)%Z -> Rabs r + IZR k <= 2 ^ 52 ->
  (IZR (calcolaELO r r 1 (IZR k)) > r /\ IZR (calcolaELO r r 0 (IZR k)) < r)
  /\ (intero (r + IZR k / 2) ->
      IZR (calcolaELO r r 1 (IZR k)) - r = IZR k / 2
      /\ r - IZR (calcolaELO r r 0 (IZR k)) = IZR k / 2)
  /\ (intero (2 * r) -> ~ intero (r + IZR k / 2) ->
      IZR (calcolaELO r r 1 (IZR k)) - r = IZR k / 2 + / 2
      /\ r - IZR (calcolaELO r r 0 (IZR k)) = IZR k / 2 - / 2)
  /\ (intero (2 * r) ->
      (IZR (calcolaELO r r 1 (IZR k)) - r
       = r - IZR (calcolaELO r r 0 (IZR k))
       <-> intero (r + IZR k / 2))).
Proof.
  intros Hk _.
  assert (HkR : 2 <= IZR k) by (apply IZR_le; lia).
  split; [| split; [| split]].
  - rewrite !calcolaELO_equal.
    destruct (Math_round_bounds (r + IZR k * (1 - / 2))) as [_ Hw].
    destruct (Math_round_bounds (r + IZR k * (0 - / 2))) as [Hl _].
    split; lra.
  - intros [z Hz]. rewrite !calcolaELO_equal.
    replace (r + IZR k * (1 - / 2)) with (IZR z) by lra.
    replace (r + IZR k * (0 - / 2)) with (IZR (z - k))
      by (rewrite minus_IZR; lra).
    rewrite !Math_round_IZR, minus_IZR. split; lra.
  - intros [m Hm] Hni.
    replace r with (IZR m / 2) in * by lra.
    destruct (calcolaELO_equal_mezzi m k) as [_ Hodd].
    destruct (Z.even (m + k)) eqn:Hev.
    + exfalso. apply Hni. apply intero_mezzi. exact Hev.
    + destruct (Hodd eq_refl) as [Hw Hl]. rewrite Hw, Hl. split; lra.
  - intros [m Hm].
    replace r with (IZR m / 2) in * by lra.
    destruct (calcolaELO_equal_mezzi m k) as [Heven Hodd].
    rewrite intero_mezzi.
    destruct (Z.even (m + k)) eqn:Hev.
    + destruct (Heven eq_refl) as [Hw Hl]. rewrite Hw, Hl.
      split; [reflexivity | intros _; lra].
    + destruct (Hodd eq_refl) as [Hw Hl]. rewrite Hw, Hl.
      split; [intros H; exfalso; lra | discriminate].
Qed.

Lemma calcolaELO_equal_ratings_witness :
  (IZR (calcolaELO 1500 1500 1 (IZR 32)) > 1500
   /\ IZR (calcolaELO 1500 1500 0 (IZR 32)) < 1500)
  /\ (IZR (calcolaELO 1500 1500 1 (IZR 32)) - 1500 = IZR 32 / 2
      /\ 1500 - IZR (calcolaELO 1500 1500 0 (IZR 32)) = IZR 32 / 2)
  /\ (IZR (calcolaELO (3001 / 2) (3001 / 2) 1 (IZR 32)) - 3001 / 2
      = IZR 32 / 2 + / 2
      /\ 3001 / 2 - IZR (calcolaELO (3001 / 2) (3001 / 2) 0 (IZR 32))
         = IZR 32 / 2 - / 2).
Proof.
  assert (Hsize : forall x, 0 <= x <= 2000 -> Rabs x + IZR 32 <= 2 ^ 52).
  { intros x Hx. rewrite Rabs_pos_eq by lra.
    apply Rle_trans with (2 ^ 12); [simpl; lra |].
    apply Rle_pow; [lra | lia]. }
  destruct (calcolaELO_equal_ratings 1500 32 ltac:(lia)
              (Hsize 1500 ltac:(lra))) as (H1 & H2 & _).
  destruct (calcolaELO_equal_ratings (3001 / 2) 32 ltac:(lia)
              (Hsize (3001 / 2) ltac:(lra))) as (_ & _ & H3 & _).
  split; [exact H1 |]. split.
  - apply H2. exists 1516%Z. lra.
  - apply H3.
    + exists 3001%Z. lra.
    + intros [z Hz].
      assert (H : IZR (2 * z) = IZR 3033).
      { rewrite mult_IZR. lra. }
      apply eq_IZR in H. lia.
Defined.

(** ** Where binary64 leaves the exact arithmetic

    [Math.pow(10, 0)] is 1, which is all these evaluations use of it. *)

Module Binary64_esempi.
Import PrimFloat.
Local Open Scope float_scope.

(** At equal ratings of 1.5 * 2^1023 with k = 2^1023 the sum is past the
    largest binary64 number. *)
Lemma argomento_overflow (pow10 : float -> float) :
  pow10 0 = 1 ->
  Binary64.argomento pow10 0x1.8p+1023 0x1.8p+1023 1 0x1p+1023 = infinity.
Proof.
  intros H. unfold Binary64.argomento.
  change ((0x1.8p+1023 - 0x1.8p+1023) / 400) with 0.
  rewrite H. reflexivity.
Qed.

(** At equal ratings of 2^57 the 16 points of a win with k = 32 are
    below half the distance to the next binary64 number and are lost. *)
Lemma argomento_assorbito (pow10 : float -> float) :
  pow10 0 = 1 ->
  Binary64.argomento pow10 0x1p+57 0x1p+57 1 32 = 0x1p+57.
Proof.
  intros H. unfold Binary64.argomento.
  change ((0x1p+57 - 0x1p+57) / 400) with 0.
  rewrite H. reflexivity.
Qed.

(** At equal ratings of 2^20 a loss with a k just above 1, the next
    binary64 number after it, leaves 2^20 - 1/2, which [Math.round]
    takes back up to 2^20: below k = 2 the loser is not sure to end
    lower. *)
Lemma argomento_k_frazionario (pow10 : float -> float) :
  pow10 0 = 1 ->
  Binary64.argomento pow10 0x1p+20 0x1p+20 0 0x1.0000000000001p+0
  = 1048575.5.
Proof.
  intros H. unfold Binary64.argomento.
  change ((0x1p+20 - 0x1p+20) / 400) with 0.
  rewrite H. reflexivity.
Qed.

End Binary64_esempi.

(** *** Rational bounds on [Math.pow(10, y)]

    For a rational [y = - k / n] the value [t] of [Math.pow(10, y)] is the
    positive real with [t ^ n = 10 ^ (- k)]; comparing n-th powers, which
    is a comparison of integers, bounds [t] by a fraction. *)

Lemma Math_pow10_pow (y : R) (n k : Z) :
  (0 <= n)%Z -> (0 <= k)%Z -> y * IZR n = - IZR k ->
  Math_pow10 y ^ Z.to_nat n * IZR (10 ^ k) = 1.
Proof.
  intros Hn Hk Hy.
  pose proof (Math_pow10_pos y) as Hpos.
  rewrite <- Rpower_pow by exact Hpos.
  unfold Math_pow10 at 1. rewrite Rpower_mult.
  rewrite INR_IZR_INZ, Z2Nat.id by exact Hn.
  rewrite Hy, Rpower_Ropp.
  replace (IZR k) with (INR (Z.to_nat k))
    by (rewrite INR_IZR_INZ, Z2Nat.id by exact Hk; reflexivity).
  rewrite Rpower_pow by lra.
  replace (IZR (10 ^ k)) with (10 ^ Z.to_nat k).
  - apply Rinv_l. apply pow_nonzero. lra.
  - rewrite pow_IZR, Z2Nat.id by exact Hk. reflexivity.
Qed.

Lemma Math_pow10_gt (y : R) (a b n k : Z) :
  (0 <= a)%Z -> (0 < b)%Z -> (0 <= n)%Z -> (0 <= k)%Z ->
  y * IZR n = - IZR k ->
  (a ^ n * 10 ^ k < b ^ n)%Z ->
  IZR a / IZR b < Math_pow10 y.
Proof.
  intros Ha Hb Hn Hk Hy Hlt.
  pose proof (Math_pow10_pos y) as Hpos.
  pose proof (Math_pow10_pow y n k Hn Hk Hy) as Hpow.
  assert (Hb' : 0 < IZR b) by (apply IZR_lt; exact Hb).
  assert (Ha' : 0 <= IZR a) by (apply IZR_le; exact Ha).
  destruct (Rlt_le_dec (IZR a / IZR b) (Math_pow10 y)) as [Hok | Hle];
    [exact Hok | exfalso].
  assert (Hle' : IZR b * Math_pow10 y <= IZR a).
  { apply Rmult_le_compat_l with (r := IZR b) in Hle; [| lra].
    replace (IZR b * (IZR a / IZR b)) with (IZR a) in Hle by (field; lra).
    exact Hle. }
  assert (Hp : (IZR b * Math_pow10 y) ^ Z.to_nat n <= IZR a ^ Z.to_nat n).
  { apply pow_incr. split; [| exact Hle'].
    apply Rmult_le_pos; lra. }
  rewrite Rpow_mult_distr, !pow_IZR, Z2Nat.id in Hp by exact Hn.
  assert (H10 : 0 < IZR (10 ^ k)).
  { apply IZR_lt. apply Z.pow_pos_nonneg; lia. }
  apply Rmult_le_compat_r with (r := IZR (10 ^ k)) in Hp; [| lra].
  rewrite Rmult_assoc, Hpow, Rmult_1_r, <- mult_IZR in Hp.
  apply le_IZR in Hp. lia.
Qed.

Lemma Math_pow10_lt (y : R) (a b n k : Z) :
  (0 <= a)%Z -> (0 < b)%Z -> (0 <= n)%Z -> (0 <= k)%Z ->
  y * IZR n = - IZR k ->
  (b ^ n < a ^ n * 10 ^ k)%Z ->
  Math_pow10 y < IZR a / IZR b.
Proof.
  intros Ha Hb Hn Hk Hy Hlt.
  pose proof (Math_pow10_pos y) as Hpos.
  pose proof (Math_pow10_pow y n k Hn Hk Hy) as Hpow.
  assert (Hb' : 0 < IZR b) by (apply IZR_lt; exact Hb).
  assert (Ha' : 0 <= IZR a) by (apply IZR_le; exact Ha).
  destruct (Rlt_le_dec (Math_pow10 y) (IZR a / IZR b)) as [Hok | Hle];
    [exact Hok | exfalso].
  assert (Hle' : IZR a <= IZR b * Math_pow10 y).
  { apply Rmult_le_compat_l with (r := IZR b) in Hle; [| lra].
    replace (IZR b * (IZR a / IZR b)) with (IZR a) in Hle by (field; lra).
    exact Hle. }
  assert (Hp : IZR a ^ Z.to_nat n <= (IZR b * Math_pow10 y) ^ Z.to_nat n).
  { apply pow_incr. split; [exact Ha' | exact Hle']. }
  rewrite Rpow_mult_distr, !pow_IZR, Z2Nat.id in Hp by exact Hn.
  assert (H10 : 0 < IZR (10 ^ k)).
  { apply IZR_lt. apply Z.pow_pos_nonneg; lia. }
  apply Rmult_le_compat_r with (r := IZR (10 ^ k)) in Hp; [| lra].
  rewrite Rmult_assoc, Hpow, Rmult_1_r, <- mult_IZR in Hp.
  apply le_IZR in Hp. lia.
Qed.

Lemma Math_pow10_opp (y : R) : Math_pow10 (- y) = / Math_pow10 y.
Proof. unfold Math_pow10. apply Rpower_Ropp. Qed.

(** The expected score between bounds on the power. *)
Lemma atteso_tra (eloA eloB lo hi : R) :
  0 < lo ->
  lo < Math_pow10 ((eloB - eloA) / 400) < hi ->
  / (1 + hi) < atteso eloA eloB < / (1 + lo).
Proof.
  intros Hlo [H1 H2]. unfold atteso. unfold Rdiv. rewrite Rmult_1_l.
  split; apply Rinv_0_lt_contravar; lra.
Qed.

(** ** Running the driver *)

Lemma driver_cases {A} (f : database -> A * database) (w : mondo) :
  (exists rest,
     driver f w = (Throw DriverError, mkMondo (db w) rest (transazione w)))
  \/ (exists rest,
        driver f w
        = (Ok (fst (f (db w))),
           mkMondo (snd (f (db w))) rest (transazione w))).
Proof.
  unfold driver.
  destruct (guasti w) as [| [|] rest].
  - right. exists []. destruct (f (db w)); reflexivity.
  - left. exists rest. reflexivity.
  - right. exists rest. destruct (f (db w)); reflexivity.
Qed.

Lemma driver_senza_guasti {A} (f : database -> A * database) d t :
  driver f (mkMondo d [] t)
  = (Ok (fst (f d)), mkMondo (snd (f d)) [] t).
Proof. unfold driver. cbn. destruct (f d); reflexivity. Qed.

Lemma database_eta (d : database) :
  mkDb (giocatori d) (partite d) (auto_giocatori d) (auto_partite d) = d.
Proof. destruct d; reflexivity. Qed.

(** ** Running [createPartita] *)

Section Esecuzione.

Variable INT_cast : R -> Z.

Local Abbreviation update := (fun d' a => update_giocatore INT_cast a d').

Lemma update_auto_giocatori (l : list aggiornamento) (d : database) :
  auto_giocatori (fold_left update l d) = auto_giocatori d.
Proof.
  revert d. induction l as [| a l IH]; intros d; [reflexivity |].
  cbn [fold_left]. rewrite IH. reflexivity.
Qed.

Lemma update_auto_partite (l : list aggiornamento) (d : database) :
  auto_partite (fold_left update l d) = auto_partite d.
Proof.
  revert d. induction l as [| a l IH]; intros d; [reflexivity |].
  cbn [fold_left]. rewrite IH. reflexivity.
Qed.

Lemma update_partite (l : list aggiornamento) (d : database) :
  partite (fold_left update l d) = partite d.
Proof.
  revert d. induction l as [| a l IH]; intros d; [reflexivity |].
  cbn [fold_left]. rewrite IH. reflexivity.
Qed.

Ltac caso_driver E :=
  match type of E with
  | context [driver ?f ?w] =>
      let H := fresh "H" in
      destruct (driver_cases f w) as [[? H] | [? H]];
      rewrite H in E; clear H;
      cbn [fst snd db guasti transazione annulla ripristina] in E
  end.

Ltac fallita E :=
  injection E as <- <-; left;
  cbn [giocatori partite auto_giocatori];
  eexists; repeat split; try reflexivity; auto.

(** Every run of [createPartita], whatever the driver does: either it
    throws, and then the rows of both tables are the ones before the
    call, or the fetch returned four rows and the database is the one
    the four updates and the insert produce. *)
Lemma createPartita_run (squadra1 squadra2 : Z * Z) (vincitore : Z)
    (g : list bool) (d : database) (res : esito esito_partita)
    (d' : database) :
  let rows := select_elo (tutti squadra1 squadra2) d in
  let p := calcola_piano rows squadra1 squadra2 vincitore in
  esegui (createPartita INT_cast squadra1 squadra2 vincitore) g d
  = (res, d') ->
  (exists e, res = Throw e
             /\ (e = DriverError
                 \/ e = UnknownPlayer /\ List.length rows <> 4%nat)
             /\ giocatori d' = giocatori d
             /\ partite d' = partite d
             /\ auto_giocatori d' = auto_giocatori d)
  \/ (List.length rows = 4%nat
      /\ res = Ok (mkEsito (auto_partite d) squadra1 squadra2 vincitore
                     (deltaElo1 p) (deltaElo2 p))
      /\ d' = scrivi INT_cast rows squadra1 squadra2 vincitore d).
Proof.
  intros rows p E.
  unfold esegui, createPartita in E. cbn [for_of] in E.
  unfold createConnection, beginTransaction, commit, rollback,
    connection_end, execute_select_elo, execute_insert_partita,
    execute_update, bind, try_catch, try_finally, throw, ret in E.
  cbv zeta in E.
  caso_driver E.
  { fallita E. }
  caso_driver E.
  { caso_driver E; fallita E. }
  caso_driver E.
  { caso_driver E; fallita E. }
  fold (tutti squadra1 squadra2) in E. fold rows in E.
  destruct (List.length rows =? 4)%nat eqn:Hlen; cbn [negb] in E.
  2:{ apply Nat.eqb_neq in Hlen. caso_driver E; fallita E. }
  apply Nat.eqb_eq in Hlen.
  do 6 (caso_driver E; [caso_driver E; fallita E |]).
  injection E as <- <-. right.
  split; [assumption |]. split; reflexivity.
Qed.

Ltac avanti :=
  repeat (rewrite driver_senza_guasti;
          cbn [fst snd db guasti transazione annulla ripristina]).

(** The run in which the driver never throws. *)
Lemma createPartita_senza_guasti (squadra1 squadra2 : Z * Z) (vincitore : Z)
    (d : database) :
  let rows := select_elo (tutti squadra1 squadra2) d in
  let p := calcola_piano rows squadra1 squadra2 vincitore in
  esegui (createPartita INT_cast squadra1 squadra2 vincitore) [] d
  = if (List.length rows =? 4)%nat
    then (Ok (mkEsito (auto_partite d) squadra1 squadra2 vincitore
                (deltaElo1 p) (deltaElo2 p)),
          scrivi INT_cast rows squadra1 squadra2 vincitore d)
    else (Throw UnknownPlayer, d).
Proof.
  intros rows p.
  unfold esegui, createPartita. cbn [for_of].
  unfold createConnection, beginTransaction, commit, rollback,
    connection_end, execute_select_elo, execute_insert_partita,
    execute_update, bind, try_catch, try_finally, throw, ret.
  cbv zeta.
  avanti.
  fold (tutti squadra1 squadra2). fold rows.
  destruct (List.length rows =? 4)%nat eqn:Hlen; cbn [negb].
  - avanti. reflexivity.
  - avanti. unfold ripristina. cbn [fst snd]. rewrite database_eta. reflexivity.
Qed.

End Esecuzione.

(** ** The fetch *)

Lemma mem_ids (i : Z) (ids : list Z) :
  existsb (Z.eqb i) ids = true <-> In i ids.
Proof.
  rewrite existsb_exists. split.
  - intros [x [Hin Heq]]. apply Z.eqb_eq in Heq. subst x. exact Hin.
  - intros Hin. exists i. split; [exact Hin | apply Z.eqb_refl].
Qed.

Lemma select_elo_ids (ids : list Z) (d : database) :
  map fst (select_elo ids d)
  = filter (fun i => existsb (Z.eqb i) ids)
           (map Giocatore.id (giocatori d)).
Proof.
  unfold select_elo.
  induction (giocatori d) as [| g l IH]; [reflexivity |].
  cbn [filter map].
  destruct (existsb (Z.eqb (Giocatore.id g)) ids); cbn [map fst];
    rewrite IH; reflexivity.
Qed.

Lemma select_elo_In (ids : list Z) (d : database) (i : Z) :
  In i (map fst (select_elo ids d)) <-> In i ids /\ esiste i d.
Proof.
  rewrite select_elo_ids, filter_In, mem_ids. unfold esiste. tauto.
Qed.

Lemma select_elo_NoDup (ids : list Z) (d : database) :
  primary_key d -> NoDup (map fst (select_elo ids d)).
Proof.
  intros [Hnd _]. rewrite select_elo_ids. apply NoDup_filter. exact Hnd.
Qed.

Lemma select_elo_length (ids : list Z) (d : database) :
  List.length (select_elo ids d) = List.length (map fst (select_elo ids d)).
Proof. symmetry. apply length_map. Qed.

(** The fetch returns as many rows as identifiers were bound exactly when
    the identifiers are pairwise distinct and each is the id of a row. *)
Lemma select_elo_tutti (ids : list Z) (d : database) :
  primary_key d ->
  (List.length (select_elo ids d) = List.length ids
   <-> NoDup ids /\ Forall (fun i => esiste i d) ids).
Proof.
  intros Hpk. rewrite select_elo_length.
  pose proof (select_elo_NoDup ids d Hpk) as Hnd.
  assert (Hincl : incl (map fst (select_elo ids d)) ids).
  { intros i Hi. apply select_elo_In in Hi. tauto. }
  split.
  - intros Hlen.
    assert (Hback : incl ids (map fst (select_elo ids d))).
    { apply NoDup_length_incl; [exact Hnd | lia | exact Hincl]. }
    split.
    + apply NoDup_incl_NoDup with (l := map fst (select_elo ids d));
        [exact Hnd | lia | exact Hincl].
    + apply Forall_forall. intros i Hi.
      apply Hback, select_elo_In in Hi. tauto.
  - intros [Hids Hall].
    assert (Hback : incl ids (map fst (select_elo ids d))).
    { intros i Hi. apply select_elo_In. split; [exact Hi |].
      rewrite Forall_forall in Hall. apply Hall. exact Hi. }
    apply Nat.le_antisymm.
    + apply NoDup_incl_length; assumption.
    + apply NoDup_incl_length; assumption.
Qed.

(** ** [eloMap] *)

Lemma fold_eloMap_notin (rows : list (Z * Z)) (m : Z -> option Z) (i : Z) :
  ~ In i (map fst rows) ->
  fold_left
    (fun (m : Z -> option Z) (g : Z * Z) =>
       fun i => if (i =? fst g)%Z then Some (snd g) else m i)
    rows m i = m i.
Proof.
  revert m. induction rows as [| g rows IH]; intros m Hni; [reflexivity |].
  cbn [fold_left]. rewrite IH.
  - destruct (Z.eqb_spec i (fst g)) as [Heq | _]; [| reflexivity].
    exfalso. apply Hni. left. symmetry. exact Heq.
  - intros Hin. apply Hni. right. exact Hin.
Qed.

Lemma fold_eloMap_in (rows : list (Z * Z)) (m : Z -> option Z) (i e : Z) :
  NoDup (map fst rows) -> In (i, e) rows ->
  fold_left
    (fun (m : Z -> option Z) (g : Z * Z) =>
       fun i => if (i =? fst g)%Z then Some (snd g) else m i)
    rows m i = Some e.
Proof.
  revert m. induction rows as [| g rows IH]; intros m Hnd Hin; [contradiction |].
  cbn [fold_left]. cbn [map] in Hnd.
  apply NoDup_cons_iff in Hnd. destruct Hnd as [Hni Hnd].
  destruct Hin as [Heq | Hin].
  - subst g. cbn [fst snd] in *.
    rewrite fold_eloMap_notin by exact Hni.
    rewrite Z.eqb_refl. reflexivity.
  - apply IH; assumption.
Qed.

Lemma riga_Some (i : Z) (d : database) (g : Giocatore.t) :
  riga i d = Some g -> In g (giocatori d) /\ Giocatore.id g = i.
Proof.
  unfold riga. intros H. apply find_some in H.
  destruct H as [Hin Heq]. apply Z.eqb_eq in Heq. tauto.
Qed.

Lemma esiste_riga (i : Z) (d : database) :
  esiste i d <-> exists g, riga i d = Some g.
Proof.
  unfold esiste, riga. split.
  - intros Hin. apply in_map_iff in Hin. destruct Hin as [g [Hid Hin]].
    destruct (find (fun g0 => (Giocatore.id g0 =? i)%Z) (giocatori d))
      as [g' |] eqn:Hf.
    + exists g'. reflexivity.
    + exfalso. pose proof (find_none _ _ Hf g Hin) as Hne.
      cbv beta in Hne. apply Z.eqb_neq in Hne. contradiction.
  - intros [g Hg]. apply find_some in Hg. destruct Hg as [Hin Heq].
    apply Z.eqb_eq in Heq. apply in_map_iff. exists g. tauto.
Qed.

(** After the four-row check every key the code reads is in [eloMap],
    with the rating of the player's row. *)
Lemma eloMap_presente (ids : list Z) (d : database) (i : Z) (g : Giocatore.t) :
  primary_key d -> In i ids -> riga i d = Some g ->
  crea_eloMap (select_elo ids d) i = Some (Giocatore.elo g).
Proof.
  intros Hpk Hi Hg. unfold crea_eloMap.
  apply fold_eloMap_in; [apply select_elo_NoDup; exact Hpk |].
  apply riga_Some in Hg. destruct Hg as [Hin Hid].
  unfold select_elo. apply in_map_iff. exists g. split.
  - rewrite Hid. reflexivity.
  - apply filter_In. split; [exact Hin |].
    rewrite Hid. apply mem_ids. exact Hi.
Qed.

Lemma find_app {A} (f : A -> bool) (l l' : list A) :
  find f (l ++ l')
  = match find f l with Some x => Some x | None => find f l' end.
Proof.
  induction l as [| x l IH]; [reflexivity |].
  cbn [app find]. destruct (f x); [reflexivity | exact IH].
Qed.

(** ** The writes *)

Section Scritture.

Variable INT_cast : R -> Z.

Local Abbreviation update := (fun d' a => update_giocatore INT_cast a d').

Lemma update_riga_id (a : aggiornamento) (g : Giocatore.t) :
  Giocatore.id (update_riga INT_cast a g) = Giocatore.id g.
Proof.
  unfold update_riga, UPDATE_riga.
  destruct (Giocatore.id g =? giocatoreId a)%Z; reflexivity.
Qed.

Lemma update_riga_altro (a : aggiornamento) (g : Giocatore.t) :
  Giocatore.id g <> giocatoreId a -> update_riga INT_cast a g = g.
Proof.
  intros Hne. unfold update_riga, UPDATE_riga.
  destruct (Z.eqb_spec (Giocatore.id g) (giocatoreId a)); [contradiction |].
  reflexivity.
Qed.

Lemma update_riga_stesso (a : aggiornamento) (g : Giocatore.t) :
  Giocatore.id g = giocatoreId a ->
  update_riga INT_cast a g
  = Giocatore.mk (Giocatore.id g) (Giocatore.nome g) (Giocatore.ruolo g)
      (INT_cast (nuovoElo a))
      (Giocatore.partite g + 1)
      (Giocatore.vittorie g + isVincitore a)
      (Giocatore.sconfitte g + (1 - isVincitore a)).
Proof.
  intros Heq. unfold update_riga, UPDATE_riga.
  rewrite (proj2 (Z.eqb_eq _ _) Heq). reflexivity.
Qed.

Lemma aggiorna_riga_id (l : list aggiornamento) (g : Giocatore.t) :
  Giocatore.id (aggiorna_riga INT_cast l g) = Giocatore.id g.
Proof.
  unfold aggiorna_riga. revert g.
  induction l as [| a l IH]; intros g; [reflexivity |].
  cbn [fold_left]. rewrite IH. apply update_riga_id.
Qed.

Lemma aggiorna_riga_altro (l : list aggiornamento) (g : Giocatore.t) :
  ~ In (Giocatore.id g) (map giocatoreId l) ->
  aggiorna_riga INT_cast l g = g.
Proof.
  unfold aggiorna_riga. revert g.
  induction l as [| a l IH]; intros g Hni; [reflexivity |].
  cbn [fold_left]. cbn [map] in Hni.
  rewrite update_riga_altro by (intros Heq; apply Hni; left; congruence).
  apply IH. intros Hin. apply Hni. right. exact Hin.
Qed.

(** With pairwise distinct identifiers each row is written by its own
    [UPDATE] and by no other. *)
Lemma aggiorna_riga_una (l : list aggiornamento) (a : aggiornamento)
    (g : Giocatore.t) :
  NoDup (map giocatoreId l) -> In a l ->
  Giocatore.id g = giocatoreId a ->
  aggiorna_riga INT_cast l g = update_riga INT_cast a g.
Proof.
  revert g. induction l as [| b l IH]; intros g Hnd Hin Hid; [contradiction |].
  cbn [map] in Hnd. apply NoDup_cons_iff in Hnd. destruct Hnd as [Hni Hnd].
  change (aggiorna_riga INT_cast (b :: l) g)
    with (aggiorna_riga INT_cast l (update_riga INT_cast b g)).
  destruct Hin as [Heq | Hin].
  - subst b. apply aggiorna_riga_altro.
    rewrite update_riga_id, Hid. exact Hni.
  - rewrite (update_riga_altro b g).
    + apply IH; assumption.
    + rewrite Hid. intros Heq. apply Hni. rewrite <- Heq.
      apply in_map. exact Hin.
Qed.

Lemma find_map_id (u : Giocatore.t -> Giocatore.t) (i : Z)
    (l : list Giocatore.t) :
  (forall g, Giocatore.id (u g) = Giocatore.id g) ->
  find (fun g => (Giocatore.id g =? i)%Z) (map u l)
  = option_map u (find (fun g => (Giocatore.id g =? i)%Z) l).
Proof.
  intros Hu. induction l as [| g l IH]; [reflexivity |].
  cbn [map find]. rewrite Hu.
  destruct (Giocatore.id g =? i)%Z; [reflexivity | exact IH].
Qed.

Lemma riga_update (a : aggiornamento) (i : Z) (d : database) :
  riga i (update_giocatore INT_cast a d)
  = option_map (update_riga INT_cast a) (riga i d).
Proof.
  unfold riga, update_giocatore, UPDATE_giocatori. cbn [giocatori].
  apply find_map_id. apply update_riga_id.
Qed.

Lemma riga_fold (l : list aggiornamento) (i : Z) (d : database) :
  riga i (fold_left update l d)
  = option_map (aggiorna_riga INT_cast l) (riga i d).
Proof.
  revert d. induction l as [| a l IH]; intros d.
  - cbn [fold_left]. destruct (riga i d); reflexivity.
  - cbn [fold_left]. rewrite IH, riga_update.
    destruct (riga i d); reflexivity.
Qed.

Lemma giocatori_fold (l : list aggiornamento) (d : database) :
  giocatori (fold_left update l d)
  = map (aggiorna_riga INT_cast l) (giocatori d).
Proof.
  revert d. induction l as [| a l IH]; intros d.
  - cbn [fold_left]. unfold aggiorna_riga. cbn [fold_left].
    symmetry. apply map_id.
  - cbn [fold_left]. rewrite IH. unfold update_giocatore, UPDATE_giocatori. cbn [giocatori].
    rewrite map_map. reflexivity.
Qed.

(** The shape of what [createPartita] binds to its four [UPDATE]s. *)
Lemma aggiornamenti_piano (rows : list (Z * Z)) (squadra1 squadra2 : Z * Z)
    (vincitore : Z) :
  let p := calcola_piano rows squadra1 squadra2 vincitore in
  let eloMap := crea_eloMap rows in
  aggiornamenti p
  = [ mkAgg (numero (eloMap (fst squadra1)) + deltaElo1 p)
            (flag vincitore 1) (fst squadra1);
      mkAgg (numero (eloMap (snd squadra1)) + deltaElo1 p)
            (flag vincitore 1) (snd squadra1);
      mkAgg (numero (eloMap (fst squadra2)) + deltaElo2 p)
            (flag vincitore 2) (fst squadra2);
      mkAgg (numero (eloMap (snd squadra2)) + deltaElo2 p)
            (flag vincitore 2) (snd squadra2) ].
Proof. reflexivity. Qed.

Lemma aggiornamenti_ids (rows : list (Z * Z)) (squadra1 squadra2 : Z * Z)
    (vincitore : Z) :
  map giocatoreId
      (aggiornamenti (calcola_piano rows squadra1 squadra2 vincitore))
  = tutti squadra1 squadra2.
Proof. reflexivity. Qed.

Lemma flag_01 (vincitore n : Z) :
  flag vincitore n = 0%Z \/ flag vincitore n = 1%Z.
Proof. unfold flag. destruct (vincitore =? n)%Z; auto. Qed.

Lemma aggiornamenti_flag (rows : list (Z * Z)) (squadra1 squadra2 : Z * Z)
    (vincitore : Z) :
  Forall (fun a => isVincitore a = 0%Z \/ isVincitore a = 1%Z)
    (aggiornamenti (calcola_piano rows squadra1 squadra2 vincitore)).
Proof.
  rewrite aggiornamenti_piano.
  repeat (apply Forall_cons; [cbn [isVincitore]; apply flag_01 |]).
  apply Forall_nil.
Qed.

(** *** What the writes do to a row *)

Lemma scrivi_giocatori (rows : list (Z * Z)) (squadra1 squadra2 : Z * Z)
    (vincitore : Z) (d : database) :
  giocatori (scrivi INT_cast rows squadra1 squadra2 vincitore d)
  = map (aggiorna_riga INT_cast
           (aggiornamenti (calcola_piano rows squadra1 squadra2 vincitore)))
        (giocatori d).
Proof. unfold scrivi. cbn [insert_partita snd giocatori]. apply giocatori_fold. Qed.

Lemma scrivi_partite (rows : list (Z * Z)) (squadra1 squadra2 : Z * Z)
    (vincitore : Z) (d : database) :
  partite (scrivi INT_cast rows squadra1 squadra2 vincitore d)
  = partite d ++ [Partita.mk (auto_partite d) squadra1 squadra2 vincitore].
Proof.
  unfold scrivi. cbn [insert_partita snd partite].
  rewrite update_partite, update_auto_partite. reflexivity.
Qed.

Lemma scrivi_auto_giocatori (rows : list (Z * Z)) (squadra1 squadra2 : Z * Z)
    (vincitore : Z) (d : database) :
  auto_giocatori (scrivi INT_cast rows squadra1 squadra2 vincitore d)
  = auto_giocatori d.
Proof.
  unfold scrivi. cbn [insert_partita snd auto_giocatori].
  apply update_auto_giocatori.
Qed.

Lemma scrivi_riga (rows : list (Z * Z)) (squadra1 squadra2 : Z * Z)
    (vincitore : Z) (d : database) (i : Z) :
  riga i (scrivi INT_cast rows squadra1 squadra2 vincitore d)
  = option_map
      (aggiorna_riga INT_cast
         (aggiornamenti (calcola_piano rows squadra1 squadra2 vincitore)))
      (riga i d).
Proof.
  unfold riga at 1. rewrite scrivi_giocatori.
  apply find_map_id. apply aggiorna_riga_id.
Qed.

(** A participant's row after a recorded match. *)
Lemma scrivi_partecipante (rows : list (Z * Z)) (squadra1 squadra2 : Z * Z)
    (vincitore : Z) (d : database) (a : aggiornamento) (g : Giocatore.t) :
  NoDup (tutti squadra1 squadra2) ->
  In a (aggiornamenti (calcola_piano rows squadra1 squadra2 vincitore)) ->
  riga (giocatoreId a) d = Some g ->
  riga (giocatoreId a) (scrivi INT_cast rows squadra1 squadra2 vincitore d)
  = Some (Giocatore.mk (Giocatore.id g) (Giocatore.nome g) (Giocatore.ruolo g)
            (INT_cast (nuovoElo a))
            (Giocatore.partite g + 1)
            (Giocatore.vittorie g + isVincitore a)
            (Giocatore.sconfitte g + (1 - isVincitore a))).
Proof.
  intros Hnd Hin Hg. rewrite scrivi_riga, Hg. cbn [option_map].
  apply riga_Some in Hg. destruct Hg as [_ Hid].
  rewrite (aggiorna_riga_una _ a g);
    [| rewrite aggiornamenti_ids; exact Hnd | exact Hin | exact Hid].
  rewrite update_riga_stesso by exact Hid. reflexivity.
Qed.

(** The row of anyone else is left alone. *)
Lemma scrivi_estraneo (rows : list (Z * Z)) (squadra1 squadra2 : Z * Z)
    (vincitore : Z) (d : database) (i : Z) :
  ~ In i (tutti squadra1 squadra2) ->
  riga i (scrivi INT_cast rows squadra1 squadra2 vincitore d) = riga i d.
Proof.
  intros Hni. rewrite scrivi_riga.
  destruct (riga i d) as [g |] eqn:Hg; [| reflexivity].
  cbn [option_map]. f_equal. apply aggiorna_riga_altro.
  rewrite aggiornamenti_ids.
  apply riga_Some in Hg. destruct Hg as [_ Hid]. rewrite Hid. exact Hni.
Qed.

(** *** Counters *)

Lemma update_riga_contatori (a : aggiornamento) (g : Giocatore.t) :
  isVincitore a = 0%Z \/ isVincitore a = 1%Z ->
  (contatori_ok g -> contatori_ok (update_riga INT_cast a g))
  /\ contatori_le g (update_riga INT_cast a g).
Proof.
  intros Hf. unfold update_riga, UPDATE_riga, contatori_ok, contatori_le.
  destruct (Giocatore.id g =? giocatoreId a)%Z;
    cbn [Giocatore.partite Giocatore.vittorie Giocatore.sconfitte]; lia.
Qed.

Lemma aggiorna_riga_contatori (l : list aggiornamento) (g : Giocatore.t) :
  Forall (fun a => isVincitore a = 0%Z \/ isVincitore a = 1%Z) l ->
  (contatori_ok g -> contatori_ok (aggiorna_riga INT_cast l g))
  /\ contatori_le g (aggiorna_riga INT_cast l g).
Proof.
  unfold aggiorna_riga. revert g.
  induction l as [| a l IH]; intros g Hall.
  - cbn [fold_left]. unfold contatori_le. split; [tauto | lia].
  - inversion Hall as [| ? ? Ha Hl]; subst. cbn [fold_left].
    destruct (update_riga_contatori a g Ha) as [Hok Hle].
    destruct (IH (update_riga INT_cast a g) Hl) as [Hok' Hle'].
    split; [tauto |]. unfold contatori_le in *. lia.
Qed.

End Scritture.

(** ** The match recorder *)

Ltac prova_NoDup :=
  repeat (apply NoDup_cons; [cbn [In]; intuition discriminate |]);
  apply NoDup_nil.

Ltac prova_primary_key :=
  split;
  [ cbn [map giocatori Giocatore.id nuovo db_quattro db_dispari db_sette
         db_esempio]; prova_NoDup
  | split; [cbn; lia |];
    repeat (apply Forall_cons; [cbn; lia |]); apply Forall_nil ].

Lemma primary_key_quattro : primary_key db_quattro.
Proof. prova_primary_key. Qed.

Lemma primary_key_dispari : primary_key db_dispari.
Proof. prova_primary_key. Qed.

Lemma primary_key_sette : primary_key db_sette.
Proof. prova_primary_key. Qed.

Lemma primary_key_esempio : primary_key db_esempio.
Proof. prova_primary_key. Qed.

Section Recorder.

Variable INT_cast : R -> Z.

(** Four rows come back exactly for four distinct existing players. *)
Lemma select_quattro (squadra1 squadra2 : Z * Z) (d : database) :
  primary_key d ->
  (List.length (select_elo (tutti squadra1 squadra2) d) = 4%nat
   <-> NoDup (tutti squadra1 squadra2)
       /\ Forall (fun i => esiste i d) (tutti squadra1 squadra2)).
Proof.
  intros Hpk.
  apply (select_elo_tutti (tutti squadra1 squadra2) d Hpk).
Qed.

(** Without four rows the call throws, whatever else happens, and the
    rows stay. *)
Lemma createPartita_rifiuta (squadra1 squadra2 : Z * Z) (vincitore : Z)
    (d : database) :
  List.length (select_elo (tutti squadra1 squadra2) d) <> 4%nat ->
  (forall g,
      let r := esegui (createPartita INT_cast squadra1 squadra2 vincitore)
                 g d in
      (exists e, fst r = Throw e)
      /\ giocatori (snd r) = giocatori d
      /\ partite (snd r) = partite d)
  /\ esegui (createPartita INT_cast squadra1 squadra2 vincitore) [] d
     = (Throw UnknownPlayer, d).
Proof.
  intros Hlen. split.
  - intros g r.
    destruct (createPartita_run INT_cast squadra1 squadra2 vincitore g d
                (fst r) (snd r)) as [(e & He & _ & Hg & Hp & _) | (H4 & _)].
    + subst r. apply surjective_pairing.
    + split; [exists e; exact He | split; assumption].
    + contradiction.
  - rewrite createPartita_senza_guasti.
    apply Nat.eqb_neq in Hlen. rewrite Hlen. reflexivity.
Qed.

(** The row one [UPDATE] of a returning call leaves, every column
    written out. *)
Lemma scrivi_riga_scritta (squadra1 squadra2 : Z * Z) (vincitore : Z)
    (d : database) (delta : R) (vinto i : Z) :
  primary_key d ->
  NoDup (tutti squadra1 squadra2) ->
  Forall (fun j => esiste j d) (tutti squadra1 squadra2) ->
  In i (tutti squadra1 squadra2) ->
  In (mkAgg (numero (crea_eloMap (select_elo (tutti squadra1 squadra2) d) i)
             + delta) vinto i)
     (aggiornamenti
        (calcola_piano (select_elo (tutti squadra1 squadra2) d)
           squadra1 squadra2 vincitore)) ->
  exists g0,
    riga i d = Some g0
    /\ riga i (scrivi INT_cast (select_elo (tutti squadra1 squadra2) d)
                 squadra1 squadra2 vincitore d)
       = Some (Giocatore.mk i (Giocatore.nome g0) (Giocatore.ruolo g0)
                 (INT_cast (IZR (Giocatore.elo g0) + delta))
                 (Giocatore.partite g0 + 1)
                 (Giocatore.vittorie g0 + vinto)
                 (Giocatore.sconfitte g0 + (1 - vinto))).
Proof.
  intros Hpk Hnd Hall Hi Ha.
  rewrite Forall_forall in Hall.
  destruct (proj1 (esiste_riga _ _) (Hall _ Hi)) as [g0 Hg0].
  exists g0. split; [exact Hg0 |].
  pose proof (scrivi_partecipante INT_cast _ _ _ _ d _ g0 Hnd Ha Hg0) as H.
  cbn [giocatoreId nuovoElo isVincitore] in H. rewrite H.
  rewrite (eloMap_presente (tutti squadra1 squadra2) d i g0 Hpk Hi Hg0).
  apply riga_Some in Hg0. destruct Hg0 as [_ Hid]. rewrite Hid.
  reflexivity.
Qed.

(** C5: [createPartita] is all or nothing.  Whatever the driver does
    (any call may throw: opening the connection, beginning, the fetch,
    each of the four updates, the insert, the commit, the rollback), a
    call that throws leaves the rows of both tables as they were.  A
    call that returns has appended the one match row, with the id it
    returns, and on a table with a primary key and ratings within the
    range of [INT] has written the row of each of the four players: the rating is the old one plus the delta
    of the player's team as the call returns it, converted to [INT],
    [partite] is one more, [vittorie] is one more if the team won and
    [sconfitte] one more if it did not; the other columns stay, and so
    does every other row. *)
Theorem createPartita_atomica (squadra1 squadra2 : Z * Z) (vincitore : Z)
    (g : list bool) (d : database) :
  let r := esegui (createPartita INT_cast squadra1 squadra2 vincitore) g d in
  match fst r with
  | Throw _ =>
      giocatori (snd r) = giocatori d /\ partite (snd r) = partite d
  | Ok ris =>
      partite (snd r)
      = partite d ++ [Partita.mk (ep_id ris) squadra1 squadra2 vincitore]
      /\ (primary_key d ->
          Forall (fun g0 => (- 2 ^ 31 <= Giocatore.elo g0 < 2 ^ 31)%Z)
            (giocatori d) ->
          (forall i, In i [fst squadra1; snd squadra1] ->
             exists g0,
               riga i d = Some g0
               /\ riga i (snd r)
                  = Some (Giocatore.mk i (Giocatore.nome g0)
                            (Giocatore.ruolo g0)
                            (INT_cast (IZR (Giocatore.elo g0)
                                       + squadra1_delta ris))
                            (Giocatore.partite g0 + 1)
                            (Giocatore.vittorie g0
                             + (if (vincitore =? 1)%Z then 1 else 0))
                            (Giocatore.sconfitte g0
                             + (if (vincitore =? 1)%Z then 0 else 1))))
          /\ (forall i, In i [fst squadra2; snd squadra2] ->
                exists g0,
                  riga i d = Some g0
                  /\ riga i (snd r)
                     = Some (Giocatore.mk i (Giocatore.nome g0)
                               (Giocatore.ruolo g0)
                               (INT_cast (IZR (Giocatore.elo g0)
                                          + squadra2_delta ris))
                               (Giocatore.partite g0 + 1)
                               (Giocatore.vittorie g0
                                + (if (vincitore =? 2)%Z then 1 else 0))
                               (Giocatore.sconfitte g0
                                + (if (vincitore =? 2)%Z then 0 else 1))))
          /\ (forall i, ~ In i [fst squadra1; snd squadra1;
                                fst squadra2; snd squadra2] ->
                riga i (snd r) = riga i d)
          /\ List.length (giocatori (snd r)) = List.length (giocatori d))
  end.
Proof.
  intros r.
  destruct (createPartita_run INT_cast squadra1 squadra2 vincitore g d
              (fst r) (snd r))
    as [(e & He & _ & Hg & Hp & _) | (H4 & Hr & Hd)].
  - subst r. apply surjective_pairing.
  - rewrite He. split; assumption.
  - rewrite Hr, Hd. cbn [ep_id squadra1_delta squadra2_delta].
    split; [apply scrivi_partite |].
    intros Hpk _.
    apply (select_quattro squadra1 squadra2 d Hpk) in H4.
    destruct H4 as [Hnd Hall].
    pose proof (aggiornamenti_piano (select_elo (tutti squadra1 squadra2) d)
                  squadra1 squadra2 vincitore) as Hagg.
    cbv zeta in Hagg.
    split; [| split; [| split]].
    + intros i Hi.
      destruct (scrivi_riga_scritta squadra1 squadra2 vincitore d
                  (deltaElo1 (calcola_piano
                                (select_elo (tutti squadra1 squadra2) d)
                                squadra1 squadra2 vincitore))
                  (flag vincitore 1) i Hpk Hnd Hall)
        as (g0 & Hg0 & Hrow).
      * unfold tutti. cbn [In] in *. tauto.
      * rewrite Hagg. cbn [In] in *.
        destruct Hi as [<- | [<- | []]]; tauto.
      * exists g0. split; [exact Hg0 |]. rewrite Hrow. unfold flag.
        destruct (vincitore =? 1)%Z; reflexivity.
    + intros i Hi.
      destruct (scrivi_riga_scritta squadra1 squadra2 vincitore d
                  (deltaElo2 (calcola_piano
                                (select_elo (tutti squadra1 squadra2) d)
                                squadra1 squadra2 vincitore))
                  (flag vincitore 2) i Hpk Hnd Hall)
        as (g0 & Hg0 & Hrow).
      * unfold tutti. cbn [In] in *. tauto.
      * rewrite Hagg. cbn [In] in *.
        destruct Hi as [<- | [<- | []]]; tauto.
      * exists g0. split; [exact Hg0 |]. rewrite Hrow. unfold flag.
        destruct (vincitore =? 2)%Z; reflexivity.
    + intros i Hni. apply scrivi_estraneo. exact Hni.
    + rewrite scrivi_giocatori. apply length_map.
Qed.

(** C6: a call naming a player that does not exist throws and changes
    no row, whatever the driver does, and when the driver itself raises
    nothing the error is the unknown-player one and the database is
    untouched; when the four identifiers are distinct and exist, that
    error is never the outcome. *)
Theorem createPartita_unknown_player (squadra1 squadra2 : Z * Z)
    (vincitore : Z) (d : database) :
  primary_key d ->
  ((exists i, In i (tutti squadra1 squadra2) /\ ~ esiste i d) ->
   (forall g,
       let r := esegui (createPartita INT_cast squadra1 squadra2 vincitore)
                  g d in
       (exists e, fst r = Throw e)
       /\ giocatori (snd r) = giocatori d
       /\ partite (snd r) = partite d)
   /\ esegui (createPartita INT_cast squadra1 squadra2 vincitore) [] d
      = (Throw UnknownPlayer, d))
  /\ (NoDup (tutti squadra1 squadra2) ->
      Forall (fun i => esiste i d) (tutti squadra1 squadra2) ->
      forall g,
        fst (esegui (createPartita INT_cast squadra1 squadra2 vincitore) g d)
        <> Throw UnknownPlayer).
Proof.
  intros Hpk. split.
  - intros [i [Hi Hne]]. apply createPartita_rifiuta.
    intros H4. apply (select_quattro squadra1 squadra2 d Hpk) in H4.
    destruct H4 as [_ Hall]. rewrite Forall_forall in Hall.
    apply Hne, Hall, Hi.
  - intros Hnd Hall g.
    assert (H4 : List.length (select_elo (tutti squadra1 squadra2) d) = 4%nat).
    { apply (select_quattro squadra1 squadra2 d Hpk). split; assumption. }
    set (r := esegui (createPartita INT_cast squadra1 squadra2 vincitore) g d).
    destruct (createPartita_run INT_cast squadra1 squadra2 vincitore g d
                (fst r) (snd r))
      as [(e & He & [Hdrv | [_ Hn4]] & _) | (_ & Hr & _)].
    + subst r. apply surjective_pairing.
    + rewrite He, Hdrv. discriminate.
    + contradiction.
    + rewrite Hr. discriminate.
Qed.

(** C8: a call in which the same identifier fills two of the four slots
    throws and changes no row, whatever the driver does; when the driver
    raises nothing the database is untouched. *)
Theorem createPartita_duplicate (squadra1 squadra2 : Z * Z)
    (vincitore : Z) (d : database) :
  primary_key d ->
  ~ NoDup (tutti squadra1 squadra2) ->
  (forall g,
      let r := esegui (createPartita INT_cast squadra1 squadra2 vincitore)
                 g d in
      (exists e, fst r = Throw e)
      /\ giocatori (snd r) = giocatori d
      /\ partite (snd r) = partite d)
  /\ esegui (createPartita INT_cast squadra1 squadra2 vincitore) [] d
     = (Throw UnknownPlayer, d).
Proof.
  intros Hpk Hdup. apply createPartita_rifiuta.
  intros H4. apply (select_quattro squadra1 squadra2 d Hpk) in H4.
  apply Hdup. tauto.
Qed.

End Recorder.

(** ** Evaluating a call *)

(** [calcola_piano] once the four ratings have been read. *)
Lemma calcola_piano_valori (rows : list (Z * Z)) (squadra1 squadra2 : Z * Z)
    (vincitore a b c e : Z) :
  crea_eloMap rows (fst squadra1) = Some a ->
  crea_eloMap rows (snd squadra1) = Some b ->
  crea_eloMap rows (fst squadra2) = Some c ->
  crea_eloMap rows (snd squadra2) = Some e ->
  let m1 := (IZR a + IZR b) / 2 in
  let m2 := (IZR c + IZR e) / 2 in
  let n1 := calcolaELO m1 m2 (IZR (flag vincitore 1)) 32 in
  let n2 := calcolaELO m2 m1 (IZR (flag vincitore 2)) 32 in
  calcola_piano rows squadra1 squadra2 vincitore
  = mkPiano (IZR n1 - m1) (IZR n2 - m2)
      [ mkAgg (IZR a + (IZR n1 - m1)) (flag vincitore 1) (fst squadra1);
        mkAgg (IZR b + (IZR n1 - m1)) (flag vincitore 1) (snd squadra1);
        mkAgg (IZR c + (IZR n2 - m2)) (flag vincitore 2) (fst squadra2);
        mkAgg (IZR e + (IZR n2 - m2)) (flag vincitore 2) (snd squadra2) ].
Proof.
  intros Ha Hb Hc He. unfold calcola_piano. cbn [map app].
  rewrite Ha, Hb, Hc, He. reflexivity.
Qed.

(** Equal team means, k = 32: the winner's team rating moves to
    [round (m + 16)], the loser's to [round (m - 16)]. *)
Lemma calcolaELO_32_win (m : R) : calcolaELO m m 1 32 = Math_round (m + 16).
Proof. rewrite calcolaELO_equal. f_equal. lra. Qed.

Lemma calcolaELO_32_loss (m : R) : calcolaELO m m 0 32 = Math_round (m - 16).
Proof. rewrite calcolaELO_equal. f_equal. lra. Qed.

Lemma Math_round_Z (x : R) (z : Z) : x = IZR z -> Math_round x = z.
Proof. intros ->. apply Math_round_IZR. Qed.

Lemma Math_round_Z_half (x : R) (z : Z) :
  x = IZR z + / 2 -> Math_round x = (z + 1)%Z.
Proof. intros ->. apply Math_round_half. Qed.

Section Scenario.

Variable INT_cast : R -> Z.
Hypothesis INT_cast_intero : forall z : Z, INT_cast (IZR z) = z.

Lemma INT_cast_Z (x : R) (z : Z) : x = IZR z -> INT_cast x = z.
Proof. intros ->. apply INT_cast_intero. Qed.

Lemma piano_quattro :
  calcola_piano (select_elo (tutti (1, 2) (3, 4))%Z db_quattro)
    (1, 2)%Z (3, 4)%Z 1
  = mkPiano 16 (-16)
      [ mkAgg 1516 1 1; mkAgg 1516 1 2; mkAgg 1484 0 3; mkAgg 1484 0 4 ].
Proof.
  rewrite (calcola_piano_valori _ _ _ _ 1500 1500 1500 1500)
    by reflexivity.
  change (flag 1 1) with 1%Z. change (flag 1 2) with 0%Z.
  replace ((1500 + 1500) / 2) with 1500 by lra.
  rewrite calcolaELO_32_win, calcolaELO_32_loss.
  rewrite (Math_round_Z (1500 + 16) 1516) by lra.
  rewrite (Math_round_Z (1500 - 16) 1484) by lra.
  cbn [fst snd].
  repeat f_equal; lra.
Qed.

Lemma scenario_1_run :
  esegui (createPartita INT_cast (1, 2) (3, 4) 1)%Z [] db_quattro
  = (Ok (mkEsito 1 (1, 2)%Z (3, 4)%Z 1 16 (-16)),
     mkDb [ Giocatore.mk 1 "A" portiere 1516 1 1 0;
            Giocatore.mk 2 "B" attaccante 1516 1 1 0;
            Giocatore.mk 3 "C" portiere 1484 1 0 1;
            Giocatore.mk 4 "D" attaccante 1484 1 0 1 ]
          [ Partita.mk 1 (1, 2)%Z (3, 4)%Z 1 ] 5 2).
Proof.
  rewrite createPartita_senza_guasti.
  change (List.length (select_elo (tutti (1, 2) (3, 4))%Z db_quattro) =? 4)%nat
    with true.
  cbv iota. unfold scrivi. rewrite piano_quattro.
  cbn [deltaElo1 deltaElo2 aggiornamenti fold_left].
  unfold update_giocatore, UPDATE_giocatori, update_riga, UPDATE_riga, db_quattro, nuovo.
  cbn [giocatori partite auto_giocatori auto_partite map
       Giocatore.id Giocatore.nome Giocatore.ruolo Giocatore.elo
       Giocatore.partite Giocatore.vittorie Giocatore.sconfitte
       giocatoreId isVincitore nuovoElo Z.eqb Pos.eqb
       insert_partita fst snd app].
  rewrite !INT_cast_intero.
  reflexivity.
Qed.

(** C3: four players at 1500 with zero counters, players 1 and 2
    beating 3 and 4, k = 32: the call returns the deltas 16 and -16,
    the ratings become 1516, 1516, 1484, 1484, every player has one
    match played, 1 and 2 one win each, 3 and 4 one loss each, and the
    match row is recorded. *)
Theorem scenario_1 :
  let r := esegui (createPartita INT_cast (1, 2)%Z (3, 4)%Z 1) []
             db_quattro in
  (exists ris, fst r = Ok ris
               /\ squadra1_delta ris = 16 /\ squadra2_delta ris = -16)
  /\ map (fun g => (Giocatore.id g, Giocatore.elo g, Giocatore.partite g,
                    Giocatore.vittorie g, Giocatore.sconfitte g))
         (giocatori (snd r))
     = [ (1, 1516, 1, 1, 0); (2, 1516, 1, 1, 0);
         (3, 1484, 1, 0, 1); (4, 1484, 1, 0, 1) ]%Z
  /\ partite (snd r) = [ Partita.mk 1 (1, 2)%Z (3, 4)%Z 1 ].
Proof.
  intros r. subst r. rewrite scenario_1_run. cbn [fst snd].
  split; [eexists; repeat split; reflexivity |].
  split; reflexivity.
Qed.

End Scenario.

(** ** More evaluations *)

Lemma scrivi_eq (INT_cast : R -> Z) (rows : list (Z * Z))
    (squadra1 squadra2 : Z * Z) (vincitore : Z) (d : database) :
  scrivi INT_cast rows squadra1 squadra2 vincitore d
  = mkDb (map (aggiorna_riga INT_cast
                 (aggiornamenti
                    (calcola_piano rows squadra1 squadra2 vincitore)))
              (giocatori d))
         (partite d ++ [Partita.mk (auto_partite d) squadra1 squadra2 vincitore])
         (auto_giocatori d) (auto_partite d + 1).
Proof.
  unfold scrivi, insert_partita. cbn [snd].
  rewrite giocatori_fold, update_partite, update_auto_giocatori,
    update_auto_partite.
  reflexivity.
Qed.

(** Team 1 wins, all four players at 1500. *)
Lemma piano_1500 (rows : list (Z * Z)) (squadra1 squadra2 : Z * Z) :
  crea_eloMap rows (fst squadra1) = Some 1500%Z ->
  crea_eloMap rows (snd squadra1) = Some 1500%Z ->
  crea_eloMap rows (fst squadra2) = Some 1500%Z ->
  crea_eloMap rows (snd squadra2) = Some 1500%Z ->
  calcola_piano rows squadra1 squadra2 1
  = mkPiano 16 (-16)
      [ mkAgg 1516 1 (fst squadra1); mkAgg 1516 1 (snd squadra1);
        mkAgg 1484 0 (fst squadra2); mkAgg 1484 0 (snd squadra2) ].
Proof.
  intros Ha Hb Hc He.
  rewrite (calcola_piano_valori _ _ _ _ 1500 1500 1500 1500) by assumption.
  change (flag 1 1) with 1%Z. change (flag 1 2) with 0%Z.
  replace ((1500 + 1500) / 2) with 1500 by lra.
  rewrite calcolaELO_32_win, calcolaELO_32_loss.
  rewrite (Math_round_Z (1500 + 16) 1516) by lra.
  rewrite (Math_round_Z (1500 - 16) 1484) by lra.
  repeat f_equal; lra.
Qed.

(** [10 ^ (-1/50)] lies strictly between 31/33 and 1. *)
Lemma pow10_8 :
  31 / 33 < Math_pow10 ((1500 - 1508) / 400) < 1.
Proof.
  split.
  - apply (Math_pow10_gt _ 31 33 50 1);
      [lia | lia | lia | lia | lra | apply Z.ltb_lt; vm_compute; reflexivity].
  - apply Rlt_le_trans with (IZR 1 / IZR 1); [| lra].
    apply (Math_pow10_lt _ 1 1 50 1);
      [lia | lia | lia | lia | lra | apply Z.ltb_lt; vm_compute; reflexivity].
Qed.

(** A team at 1508 beats a team at 1500. *)
Lemma calcolaELO_1508_win : calcolaELO 1508 1500 1 32 = 1524%Z.
Proof.
  unfold calcolaELO. symmetry. apply Math_round_unique.
  pose proof (atteso_tra 1508 1500 (31 / 33) 1 ltac:(lra) pow10_8) as Hb.
  split; lra.
Qed.

Lemma calcolaELO_1500_loss : calcolaELO 1500 1508 0 32 = 1484%Z.
Proof.
  unfold calcolaELO. symmetry. apply Math_round_unique.
  assert (Hp : 1 < Math_pow10 ((1508 - 1500) / 400) < 33 / 31).
  { replace ((1508 - 1500) / 400) with (- ((1500 - 1508) / 400)) by lra.
    rewrite Math_pow10_opp.
    destruct pow10_8 as [H1 H2].
    split.
    - rewrite <- Rinv_1. apply Rinv_0_lt_contravar; lra.
    - replace (33 / 31) with (/ (31 / 33)) by lra.
      apply Rinv_0_lt_contravar; lra. }
  pose proof (atteso_tra 1500 1508 1 (33 / 31) ltac:(lra) Hp) as Hb.
  split; lra.
Qed.

(** Team 1 wins with ratings 1516 and 1500 against 1500 and 1500. *)
Lemma piano_1516 (rows : list (Z * Z)) (squadra1 squadra2 : Z * Z) :
  crea_eloMap rows (fst squadra1) = Some 1516%Z ->
  crea_eloMap rows (snd squadra1) = Some 1500%Z ->
  crea_eloMap rows (fst squadra2) = Some 1500%Z ->
  crea_eloMap rows (snd squadra2) = Some 1500%Z ->
  calcola_piano rows squadra1 squadra2 1
  = mkPiano 16 (-16)
      [ mkAgg 1532 1 (fst squadra1); mkAgg 1516 1 (snd squadra1);
        mkAgg 1484 0 (fst squadra2); mkAgg 1484 0 (snd squadra2) ].
Proof.
  intros Ha Hb Hc He.
  rewrite (calcola_piano_valori _ _ _ _ 1516 1500 1500 1500) by assumption.
  change (flag 1 1) with 1%Z. change (flag 1 2) with 0%Z.
  replace ((1516 + 1500) / 2) with 1508 by lra.
  replace ((1500 + 1500) / 2) with 1500 by lra.
  rewrite calcolaELO_1508_win, calcolaELO_1500_loss.
  repeat f_equal; lra.
Qed.

Section Intercalate.

Variable INT_cast : R -> Z.
Hypothesis INT_cast_intero : forall z : Z, INT_cast (IZR z) = z.

Ltac valuta :=
  unfold aggiorna_riga, update_riga, UPDATE_riga, nuovo;
  cbn [giocatori partite auto_giocatori auto_partite map fold_left
       Giocatore.id Giocatore.nome Giocatore.ruolo Giocatore.elo
       Giocatore.partite Giocatore.vittorie Giocatore.sconfitte
       giocatoreId isVincitore nuovoElo aggiornamenti Z.eqb Pos.eqb
       fst snd app];
  rewrite ?INT_cast_intero.

Lemma scrivi_A :
  scrivi INT_cast (select_elo (tutti (1, 2) (3, 4))%Z db_sette)
    (1, 2)%Z (3, 4)%Z 1 db_sette
  = db_sette_A.
Proof.
  rewrite scrivi_eq, piano_1500 by reflexivity.
  unfold db_sette. valuta. reflexivity.
Qed.

Lemma scrivi_B :
  scrivi INT_cast (select_elo (tutti (1, 5) (6, 7))%Z db_sette)
    (1, 5)%Z (6, 7)%Z 1 db_sette
  = db_sette_B.
Proof.
  rewrite scrivi_eq, piano_1500 by reflexivity.
  unfold db_sette. valuta. reflexivity.
Qed.

(** Call B writes what it computed from the ratings it fetched before
    call A wrote. *)
Lemma scrivi_B_dopo_A_vecchie :
  scrivi INT_cast (select_elo (tutti (1, 5) (6, 7))%Z db_sette)
    (1, 5)%Z (6, 7)%Z 1 db_sette_A
  = db_intercalato.
Proof.
  rewrite scrivi_eq, piano_1500 by reflexivity.
  unfold db_sette_A. valuta. reflexivity.
Qed.

Lemma scrivi_B_dopo_A :
  scrivi INT_cast (select_elo (tutti (1, 5) (6, 7))%Z db_sette_A)
    (1, 5)%Z (6, 7)%Z 1 db_sette_A
  = db_serie_AB.
Proof.
  rewrite scrivi_eq, piano_1516 by reflexivity.
  unfold db_sette_A. valuta. reflexivity.
Qed.

Lemma scrivi_A_dopo_B :
  scrivi INT_cast (select_elo (tutti (1, 2) (3, 4))%Z db_sette_B)
    (1, 2)%Z (3, 4)%Z 1 db_sette_B
  = db_serie_BA.
Proof.
  rewrite scrivi_eq, piano_1516 by reflexivity.
  unfold db_sette_B. valuta. reflexivity.
Qed.

(** Two calls one after the other, the driver raising nothing, are
    [in_serie]. *)
Lemma in_serie_esegui (a1 a2 : Z * Z) (av : Z) (b1 b2 : Z * Z) (bv : Z)
    (d : database) :
  let dA := snd (esegui (createPartita INT_cast a1 a2 av) [] d) in
  List.length (select_elo (tutti a1 a2) d) = 4%nat ->
  List.length (select_elo (tutti b1 b2) dA) = 4%nat ->
  snd (esegui (createPartita INT_cast b1 b2 bv) [] dA)
  = in_serie INT_cast a1 a2 av b1 b2 bv d.
Proof.
  intros dA. subst dA. rewrite !createPartita_senza_guasti.
  intros HA. rewrite HA. cbn [Nat.eqb snd].
  intros HB. rewrite HB. cbn [Nat.eqb snd].
  reflexivity.
Qed.

(** C9 on the code: players 1 to 7 at 1500, call A records 1 and 2
    beating 3 and 4, call B records 1 and 5 beating 6 and 7.  When B
    fetches before A writes and writes after A commits, player 1 ends
    with two matches and two wins but rating 1516, the rating one win
    gives: B has overwritten the rating A committed with the one it
    computed from the rating it fetched.  Either order of the two calls
    one after the other leaves player 1 at 1532. *)
Theorem createPartita_lost_update :
  intercalate INT_cast (1, 2)%Z (3, 4)%Z 1 (1, 5)%Z (6, 7)%Z 1 db_sette
  = db_intercalato
  /\ riga 1 db_intercalato = Some (Giocatore.mk 1 "A" portiere 1516 2 2 0)
  /\ snd (esegui (createPartita INT_cast (1, 5)%Z (6, 7)%Z 1) []
            (snd (esegui (createPartita INT_cast (1, 2)%Z (3, 4)%Z 1) []
                    db_sette)))
     = db_serie_AB
  /\ riga 1 db_serie_AB = Some (Giocatore.mk 1 "A" portiere 1532 2 2 0)
  /\ snd (esegui (createPartita INT_cast (1, 2)%Z (3, 4)%Z 1) []
            (snd (esegui (createPartita INT_cast (1, 5)%Z (6, 7)%Z 1) []
                    db_sette)))
     = db_serie_BA
  /\ riga 1 db_serie_BA = Some (Giocatore.mk 1 "A" portiere 1532 2 2 0).
Proof.
  assert (HA : snd (esegui (createPartita INT_cast (1, 2)%Z (3, 4)%Z 1) []
                      db_sette) = db_sette_A).
  { rewrite createPartita_senza_guasti.
    change (List.length (select_elo (tutti (1, 2) (3, 4))%Z db_sette) =? 4)%nat
      with true.
    cbv iota. cbn [snd]. apply scrivi_A. }
  assert (HB : snd (esegui (createPartita INT_cast (1, 5)%Z (6, 7)%Z 1) []
                      db_sette) = db_sette_B).
  { rewrite createPartita_senza_guasti.
    change (List.length (select_elo (tutti (1, 5) (6, 7))%Z db_sette) =? 4)%nat
      with true.
    cbv iota. cbn [snd]. apply scrivi_B. }
  split; [| split; [| split; [| split; [| split]]]].
  - unfold intercalate. rewrite scrivi_A. apply scrivi_B_dopo_A_vecchie.
  - reflexivity.
  - rewrite in_serie_esegui; [| reflexivity | rewrite HA; reflexivity].
    unfold in_serie. rewrite scrivi_A. apply scrivi_B_dopo_A.
  - reflexivity.
  - rewrite in_serie_esegui; [| reflexivity | rewrite HB; reflexivity].
    unfold in_serie. rewrite scrivi_B. apply scrivi_A_dopo_B.
  - reflexivity.
Qed.

End Intercalate.

(** ** Methods outside a transaction *)

Lemma mantiene_ret (Inv : database -> Prop) {A} (a : A) :
  mantiene Inv (ret a).
Proof. intros w Ht Hi. split; assumption. Qed.

Lemma mantiene_throw (Inv : database -> Prop) {A} (e : errore) :
  mantiene Inv (@throw A e).
Proof. intros w Ht Hi. split; assumption. Qed.

Lemma mantiene_bind (Inv : database -> Prop) {A B} (c : M A) (k : A -> M B) :
  mantiene Inv c -> (forall a, mantiene Inv (k a)) ->
  mantiene Inv (bind c k).
Proof.
  intros Hc Hk w Ht Hi. unfold bind.
  specialize (Hc w Ht Hi).
  destruct (c w) as [[a | e] w']; cbn [snd] in *.
  - apply Hk; tauto.
  - exact Hc.
Qed.

Lemma mantiene_try_catch (Inv : database -> Prop) {A} (c : M A)
    (h : errore -> M A) :
  mantiene Inv c -> (forall e, mantiene Inv (h e)) ->
  mantiene Inv (try_catch c h).
Proof.
  intros Hc Hh w Ht Hi. unfold try_catch.
  specialize (Hc w Ht Hi).
  destruct (c w) as [[a | e] w']; cbn [snd] in *.
  - exact Hc.
  - apply Hh; tauto.
Qed.

Lemma mantiene_driver (Inv : database -> Prop) {A}
    (f : database -> A * database) :
  (forall d, Inv d -> Inv (snd (f d))) -> mantiene Inv (driver f).
Proof.
  intros Hf w Ht Hi.
  destruct (driver_cases f w) as [[rest H] | [rest H]]; rewrite H;
    cbn [snd db transazione]; split; auto.
Qed.

Lemma mantiene_for_of (Inv : database -> Prop) {A} (xs : list A)
    (body : A -> M unit) :
  (forall x, mantiene Inv (body x)) -> mantiene Inv (for_of xs body).
Proof.
  intros Hb. induction xs as [| x xs IH]; cbn [for_of].
  - apply mantiene_ret.
  - apply mantiene_bind; [apply Hb | intros _; exact IH].
Qed.

Lemma mantiene_esegui (Inv : database -> Prop) {A} (c : M A)
    (g : list bool) (d : database) :
  mantiene Inv c -> Inv d -> Inv (snd (esegui c g d)).
Proof.
  intros Hc Hi. unfold esegui.
  specialize (Hc (mkMondo d g None) eq_refl Hi).
  destruct (c (mkMondo d g None)) as [r w]. cbn [snd] in *. tauto.
Qed.

Lemma createGiocatore_mantiene (Inv : database -> Prop)
    (LOWER : string -> string) (nome : string) (r : ruolo) :
  (forall d n r', Inv d -> Inv (snd (insert_giocatore n r' d))) ->
  mantiene Inv (createGiocatore LOWER nome r).
Proof.
  intros Hins. unfold createGiocatore.
  apply mantiene_try_catch; [| intros e; apply mantiene_throw].
  apply mantiene_bind.
  { apply mantiene_driver. intros d Hd. exact Hd. }
  intros existing. apply mantiene_bind.
  { destruct (0 <? List.length existing)%nat;
      [apply mantiene_throw | apply mantiene_ret]. }
  intros _. apply mantiene_bind.
  { apply mantiene_driver. intros d Hd. apply Hins. exact Hd. }
  intros insertId. apply mantiene_ret.
Qed.

Lemma insertSampleData_mantiene (Inv : database -> Prop) :
  (forall d n r', Inv d -> Inv (snd (insert_giocatore n r' d))) ->
  mantiene Inv insertSampleData.
Proof.
  intros Hins. unfold insertSampleData.
  apply mantiene_try_catch; [| intros e; apply mantiene_ret].
  apply mantiene_bind.
  { apply mantiene_driver. intros d Hd. exact Hd. }
  intros count. destruct (count =? 0)%nat; [| apply mantiene_ret].
  apply mantiene_for_of. intros p. apply mantiene_bind.
  { apply mantiene_driver. intros d Hd. apply Hins. exact Hd. }
  intros _. apply mantiene_ret.
Qed.

Lemma resetDatabase_mantiene (Inv : database -> Prop)
    (NODE_ENV : option string) :
  mantiene Inv insertSampleData ->
  (forall d, Inv d -> Inv (truncate_partite d)) ->
  (forall d, Inv d -> Inv (truncate_giocatori d)) ->
  mantiene Inv (resetDatabase NODE_ENV).
Proof.
  intros Hins Htp Htg. unfold resetDatabase.
  apply mantiene_try_catch; [| intros e; apply mantiene_throw].
  apply mantiene_bind.
  { destruct (is_production NODE_ENV);
      [apply mantiene_throw | apply mantiene_ret]. }
  intros _. apply mantiene_bind.
  { apply mantiene_driver. intros d Hd. exact Hd. }
  intros _. apply mantiene_bind.
  { apply mantiene_driver. intros d Hd. apply Htp. exact Hd. }
  intros _. apply mantiene_bind.
  { apply mantiene_driver. intros d Hd. apply Htg. exact Hd. }
  intros _. apply mantiene_bind.
  { apply mantiene_driver. intros d Hd. exact Hd. }
  intros _. apply mantiene_bind; [exact Hins |].
  intros _. apply mantiene_ret.
Qed.

(** ** The invariants of the store *)

Lemma stato_ok_vuoto : stato_ok database_vuoto.
Proof.
  split; [split; [| split] |]; cbn; try constructor; lia.
Qed.

Lemma stato_ok_insert (d : database) (n : string) (r : ruolo) :
  stato_ok d -> stato_ok (snd (insert_giocatore n r d)).
Proof.
  intros [(Hnd & Hpos & Hb) Hc]. cbn [insert_giocatore snd].
  split; [split; [| split] |]; cbn [giocatori auto_giocatori].
  - rewrite map_app. cbn [map Giocatore.id].
    apply NoDup_app; [exact Hnd | prova_NoDup | ].
    intros i Hi [Heq | []]. subst i.
    apply in_map_iff in Hi. destruct Hi as [g [Hid Hin]].
    rewrite Forall_forall in Hb. specialize (Hb g Hin). lia.
  - lia.
  - apply Forall_app. split.
    + eapply Forall_impl; [| exact Hb]. cbv beta. intros g Hg. lia.
    + apply Forall_cons; [| apply Forall_nil]. cbn [Giocatore.id]. lia.
  - apply Forall_app. split; [exact Hc |].
    apply Forall_cons; [| apply Forall_nil].
    unfold contatori_ok. cbn. lia.
Qed.

Lemma stato_ok_truncate_partite (d : database) :
  stato_ok d -> stato_ok (truncate_partite d).
Proof. intros H. exact H. Qed.

Lemma stato_ok_truncate_giocatori (d : database) :
  stato_ok d -> stato_ok (truncate_giocatori d).
Proof.
  intros _. split; [split; [| split] |]; cbn; try constructor; lia.
Qed.

Section Invarianti.

Variable INT_cast : R -> Z.
Variable LOWER : string -> string.
Variable NODE_ENV : option string.

Lemma stato_ok_scrivi (rows : list (Z * Z)) (squadra1 squadra2 : Z * Z)
    (vincitore : Z) (d : database) :
  stato_ok d ->
  stato_ok (scrivi INT_cast rows squadra1 squadra2 vincitore d).
Proof.
  intros [(Hnd & Hpos & Hb) Hc].
  assert (Hids :
    map Giocatore.id
      (giocatori (scrivi INT_cast rows squadra1 squadra2 vincitore d))
    = map Giocatore.id (giocatori d)).
  { rewrite scrivi_giocatori, map_map. apply map_ext.
    intros g. apply aggiorna_riga_id. }
  split; [split; [| split] |].
  - rewrite Hids. exact Hnd.
  - rewrite scrivi_auto_giocatori. exact Hpos.
  - rewrite scrivi_auto_giocatori, scrivi_giocatori.
    apply Forall_map. eapply Forall_impl; [| exact Hb]. cbv beta.
    intros g Hg. rewrite aggiorna_riga_id. exact Hg.
  - rewrite scrivi_giocatori. apply Forall_map.
    eapply Forall_impl; [| exact Hc]. cbv beta. intros g Hg.
    apply aggiorna_riga_contatori; [apply aggiornamenti_flag | exact Hg].
Qed.

Lemma stato_ok_createPartita (squadra1 squadra2 : Z * Z) (vincitore : Z)
    (g : list bool) (d : database) :
  stato_ok d ->
  stato_ok (snd (esegui (createPartita INT_cast squadra1 squadra2 vincitore)
                   g d)).
Proof.
  intros Hok.
  set (r := esegui (createPartita INT_cast squadra1 squadra2 vincitore) g d).
  destruct (createPartita_run INT_cast squadra1 squadra2 vincitore g d
              (fst r) (snd r))
    as [(e & _ & _ & Hg & _ & Ha) | (_ & _ & Hd)].
  - subst r. apply surjective_pairing.
  - destruct Hok as [(Hnd & Hpos & Hb) Hc].
    split; [split; [| split] |]; rewrite ?Hg, ?Ha; assumption.
  - rewrite Hd. apply stato_ok_scrivi. exact Hok.
Qed.

Lemma stato_ok_dopo (c : chiamata) (g : list bool) (d : database) :
  stato_ok d -> stato_ok (dopo INT_cast LOWER NODE_ENV c g d).
Proof.
  intros Hok. destruct c as [nome r | s1 s2 v | |]; cbn [dopo].
  - apply mantiene_esegui; [| exact Hok].
    apply createGiocatore_mantiene. intros; apply stato_ok_insert; assumption.
  - apply stato_ok_createPartita. exact Hok.
  - apply mantiene_esegui; [| exact Hok].
    apply insertSampleData_mantiene. intros; apply stato_ok_insert; assumption.
  - apply mantiene_esegui; [| exact Hok].
    apply resetDatabase_mantiene.
    + apply insertSampleData_mantiene.
      intros; apply stato_ok_insert; assumption.
    + apply stato_ok_truncate_partite.
    + apply stato_ok_truncate_giocatori.
Qed.

Lemma raggiungibile_stato_ok (d : database) :
  raggiungibile INT_cast LOWER NODE_ENV d -> stato_ok d.
Proof.
  induction 1 as [| d c g _ IH]; [apply stato_ok_vuoto |].
  apply stato_ok_dopo. exact IH.
Qed.

End Invarianti.

(** ** Counters *)

Lemma contatori_le_refl (g : Giocatore.t) : contatori_le g g.
Proof. unfold contatori_le. lia. Qed.

Lemma estende_refl (d : database) : estende d d.
Proof. exists []. symmetry. apply app_nil_r. Qed.

Lemma estende_insert (d0 d : database) (n : string) (r : ruolo) :
  estende d0 d -> estende d0 (snd (insert_giocatore n r d)).
Proof.
  intros [extra He]. cbn [insert_giocatore snd giocatori].
  eexists. rewrite He, <- app_assoc. reflexivity.
Qed.

Lemma estende_monotoni (d d' : database) :
  estende d d' -> contatori_monotoni d d'.
Proof.
  intros [extra He] i g0 Hg. exists g0. split; [| apply contatori_le_refl].
  unfold riga in *. rewrite He, find_app, Hg. reflexivity.
Qed.

(** Every run of [createGiocatore]: it throws and leaves the database
    alone, or it returns the row it appended, a player at 1500 with all
    counters zero. *)
Lemma createGiocatore_run (LOWER : string -> string) (nome : string)
    (r : ruolo) (g : list bool) (d : database) (res : esito Giocatore.t)
    (d' : database) :
  esegui (createGiocatore LOWER nome r) g d = (res, d') ->
  (exists e, res = Throw e /\ d' = d)
  \/ (res = Ok (Giocatore.mk (auto_giocatori d) nome r 1500 0 0 0)
      /\ d' = snd (insert_giocatore nome r d)).
Proof.
  intros E.
  unfold esegui, createGiocatore, execute_query, execute_insert_giocatore,
    bind, try_catch, throw, ret in E.
  destruct (driver_cases
              (fun d0 => (select_per_nome LOWER nome d0, d0))
              (mkMondo d g None)) as [[rest H] | [rest H]];
    rewrite H in E; clear H; cbn [fst snd db guasti transazione] in E.
  { injection E as <- <-. left. eauto. }
  destruct (0 <? List.length (select_per_nome LOWER nome d))%nat.
  { injection E as <- <-. left. eauto. }
  destruct (driver_cases (insert_giocatore nome r) (mkMondo d rest None))
    as [[rest' H] | [rest' H]];
    rewrite H in E; clear H; cbn [fst snd db guasti transazione] in E.
  { injection E as <- <-. left. eauto. }
  injection E as <- <-. right. split; reflexivity.
Qed.

Lemma riga_nuova (d : database) (nome : string) (r : ruolo) :
  primary_key d ->
  riga (auto_giocatori d) (snd (insert_giocatore nome r d))
  = Some (Giocatore.mk (auto_giocatori d) nome r 1500 0 0 0).
Proof.
  intros (_ & _ & Hb). unfold riga. cbn [insert_giocatore snd giocatori].
  rewrite find_app.
  destruct (find (fun g => (Giocatore.id g =? auto_giocatori d)%Z)
              (giocatori d)) as [g |] eqn:Hf.
  - exfalso. apply find_some in Hf. destruct Hf as [Hin Heq].
    apply Z.eqb_eq in Heq. rewrite Forall_forall in Hb.
    specialize (Hb g Hin). lia.
  - cbn [find Giocatore.id]. rewrite Z.eqb_refl. reflexivity.
Qed.

(** *** The development reset *)

Lemma fresca_insert (d : database) (n : string) (r : ruolo) :
  Forall fresca (giocatori d) ->
  Forall fresca (giocatori (snd (insert_giocatore n r d))).
Proof.
  intros H. cbn [insert_giocatore snd giocatori].
  apply Forall_app. split; [exact H |].
  apply Forall_cons; [| apply Forall_nil].
  unfold fresca. cbn. lia.
Qed.

(** [insertSampleData] inserts only into an empty table. *)
Lemma insertSampleData_fresche (d0 : database) :
  mantiene (fun d => giocatori d = giocatori d0 \/ Forall fresca (giocatori d))
    insertSampleData.
Proof.
  intros w Ht Hi. unfold insertSampleData.
  match goal with
  | |- context [for_of ?l ?b] => set (ciclo := for_of l b)
  end.
  assert (Hf : mantiene (fun d => Forall fresca (giocatori d)) ciclo).
  { subst ciclo. apply mantiene_for_of. intros p. apply mantiene_bind.
    - apply mantiene_driver. intros d Hd. apply fresca_insert. exact Hd.
    - intros _. apply mantiene_ret. }
  unfold try_catch, bind, execute_query.
  destruct (driver_cases (fun d => (List.length (giocatori d), d)) w)
    as [[rest H] | [rest H]]; rewrite H; clear H;
    cbn [fst snd db transazione ret].
  { split; assumption. }
  destruct (List.length (giocatori (db w)) =? 0)%nat eqn:Hc.
  2:{ unfold ret. cbn [snd db transazione]. split; assumption. }
  apply Nat.eqb_eq in Hc. apply length_zero_iff_nil in Hc.
  specialize (Hf (mkMondo (db w) rest (transazione w)) Ht).
  cbn [db] in Hf. rewrite Hc in Hf. specialize (Hf (Forall_nil _)).
  destruct (ciclo (mkMondo (db w) rest (transazione w))) as [[u | e] w'];
    cbn [snd] in *; unfold ret; cbn [snd]; split; tauto.
Qed.

(** Whatever the driver does, [resetDatabase] leaves the player table as
    it was, or leaves only rows it has just inserted. *)
Lemma resetDatabase_giocatori (NODE_ENV : option string) (g : list bool)
    (d : database) :
  giocatori (snd (esegui (resetDatabase NODE_ENV) g d)) = giocatori d
  \/ Forall fresca (giocatori (snd (esegui (resetDatabase NODE_ENV) g d))).
Proof.
  apply (mantiene_esegui
           (fun d' => giocatori d' = giocatori d
                      \/ Forall fresca (giocatori d'))).
  - apply resetDatabase_mantiene.
    + apply insertSampleData_fresche.
    + intros d' Hd. exact Hd.
    + intros d' _. right. apply Forall_nil.
  - left. reflexivity.
Qed.

Section Contatori.

Variable INT_cast : R -> Z.
Variable LOWER : string -> string.
Variable NODE_ENV : option string.

Lemma createPartita_monotoni (squadra1 squadra2 : Z * Z) (vincitore : Z)
    (g : list bool) (d : database) :
  contatori_monotoni d
    (snd (esegui (createPartita INT_cast squadra1 squadra2 vincitore) g d)).
Proof.
  set (r := esegui (createPartita INT_cast squadra1 squadra2 vincitore) g d).
  destruct (createPartita_run INT_cast squadra1 squadra2 vincitore g d
              (fst r) (snd r))
    as [(e & _ & _ & Hg & _ & _) | (_ & _ & Hd)].
  - subst r. apply surjective_pairing.
  - intros i g0 H0. exists g0. split; [| apply contatori_le_refl].
    unfold riga in *. rewrite Hg. exact H0.
  - intros i g0 H0. rewrite Hd, scrivi_riga, H0. cbn [option_map].
    eexists. split; [reflexivity |].
    apply aggiorna_riga_contatori. apply aggiornamenti_flag.
Qed.

Lemma dopo_monotoni (c : chiamata) (g : list bool) (d : database) :
  c <> ResetDatabase ->
  contatori_monotoni d (dopo INT_cast LOWER NODE_ENV c g d).
Proof.
  intros Hc. destruct c as [nome r | s1 s2 v | |]; cbn [dopo].
  - apply estende_monotoni.
    apply (mantiene_esegui (estende d)); [| apply estende_refl].
    apply createGiocatore_mantiene. intros; apply estende_insert; assumption.
  - apply createPartita_monotoni.
  - apply estende_monotoni.
    apply (mantiene_esegui (estende d)); [| apply estende_refl].
    apply insertSampleData_mantiene. intros; apply estende_insert; assumption.
  - contradiction.
Qed.

(** A recorded match, on a table with a primary key: each of the four
    players has one more match and one more win or else one more loss;
    no other row moves. *)
Lemma createPartita_contatori (squadra1 squadra2 : Z * Z) (vincitore : Z)
    (g : list bool) (d : database) (ris : esito_partita) (d' : database) :
  primary_key d ->
  esegui (createPartita INT_cast squadra1 squadra2 vincitore) g d
  = (Ok ris, d') ->
  (forall i, In i (tutti squadra1 squadra2) ->
     exists g0 g1, riga i d = Some g0 /\ riga i d' = Some g1
                   /\ una_partita_in_piu g0 g1)
  /\ (forall i, ~ In i (tutti squadra1 squadra2) -> riga i d' = riga i d).
Proof.
  intros Hpk E.
  destruct (createPartita_run INT_cast squadra1 squadra2 vincitore g d
              (Ok ris) d' E)
    as [(e & He & _) | (H4 & _ & Hd)]; [discriminate |].
  apply (select_quattro squadra1 squadra2 d Hpk) in H4.
  destruct H4 as [Hnd Hall]. subst d'. split.
  - intros i Hi.
    rewrite <- (aggiornamenti_ids (select_elo (tutti squadra1 squadra2) d)
                  squadra1 squadra2 vincitore) in Hi.
    apply in_map_iff in Hi. destruct Hi as [a [Hid Ha]]. subst i.
    assert (Hex : esiste (giocatoreId a) d).
    { rewrite Forall_forall in Hall. apply Hall.
      rewrite <- (aggiornamenti_ids
                    (select_elo (tutti squadra1 squadra2) d)
                    squadra1 squadra2 vincitore).
      apply in_map. exact Ha. }
    apply esiste_riga in Hex. destruct Hex as [g0 Hg0].
    exists g0. eexists. split; [exact Hg0 |]. split.
    + apply scrivi_partecipante; eassumption.
    + pose proof (aggiornamenti_flag
                    (select_elo (tutti squadra1 squadra2) d)
                    squadra1 squadra2 vincitore) as Hf.
      rewrite Forall_forall in Hf. specialize (Hf a Ha).
      unfold una_partita_in_piu.
      cbn [Giocatore.partite Giocatore.vittorie Giocatore.sconfitte]. lia.
  - intros i Hni. apply scrivi_estraneo. exact Hni.
Qed.

(** C7, amended: in every database the methods can produce from the
    empty schema, under any faults of the driver, every player row has
    [partite = vittorie + sconfitte] and no negative counter; a created
    player starts at rating 1500 with the three counters at zero; a
    recorded match gives each of its four players one more match and
    either one more win or one more loss, and touches no other row;
    across any call other than the development reset every row stays,
    with no counter lower than before; the reset leaves the player table
    as it was or leaves only rows it has just inserted, at 1500 with
    zero counters. *)
Theorem contatori_invariante (d : database) :
  raggiungibile INT_cast LOWER NODE_ENV d ->
  Forall contatori_ok (giocatori d)
  /\ (forall nome r g row d',
        esegui (createGiocatore LOWER nome r) g d = (Ok row, d') ->
        fresca row /\ riga (Giocatore.id row) d' = Some row)
  /\ (forall squadra1 squadra2 vincitore g ris d',
        esegui (createPartita INT_cast squadra1 squadra2 vincitore) g d
        = (Ok ris, d') ->
        (forall i, In i (tutti squadra1 squadra2) ->
           exists g0 g1, riga i d = Some g0 /\ riga i d' = Some g1
                         /\ una_partita_in_piu g0 g1)
        /\ (forall i, ~ In i (tutti squadra1 squadra2) ->
              riga i d' = riga i d))
  /\ (forall c g, c <> ResetDatabase ->
        contatori_monotoni d (dopo INT_cast LOWER NODE_ENV c g d))
  /\ (forall g,
        let d' := dopo INT_cast LOWER NODE_ENV ResetDatabase g d in
        giocatori d' = giocatori d \/ Forall fresca (giocatori d')).
Proof.
  intros Hr. apply raggiungibile_stato_ok in Hr. destruct Hr as [Hpk Hc].
  split; [exact Hc |]. split; [| split; [| split]].
  - intros nome r g row d' E.
    destruct (createGiocatore_run LOWER nome r g d (Ok row) d' E)
      as [(e & He & _) | (Hrow & Hd)]; [discriminate |].
    injection Hrow as ->. subst d'. split.
    + unfold fresca. cbn. lia.
    + apply riga_nuova. exact Hpk.
  - intros squadra1 squadra2 vincitore g ris d' E.
    apply (createPartita_contatori squadra1 squadra2 vincitore g d ris d');
      assumption.
  - intros c g Hne. apply dopo_monotoni. exact Hne.
  - intros g. cbn [dopo]. apply resetDatabase_giocatori.
Qed.

End Contatori.

(** ** [resetDatabase] *)

Lemma is_production_spec (NODE_ENV : option string) :
  is_production NODE_ENV = true <-> NODE_ENV = Some "production"%string.
Proof.
  unfold is_production. destruct NODE_ENV as [s |].
  - rewrite String.eqb_eq. split; [intros -> | intros [= ->]]; reflexivity.
  - split; discriminate.
Qed.

Lemma insertSampleData_vuoto (p : list Partita.t) (n : Z) :
  insertSampleData (mkMondo (mkDb [] p 1 n) [] None)
  = (Ok tt,
     mkMondo (mkDb (giocatori db_esempio) p 7 n) [] None).
Proof.
  unfold insertSampleData, try_catch, bind, execute_query,
    execute_insert_giocatore, ret.
  rewrite driver_senza_guasti.
  cbn [fst snd giocatori List.length Nat.eqb for_of samplePlayers].
  unfold bind, ret.
  repeat (rewrite driver_senza_guasti;
          cbn [fst snd insert_giocatore giocatori partite auto_giocatori
               auto_partite app Z.add Pos.add Pos.succ]).
  reflexivity.
Qed.

Lemma resetDatabase_sviluppo (NODE_ENV : option string) (d : database) :
  is_production NODE_ENV = false ->
  esegui (resetDatabase NODE_ENV) [] d = (Ok true, db_esempio).
Proof.
  intros Hnp.
  unfold esegui, resetDatabase, try_catch, bind, execute_ddl, ret.
  rewrite Hnp.
  repeat (rewrite driver_senza_guasti;
          cbn [fst snd truncate_partite truncate_giocatori giocatori partite
               auto_giocatori auto_partite]).
  unfold truncate_giocatori, truncate_partite. cbn [giocatori partite auto_giocatori auto_partite].
  rewrite insertSampleData_vuoto. reflexivity.
Qed.

Lemma resetDatabase_produzione (NODE_ENV : option string) (g : list bool)
    (d : database) :
  is_production NODE_ENV = true ->
  esegui (resetDatabase NODE_ENV) g d = (Throw OperationForbidden, d).
Proof.
  intros Hp.
  unfold esegui, resetDatabase, try_catch, bind, throw.
  rewrite Hp. reflexivity.
Qed.

(** C10, as stated, fails outside production: after [resetDatabase] the
    player table is not empty, it holds the six sample players. *)
Lemma resetDatabase_reseeds : ~ reset_clears None db_quattro.
Proof.
  unfold reset_clears. intros H. specialize (H eq_refl).
  rewrite resetDatabase_sviluppo in H by reflexivity.
  destruct H as [H _]. discriminate H.
Qed.

(** C10, amended: with [NODE_ENV] equal to [production] the method itself
    throws the not-allowed error before any driver call, whatever the
    database and the driver, and the database is untouched; with any
    other [NODE_ENV] (or none) and a driver that raises nothing it returns
    [true], every earlier player row and match row is gone, both
    [AUTO_INCREMENT] counters start again, and the player table holds the
    six sample players, at 1500 with zero counters. *)
Theorem resetDatabase_guard (NODE_ENV : option string) (d : database) :
  (NODE_ENV = Some "production"%string ->
   forall g, esegui (resetDatabase NODE_ENV) g d = (Throw OperationForbidden, d))
  /\ (NODE_ENV <> Some "production"%string ->
      esegui (resetDatabase NODE_ENV) [] d = (Ok true, db_esempio)).
Proof.
  split.
  - intros He g. apply resetDatabase_produzione. apply is_production_spec.
    exact He.
  - intros Hne. apply resetDatabase_sviluppo.
    destruct (is_production NODE_ENV) eqn:Hp; [| reflexivity].
    apply is_production_spec in Hp. contradiction.
Qed.

Lemma resetDatabase_guard_witness :
  (forall g, esegui (resetDatabase (Some "production"%string)) g db_quattro
             = (Throw OperationForbidden, db_quattro))
  /\ esegui (resetDatabase (Some "development"%string)) [] db_quattro
     = (Ok true, db_esempio).
Proof.
  split.
  - apply (resetDatabase_guard (Some "production"%string) db_quattro).
    reflexivity.
  - apply (resetDatabase_guard (Some "development"%string) db_quattro).
    discriminate.
Defined.

(** ** Teams whose ratings sum to an odd number *)

Lemma mezzo_non_intero (x : R) (n : Z) : x = IZR n + / 2 -> ~ intero x.
Proof.
  intros Hx [z Hz]. rewrite Hx in Hz.
  assert (H : IZR (2 * z - 2 * n) = IZR 1).
  { rewrite minus_IZR, !mult_IZR. lra. }
  apply eq_IZR in H. lia.
Qed.

(** An integer rating cannot have moved by a half-integer. *)
Lemma differenza_non_mezza (a b n : Z) (x : R) :
  x = IZR n + / 2 -> IZR a - IZR b <> x.
Proof.
  intros Hx Heq. apply (mezzo_non_intero x n Hx).
  exists (a - b)%Z. rewrite minus_IZR. symmetry. exact Heq.
Qed.

(** Team 1 wins, both teams with mean [q + 1/2]: the team ratings move
    to integers, so the deltas are 16.5 and -15.5. *)
Lemma piano_mezzi (rows : list (Z * Z)) (squadra1 squadra2 : Z * Z)
    (a b c e q : Z) :
  crea_eloMap rows (fst squadra1) = Some a ->
  crea_eloMap rows (snd squadra1) = Some b ->
  crea_eloMap rows (fst squadra2) = Some c ->
  crea_eloMap rows (snd squadra2) = Some e ->
  (a + b = 2 * q + 1)%Z -> (c + e = 2 * q + 1)%Z ->
  calcola_piano rows squadra1 squadra2 1
  = mkPiano (33 / 2) (- 31 / 2)
      [ mkAgg (IZR a + 33 / 2) 1 (fst squadra1);
        mkAgg (IZR b + 33 / 2) 1 (snd squadra1);
        mkAgg (IZR c + - 31 / 2) 0 (fst squadra2);
        mkAgg (IZR e + - 31 / 2) 0 (snd squadra2) ].
Proof.
  intros Ha Hb Hc He Hab Hce.
  rewrite (calcola_piano_valori _ _ _ _ a b c e) by assumption.
  change (flag 1 1) with 1%Z. change (flag 1 2) with 0%Z.
  assert (Hm1 : (IZR a + IZR b) / 2 = IZR q + / 2).
  { rewrite <- plus_IZR, Hab, plus_IZR, mult_IZR. lra. }
  assert (Hm2 : (IZR c + IZR e) / 2 = IZR q + / 2).
  { rewrite <- plus_IZR, Hce, plus_IZR, mult_IZR. lra. }
  rewrite Hm1, Hm2.
  rewrite calcolaELO_32_win, calcolaELO_32_loss.
  rewrite (Math_round_Z_half (IZR q + / 2 + 16) (q + 16))
    by (rewrite plus_IZR; lra).
  rewrite (Math_round_Z_half (IZR q + / 2 - 16) (q - 16))
    by (rewrite minus_IZR; lra).
  replace (IZR (q + 16 + 1) - (IZR q + / 2)) with (33 / 2)
    by (rewrite !plus_IZR; lra).
  replace (IZR (q - 16 + 1) - (IZR q + / 2)) with (- 31 / 2)
    by (rewrite plus_IZR, minus_IZR; lra).
  reflexivity.
Qed.

(** [10 ^ (-2/25)] lies strictly between 29/35 and 31/33. *)
Lemma pow10_32 :
  29 / 35 < Math_pow10 ((1484 - 1516) / 400) < 31 / 33.
Proof.
  split.
  - apply (Math_pow10_gt _ 29 35 25 2);
      [lia | lia | lia | lia | lra | apply Z.ltb_lt; vm_compute; reflexivity].
  - apply (Math_pow10_lt _ 31 33 25 2);
      [lia | lia | lia | lia | lra | apply Z.ltb_lt; vm_compute; reflexivity].
Qed.

Lemma calcolaELO_1516_win : calcolaELO 1516 1484 1 32 = 1531%Z.
Proof.
  unfold calcolaELO. symmetry. apply Math_round_unique.
  pose proof (atteso_tra 1516 1484 (29 / 35) (31 / 33) ltac:(lra) pow10_32)
    as Hb.
  split; lra.
Qed.

Lemma calcolaELO_1484_loss : calcolaELO 1484 1516 0 32 = 1469%Z.
Proof.
  unfold calcolaELO. symmetry. apply Math_round_unique.
  assert (Hp : 33 / 31 < Math_pow10 ((1516 - 1484) / 400) < 35 / 29).
  { replace ((1516 - 1484) / 400) with (- ((1484 - 1516) / 400)) by lra.
    rewrite Math_pow10_opp.
    destruct pow10_32 as [H1 H2].
    split.
    - replace (33 / 31) with (/ (31 / 33)) by lra.
      apply Rinv_0_lt_contravar; lra.
    - replace (35 / 29) with (/ (29 / 35)) by lra.
      apply Rinv_0_lt_contravar; lra. }
  pose proof (atteso_tra 1484 1516 (33 / 31) (35 / 29) ltac:(lra) Hp) as Hb.
  split; lra.
Qed.

(** Team 1 wins with ratings 1516 and 1516 against 1484 and 1484. *)
Lemma piano_1516_1484 (rows : list (Z * Z)) (squadra1 squadra2 : Z * Z) :
  crea_eloMap rows (fst squadra1) = Some 1516%Z ->
  crea_eloMap rows (snd squadra1) = Some 1516%Z ->
  crea_eloMap rows (fst squadra2) = Some 1484%Z ->
  crea_eloMap rows (snd squadra2) = Some 1484%Z ->
  calcola_piano rows squadra1 squadra2 1
  = mkPiano 15 (-15)
      [ mkAgg 1531 1 (fst squadra1); mkAgg 1531 1 (snd squadra1);
        mkAgg 1469 0 (fst squadra2); mkAgg 1469 0 (snd squadra2) ].
Proof.
  intros Ha Hb Hc He.
  rewrite (calcola_piano_valori _ _ _ _ 1516 1516 1484 1484) by assumption.
  change (flag 1 1) with 1%Z. change (flag 1 2) with 0%Z.
  replace ((1516 + 1516) / 2) with 1516 by lra.
  replace ((1484 + 1484) / 2) with 1484 by lra.
  rewrite calcolaELO_1516_win, calcolaELO_1484_loss.
  repeat f_equal; lra.
Qed.

Section Dispari.

Variable INT_cast : R -> Z.

Ltac valuta' :=
  unfold aggiorna_riga, update_riga, UPDATE_riga, nuovo;
  cbn [giocatori partite auto_giocatori auto_partite map fold_left
       Giocatore.id Giocatore.nome Giocatore.ruolo Giocatore.elo
       Giocatore.partite Giocatore.vittorie Giocatore.sconfitte
       giocatoreId isVincitore nuovoElo aggiornamenti Z.eqb Pos.eqb
       fst snd app].

Ltac quattro_righe :=
  rewrite createPartita_senza_guasti;
  match goal with
  | |- context [(List.length ?l =? 4)%nat] =>
      change (List.length l =? 4)%nat with true
  end;
  cbv iota.

Lemma numeri_mezzi :
  3033 / 2 = IZR 1516 + / 2 /\ 3035 / 2 = IZR 1517 + / 2
  /\ 2971 / 2 = IZR 1485 + / 2 /\ 2969 / 2 = IZR 1484 + / 2
  /\ 3095 / 2 = IZR 1547 + / 2 /\ 3031 / 2 = IZR 1515 + / 2
  /\ 33 / 2 = IZR 16 + / 2 /\ - 31 / 2 = IZR (-16) + / 2.
Proof. repeat split; lra. Qed.

(** Ratings 1500 and 1501 in each team, 1 and 2 beating 3 and 4: the
    deltas are 16.5 and -15.5, and none of the four values bound to
    [elo = ?] is an integer. *)
Lemma createPartita_dispari :
  esegui (createPartita INT_cast (1, 2)%Z (3, 4)%Z 1) [] db_dispari
  = (Ok (mkEsito 1 (1, 2)%Z (3, 4)%Z 1 (33 / 2) (- 31 / 2)),
     db_dispari_1 INT_cast)
  /\ ~ intero (33 / 2) /\ ~ intero (- 31 / 2)
  /\ ~ intero (3033 / 2) /\ ~ intero (3035 / 2)
  /\ ~ intero (2971 / 2) /\ ~ intero (2969 / 2)
  /\ IZR (INT_cast (3033 / 2)) - IZR 1500 <> 33 / 2
  /\ IZR (INT_cast (3035 / 2)) - IZR 1501 <> 33 / 2
  /\ IZR (INT_cast (2971 / 2)) - IZR 1501 <> - 31 / 2
  /\ IZR (INT_cast (2969 / 2)) - IZR 1500 <> - 31 / 2.
Proof.
  destruct numeri_mezzi as (H1 & H2 & H3 & H4 & _ & _ & H7 & H8).
  split.
  - quattro_righe.
    rewrite scrivi_eq.
    rewrite (piano_mezzi _ _ _ 1500 1501 1501 1500 1500)
      by (reflexivity || lia).
    cbn [deltaElo1 deltaElo2]. f_equal.
    unfold db_dispari, db_dispari_1. valuta'.
    replace (1500 + 33 / 2) with (3033 / 2) by lra.
    replace (1501 + 33 / 2) with (3035 / 2) by lra.
    replace (1501 + - 31 / 2) with (2971 / 2) by lra.
    replace (1500 + - 31 / 2) with (2969 / 2) by lra.
    reflexivity.
  - repeat split;
      first [ eapply mezzo_non_intero; eassumption
            | eapply differenza_non_mezza; eassumption ].
Qed.

End Dispari.

(** A delta taken from a team mean with an odd rating sum is a
    half-integer. *)
Lemma delta_mezzo (n a b : Z) :
  Z.odd (a + b) = true ->
  exists m : Z, IZR n - (IZR a + IZR b) / 2 = IZR m + / 2.
Proof.
  intros Hodd. apply Z.odd_spec in Hodd. destruct Hodd as [q Hq].
  exists (n - q - 1)%Z.
  rewrite <- plus_IZR, Hq, plus_IZR, mult_IZR, !minus_IZR. lra.
Qed.

(** The defect in general: whenever a recorded match has a first team
    whose two ratings sum to an odd number, the delta returned for that
    team and the two values bound to [elo = ?] for its members are not
    integers. *)
Lemma createPartita_media_dispari (INT_cast : R -> Z)
  (squadra1 squadra2 : Z * Z) (vincitore : Z) (g : list bool)
  (d : database) (ris : esito_partita) (d' : database)
  (g1 g2 : Giocatore.t) :
  primary_key d ->
  esegui (createPartita INT_cast squadra1 squadra2 vincitore) g d
  = (Ok ris, d') ->
  riga (fst squadra1) d = Some g1 ->
  riga (snd squadra1) d = Some g2 ->
  Z.odd (Giocatore.elo g1 + Giocatore.elo g2) = true ->
  ~ intero (squadra1_delta ris)
  /\ ~ intero (IZR (Giocatore.elo g1) + squadra1_delta ris)
  /\ ~ intero (IZR (Giocatore.elo g2) + squadra1_delta ris).
Proof.
  intros Hpk E Hg1 Hg2 Hodd.
  destruct (createPartita_run INT_cast squadra1 squadra2 vincitore g d
              (Ok ris) d' E)
    as [(e & He & _) | (H4 & Hr & _)]; [discriminate |].
  assert (Hd : squadra1_delta ris
               = deltaElo1
                   (calcola_piano (select_elo (tutti squadra1 squadra2) d)
                      squadra1 squadra2 vincitore))
    by (injection Hr as ->; reflexivity).
  rewrite Hd. clear Hd Hr.
  apply (select_quattro squadra1 squadra2 d Hpk) in H4.
  destruct H4 as [_ Hall]. rewrite Forall_forall in Hall.
  assert (H3 : exists g3, riga (fst squadra2) d = Some g3).
  { apply esiste_riga, Hall. cbn. tauto. }
  assert (H4 : exists g4, riga (snd squadra2) d = Some g4).
  { apply esiste_riga, Hall. cbn. tauto. }
  destruct H3 as [g3 Hg3]. destruct H4 as [g4 Hg4].
  rewrite (calcola_piano_valori _ _ _ _
             (Giocatore.elo g1) (Giocatore.elo g2)
             (Giocatore.elo g3) (Giocatore.elo g4));
    try (apply eloMap_presente; [exact Hpk | cbn; tauto | assumption]).
  cbn [deltaElo1].
  destruct (delta_mezzo
              (calcolaELO
                 ((IZR (Giocatore.elo g1) + IZR (Giocatore.elo g2)) / 2)
                 ((IZR (Giocatore.elo g3) + IZR (Giocatore.elo g4)) / 2)
                 (IZR (flag vincitore 1)) 32)
              (Giocatore.elo g1) (Giocatore.elo g2) Hodd) as [m Hm].
  rewrite Hm. repeat split.
  - apply (mezzo_non_intero _ m). reflexivity.
  - apply (mezzo_non_intero _ (Giocatore.elo g1 + m)).
    rewrite plus_IZR. lra.
  - apply (mezzo_non_intero _ (Giocatore.elo g2 + m)).
    rewrite plus_IZR. lra.
Qed.

Section Raggiungibile.

Variable INT_cast : R -> Z.
Variable LOWER : string -> string.
Variable NODE_ENV : option string.
Hypothesis INT_cast_intero : forall z : Z, INT_cast (IZR z) = z.

Ltac valuta :=
  unfold aggiorna_riga, update_riga, UPDATE_riga, nuovo;
  cbn [giocatori partite auto_giocatori auto_partite map fold_left
       Giocatore.id Giocatore.nome Giocatore.ruolo Giocatore.elo
       Giocatore.partite Giocatore.vittorie Giocatore.sconfitte
       giocatoreId isVincitore nuovoElo aggiornamenti Z.eqb Pos.eqb
       fst snd app];
  rewrite ?INT_cast_intero.

Ltac quattro_righe :=
  rewrite createPartita_senza_guasti;
  match goal with
  | |- context [(List.length ?l =? 4)%nat] =>
      change (List.length l =? 4)%nat with true
  end;
  cbv iota.

Lemma esempio_0 : esegui insertSampleData [] database_vuoto = (Ok tt, db_esempio).
Proof.
  unfold esegui, database_vuoto. rewrite insertSampleData_vuoto. reflexivity.
Qed.

Lemma esempio_1 :
  esegui (createPartita INT_cast (1, 2)%Z (3, 4)%Z 1) [] db_esempio
  = (Ok (mkEsito 1 (1, 2)%Z (3, 4)%Z 1 16 (-16)), db_esempio_1).
Proof.
  quattro_righe. rewrite scrivi_eq, piano_1500 by reflexivity.
  cbn [deltaElo1 deltaElo2]. f_equal.
  unfold db_esempio, db_esempio_1. valuta. reflexivity.
Qed.

Lemma esempio_2 :
  esegui (createPartita INT_cast (1, 2)%Z (3, 4)%Z 1) [] db_esempio_1
  = (Ok (mkEsito 2 (1, 2)%Z (3, 4)%Z 1 15 (-15)), db_esempio_2).
Proof.
  quattro_righe. rewrite scrivi_eq, piano_1516_1484 by reflexivity.
  cbn [deltaElo1 deltaElo2]. f_equal.
  unfold db_esempio_1, db_esempio_2. valuta. reflexivity.
Qed.

Lemma esempio_3 :
  esegui (createPartita INT_cast (1, 5)%Z (2, 6)%Z 1) [] db_esempio_2
  = (Ok (mkEsito 3 (1, 5)%Z (2, 6)%Z 1 (33 / 2) (- 31 / 2)),
     db_esempio_3 INT_cast).
Proof.
  quattro_righe. rewrite scrivi_eq.
  rewrite (piano_mezzi _ _ _ 1531 1500 1531 1500 1515)
    by (reflexivity || lia).
  cbn [deltaElo1 deltaElo2]. f_equal.
  unfold db_esempio_2, db_esempio_3.
  unfold aggiorna_riga, update_riga, UPDATE_riga, nuovo;
  cbn [giocatori partite auto_giocatori auto_partite map fold_left
       Giocatore.id Giocatore.nome Giocatore.ruolo Giocatore.elo
       Giocatore.partite Giocatore.vittorie Giocatore.sconfitte
       giocatoreId isVincitore nuovoElo aggiornamenti Z.eqb Pos.eqb
       fst snd app].
  replace (1531 + 33 / 2) with (3095 / 2) by lra.
  replace (1500 + 33 / 2) with (3033 / 2) by lra.
  replace (1531 + - 31 / 2) with (3031 / 2) by lra.
  replace (1500 + - 31 / 2) with (2969 / 2) by lra.
  reflexivity.
Qed.

Lemma raggiungibile_esempio_2 :
  raggiungibile INT_cast LOWER NODE_ENV db_esempio_2.
Proof.
  assert (H0 : raggiungibile INT_cast LOWER NODE_ENV db_esempio).
  { replace db_esempio
      with (dopo INT_cast LOWER NODE_ENV InsertSampleData [] database_vuoto)
      by (cbn [dopo]; rewrite esempio_0; reflexivity).
    apply ragg_passo, ragg_vuoto. }
  assert (H1 : raggiungibile INT_cast LOWER NODE_ENV db_esempio_1).
  { replace db_esempio_1
      with (dopo INT_cast LOWER NODE_ENV (CreatePartita (1, 2) (3, 4) 1)%Z
              [] db_esempio)
      by (cbn [dopo]; rewrite esempio_1; reflexivity).
    apply ragg_passo, H0. }
  replace db_esempio_2
    with (dopo INT_cast LOWER NODE_ENV (CreatePartita (1, 2) (3, 4) 1)%Z
            [] db_esempio_1)
    by (cbn [dopo]; rewrite esempio_2; reflexivity).
  apply ragg_passo, H1.
Qed.

(** C2 on the code: from the empty schema, insert the sample players
    and record twice that 1 and 2 beat 3 and 4; the ratings are then
    1531, 1531, 1469, 1469, 1500, 1500.  Recording that 1 and 5 beat 2
    and 6 (team means 1515.5 both) returns the deltas 16.5 and -15.5
    and binds 1547.5, 1516.5, 1515.5 and 1484.5 to [elo = ?]: none of
    these is an integer, and whatever integer the server stores, the
    change of a player's stored rating differs from the delta
    returned. *)
Theorem createPartita_rating_non_intero :
  raggiungibile INT_cast LOWER NODE_ENV db_esempio_2
  /\ esegui (createPartita INT_cast (1, 5)%Z (2, 6)%Z 1) [] db_esempio_2
     = (Ok (mkEsito 3 (1, 5)%Z (2, 6)%Z 1 (33 / 2) (- 31 / 2)),
        db_esempio_3 INT_cast)
  /\ map nuovoElo
       (aggiornamenti
          (calcola_piano (select_elo (tutti (1, 5) (2, 6))%Z db_esempio_2)
             (1, 5)%Z (2, 6)%Z 1))
     = [3095 / 2; 3033 / 2; 3031 / 2; 2969 / 2]
  /\ ~ intero (33 / 2) /\ ~ intero (- 31 / 2)
  /\ ~ intero (3095 / 2) /\ ~ intero (3033 / 2)
  /\ ~ intero (3031 / 2) /\ ~ intero (2969 / 2)
  /\ IZR (INT_cast (3095 / 2)) - IZR 1531 <> 33 / 2
  /\ IZR (INT_cast (3033 / 2)) - IZR 1500 <> 33 / 2
  /\ IZR (INT_cast (3031 / 2)) - IZR 1531 <> - 31 / 2
  /\ IZR (INT_cast (2969 / 2)) - IZR 1500 <> - 31 / 2.
Proof.
  destruct numeri_mezzi as (H1 & _ & _ & H4 & H5 & H6 & H7 & H8).
  split; [apply raggiungibile_esempio_2 |].
  split; [apply esempio_3 |].
  split.
  { rewrite (piano_mezzi _ _ _ 1531 1500 1531 1500 1515)
      by (reflexivity || lia).
    cbn [aggiornamenti map nuovoElo fst snd].
    replace (1531 + 33 / 2) with (3095 / 2) by lra.
    replace (1500 + 33 / 2) with (3033 / 2) by lra.
    replace (1531 + - 31 / 2) with (3031 / 2) by lra.
    replace (1500 + - 31 / 2) with (2969 / 2) by lra.
    reflexivity. }
  repeat split;
    first [ eapply mezzo_non_intero; eassumption
          | eapply differenza_non_mezza; eassumption ].
Qed.

End Raggiungibile.

(** ** [createGiocatore], further *)

Lemma primary_key_insert (d : database) (n : string) (r : ruolo) :
  primary_key d -> primary_key (snd (insert_giocatore n r d)).
Proof.
  intros (Hnd & Hpos & Hb). cbn [insert_giocatore snd].
  split; [| split]; cbn [giocatori auto_giocatori].
  - rewrite map_app. cbn [map Giocatore.id].
    apply NoDup_app; [exact Hnd | prova_NoDup | ].
    intros i Hi [Heq | []]. subst i.
    apply in_map_iff in Hi. destruct Hi as [g [Hid Hin]].
    rewrite Forall_forall in Hb. specialize (Hb g Hin). lia.
  - lia.
  - apply Forall_app. split.
    + eapply Forall_impl; [| exact Hb]. cbv beta. intros g Hg. lia.
    + apply Forall_cons; [| apply Forall_nil]. cbn [Giocatore.id]. lia.
Qed.

Section CreaGiocatore.

Variable LOWER : string -> string.

(** Every run of [createGiocatore], with what decided it. *)
Lemma createGiocatore_esiti (nome : string) (r : ruolo) (g : list bool)
    (d : database) (res : esito Giocatore.t) (d' : database) :
  esegui (createGiocatore LOWER nome r) g d = (res, d') ->
  (res = Throw DriverError /\ d' = d)
  \/ (res = Throw DuplicatePlayer /\ d' = d
      /\ select_per_nome LOWER nome d <> [])
  \/ (res = Ok (Giocatore.mk (auto_giocatori d) nome r 1500 0 0 0)
      /\ d' = snd (insert_giocatore nome r d)
      /\ select_per_nome LOWER nome d = []).
Proof.
  intros E.
  unfold esegui, createGiocatore, execute_query, execute_insert_giocatore,
    bind, try_catch, throw, ret in E.
  destruct (driver_cases
              (fun d0 => (select_per_nome LOWER nome d0, d0))
              (mkMondo d g None)) as [[rest H] | [rest H]];
    rewrite H in E; clear H; cbn [fst snd db guasti transazione] in E.
  { injection E as <- <-. left. split; reflexivity. }
  destruct (select_per_nome LOWER nome d) as [| i l] eqn:Hsel;
    cbn [List.length Nat.ltb Nat.leb] in E.
  2:{ injection E as <- <-. right. left. repeat split. discriminate. }
  destruct (driver_cases (insert_giocatore nome r) (mkMondo d rest None))
    as [[rest' H] | [rest' H]];
    rewrite H in E; clear H; cbn [fst snd db guasti transazione] in E.
  { injection E as <- <-. left. split; reflexivity. }
  injection E as <- <-. right. right. repeat split.
Qed.

Lemma createGiocatore_senza_guasti (nome : string) (r : ruolo) (d : database) :
  esegui (createGiocatore LOWER nome r) [] d
  = match select_per_nome LOWER nome d with
    | [] => (Ok (Giocatore.mk (auto_giocatori d) nome r 1500 0 0 0),
             snd (insert_giocatore nome r d))
    | _ :: _ => (Throw DuplicatePlayer, d)
    end.
Proof.
  unfold esegui, createGiocatore, execute_query, execute_insert_giocatore,
    bind, try_catch, throw, ret.
  rewrite driver_senza_guasti. cbn [fst snd].
  destruct (select_per_nome LOWER nome d) as [| i l];
    cbn [List.length Nat.ltb Nat.leb].
  - rewrite driver_senza_guasti. reflexivity.
  - reflexivity.
Qed.

(** The name check finds a row exactly when some player's name agrees
    with the new one under [LOWER]. *)
Lemma select_per_nome_vuoto (nome : string) (d : database) :
  select_per_nome LOWER nome d = []
  <-> forall g0, In g0 (giocatori d) ->
                 LOWER (Giocatore.nome g0) <> LOWER nome.
Proof.
  unfold select_per_nome. split.
  - intros Hs g0 Hin Heq.
    apply map_eq_nil in Hs.
    assert (Hf : In g0 (filter
                          (fun g => String.eqb (LOWER (Giocatore.nome g))
                                      (LOWER nome))
                          (giocatori d))).
    { apply filter_In. split; [exact Hin |]. apply String.eqb_eq. exact Heq. }
    rewrite Hs in Hf. exact Hf.
  - intros Hall.
    destruct (filter
                (fun g => String.eqb (LOWER (Giocatore.nome g)) (LOWER nome))
                (giocatori d)) as [| g0 l] eqn:Hf; [reflexivity |].
    exfalso.
    assert (Hin : In g0 (g0 :: l)) by (left; reflexivity).
    rewrite <- Hf in Hin. apply filter_In in Hin. destruct Hin as [Hin Heq].
    apply String.eqb_eq in Heq. exact (Hall g0 Hin Heq).
Qed.

(** X1: a name that agrees under LOWER with the name of a player already
    in the table is refused: whatever the driver does the call throws
    and the database is the one before the call, and when the driver
    raises nothing the error is the already-exists one. *)
Theorem createGiocatore_duplicato (nome : string) (r : ruolo) (d : database) :
  (exists g0, In g0 (giocatori d)
              /\ LOWER (Giocatore.nome g0) = LOWER nome) ->
  (forall g, exists e,
      esegui (createGiocatore LOWER nome r) g d = (Throw e, d))
  /\ esegui (createGiocatore LOWER nome r) [] d = (Throw DuplicatePlayer, d).
Proof.
  intros (g0 & Hin & Heq).
  assert (Hne : select_per_nome LOWER nome d <> []).
  { intros Hs. apply (proj1 (select_per_nome_vuoto nome d) Hs g0 Hin Heq). }
  split.
  - intros g.
    destruct (esegui (createGiocatore LOWER nome r) g d) as [res d'] eqn:E.
    destruct (createGiocatore_esiti nome r g d res d' E)
      as [[-> ->] | [(-> & -> & _) | (_ & _ & Hs)]].
    + eexists. reflexivity.
    + eexists. reflexivity.
    + contradiction.
  - rewrite createGiocatore_senza_guasti.
    destruct (select_per_nome LOWER nome d); [contradiction | reflexivity].
Qed.

(** X2: a call that returns has found no player whose name agrees with
    the new one under LOWER; the row it returns carries the id the
    counter held, which no row had; the table is the old one with that
    row appended, every earlier player is found as before, the match
    table is untouched and the primary key still holds. *)
Theorem createGiocatore_nuovo (nome : string) (r : ruolo) (g : list bool)
    (d : database) (row : Giocatore.t) (d' : database) :
  primary_key d ->
  esegui (createGiocatore LOWER nome r) g d = (Ok row, d') ->
  (forall g0, In g0 (giocatori d) ->
              LOWER (Giocatore.nome g0) <> LOWER nome)
  /\ row = Giocatore.mk (auto_giocatori d) nome r 1500 0 0 0
  /\ ~ esiste (Giocatore.id row) d
  /\ giocatori d' = giocatori d ++ [row]
  /\ partite d' = partite d
  /\ (forall i, esiste i d -> riga i d' = riga i d)
  /\ primary_key d'.
Proof.
  intros Hpk E.
  destruct (createGiocatore_esiti nome r g d (Ok row) d' E)
    as [[H _] | [(H & _) | (Hrow & Hd & Hs)]]; try discriminate.
  injection Hrow as ->. subst d'.
  split; [apply select_per_nome_vuoto; exact Hs |].
  split; [reflexivity |].
  split.
  { cbn [Giocatore.id]. intros Hex. unfold esiste in Hex.
    apply in_map_iff in Hex. destruct Hex as (g0 & Hid & Hin).
    destruct Hpk as (_ & _ & Hb). rewrite Forall_forall in Hb.
    specialize (Hb g0 Hin). lia. }
  split; [reflexivity |]. split; [reflexivity |].
  split.
  { intros i Hex. apply esiste_riga in Hex. destruct Hex as [g0 Hg0].
    unfold riga in *. cbn [insert_giocatore snd giocatori].
    rewrite find_app, Hg0. reflexivity. }
  apply primary_key_insert. exact Hpk.
Qed.

End CreaGiocatore.

(** ** [insertSampleData], further *)

Lemma righe_esempio_length (start : Z) (l : list (string * ruolo)) :
  List.length (righe_esempio start l) = List.length l.
Proof.
  revert start. induction l as [| p l IH]; intros start; [reflexivity |].
  cbn [righe_esempio List.length]. rewrite IH. reflexivity.
Qed.

(** With nothing left in the fault schedule the driver runs the
    statement, and nothing is left after it. *)
Lemma driver_senza_guasti_riesce {A} (f : database -> A * database)
    (w : mondo) (r : esito A) (w' : mondo) :
  driver f w = (r, w') -> guasti w = [] -> r = Ok (fst (f (db w))).
Proof.
  intros H Hg. unfold driver in H. rewrite Hg in H.
  destruct (f (db w)). injection H as <- _. reflexivity.
Qed.

Lemma driver_guasti_vuoti {A} (f : database -> A * database)
    (w : mondo) (r : esito A) (w' : mondo) :
  driver f w = (r, w') -> guasti w = [] -> guasti w' = [].
Proof.
  intros H Hg. unfold driver in H. rewrite Hg in H.
  destruct (f (db w)). injection H as _ <-. reflexivity.
Qed.

(** The loop of [insertSampleData] from any state: the rows of the first
    [k] players are appended, where [k] counts the inserts before the
    first one the driver refused. *)
Lemma for_of_insert (l : list (string * ruolo)) (w : mondo)
    (r : esito unit) (w' : mondo) :
  for_of l (fun p => execute_insert_giocatore (fst p) (snd p) ;; ret tt)%M w
  = (r, w') ->
  exists k : nat,
    (k <= List.length l)%nat
    /\ giocatori (db w')
       = giocatori (db w) ++ righe_esempio (auto_giocatori (db w)) (firstn k l)
    /\ partite (db w') = partite (db w)
    /\ auto_giocatori (db w') = (auto_giocatori (db w) + Z.of_nat k)%Z
    /\ auto_partite (db w') = auto_partite (db w)
    /\ (guasti w = [] -> k = List.length l).
Proof.
  revert w. induction l as [| p l IH]; intros w E.
  - exists 0%nat. cbn [for_of ret] in E. injection E as _ <-.
    cbn [firstn righe_esempio List.length].
    rewrite app_nil_r. repeat split; try reflexivity; lia.
  - cbn [for_of] in E. unfold bind at 1 in E. unfold bind at 1 in E.
    unfold execute_insert_giocatore, ret at 1 in E.
    destruct (driver_cases (insert_giocatore (fst p) (snd p)) w)
      as [[rest H] | [rest H]]; rewrite H in E.
    + injection E as _ <-.
      exists 0%nat. cbn [snd db firstn righe_esempio List.length].
      rewrite app_nil_r.
      split; [lia |]. do 4 (split; [reflexivity || lia |]).
      intros Hg. exfalso.
      apply (driver_senza_guasti_riesce _ _ _ _ H) in Hg. discriminate.
    + destruct (IH _ E) as (k & Hk & Hg & Hp & Hag & Hap & Hall).
      exists (S k).
      cbn [db insert_giocatore snd giocatori partite auto_giocatori
           auto_partite] in Hg, Hp, Hag, Hap.
      cbn [firstn righe_esempio List.length].
      split; [lia |].
      split; [rewrite Hg, <- app_assoc; reflexivity |].
      split; [exact Hp |].
      split; [rewrite Hag; lia |].
      split; [exact Hap |].
      intros Hw. f_equal. apply Hall. cbn [guasti].
      apply (driver_guasti_vuoti _ _ _ _ H) in Hw. exact Hw.
Qed.

Lemma insertSampleData_corsa (g : list bool) (d : database) :
  exists k : nat,
    (k <= 6)%nat
    /\ esegui insertSampleData g d
       = (Ok tt,
          mkDb (giocatori d
                ++ righe_esempio (auto_giocatori d) (firstn k samplePlayers))
               (partite d)
               (auto_giocatori d + Z.of_nat k)
               (auto_partite d))
    /\ (giocatori d <> [] -> k = 0%nat)
    /\ (giocatori d = [] -> g = [] -> k = 6%nat).
Proof.
  assert (Hzero :
    (Ok tt, d)
    = (Ok tt,
       mkDb (giocatori d ++ righe_esempio (auto_giocatori d)
                              (firstn 0 samplePlayers))
            (partite d) (auto_giocatori d + Z.of_nat 0) (auto_partite d))).
  { cbn [firstn righe_esempio Z.of_nat]. rewrite app_nil_r, Z.add_0_r,
      database_eta. reflexivity. }
  unfold esegui, insertSampleData, try_catch, execute_query.
  unfold bind at 1.
  destruct (driver_cases (fun d0 => (List.length (giocatori d0), d0))
              (mkMondo d g None)) as [[rest H] | [rest H]]; rewrite H.
  { exists 0%nat. cbn [ret db].
    split; [lia |]. split; [exact Hzero |]. split; [reflexivity |].
    intros _ Hg. exfalso.
    apply (driver_senza_guasti_riesce _ _ _ _ H) in Hg. discriminate. }
  cbn [fst snd db transazione].
  destruct (List.length (giocatori d)) as [| n] eqn:Hlen; cbn [Nat.eqb].
  2:{ cbn [ret db].
      exists 0%nat. split; [lia |].
      split; [exact Hzero |].
      split; [reflexivity |].
      intros Hv. rewrite Hv in Hlen. discriminate. }
  assert (Hgd : giocatori d = []) by (apply length_zero_iff_nil; exact Hlen).
  destruct (for_of samplePlayers
              (fun p => execute_insert_giocatore (fst p) (snd p) ;; ret tt)%M
              (mkMondo d rest None)) as [r w1] eqn:E.
  destruct (for_of_insert samplePlayers _ r w1 E)
    as (k & Hk & Hg & Hp & Hag & Hap & Hall).
  cbn [db] in Hg, Hp, Hag, Hap.
  exists k.
  split; [exact Hk |].
  assert (Hdb :
    db w1
    = mkDb (giocatori d
            ++ righe_esempio (auto_giocatori d) (firstn k samplePlayers))
        (partite d) (auto_giocatori d + Z.of_nat k) (auto_partite d)).
  { rewrite <- (database_eta (db w1)). rewrite Hg, Hp, Hag, Hap.
    reflexivity. }
  split.
  { destruct r as [[] | e]; cbn [ret db]; rewrite Hdb; reflexivity. }
  split; [intros Hne; contradiction |].
  intros _ Hgv. apply Hall. cbn [guasti].
  apply (driver_guasti_vuoti _ _ _ _ H) in Hgv. exact Hgv.
Qed.

(** The driver on a schedule whose first entry is known. *)
Lemma driver_guasto {A} (f : database -> A * database) (d : database)
    (rest : list bool) (t : option (list Giocatore.t * list Partita.t)) :
  driver f (mkMondo d (true :: rest) t)
  = (Throw DriverError, mkMondo d rest t).
Proof. reflexivity. Qed.

Lemma driver_riuscito {A} (f : database -> A * database) (d : database)
    (rest : list bool) (t : option (list Giocatore.t * list Partita.t)) :
  driver f (mkMondo d (false :: rest) t)
  = (Ok (fst (f d)), mkMondo (snd (f d)) rest t).
Proof. unfold driver. cbn. destruct (f d); reflexivity. Qed.

(** The loop when the driver refuses the insert number [j + 1]: the
    first [j] rows are in, and the loop throws. *)
Lemma for_of_insert_fino (l : list (string * ruolo)) (j : nat)
    (rest : list bool) (d : database)
    (t : option (list Giocatore.t * list Partita.t)) :
  (j < List.length l)%nat ->
  exists w',
    for_of l (fun p => execute_insert_giocatore (fst p) (snd p) ;; ret tt)%M
      (mkMondo d (repeat false j ++ true :: rest) t)
    = (Throw DriverError, w')
    /\ db w'
       = mkDb (giocatori d ++ righe_esempio (auto_giocatori d) (firstn j l))
           (partite d) (auto_giocatori d + Z.of_nat j) (auto_partite d).
Proof.
  revert j d. induction l as [| p l IH]; intros j d Hj;
    [cbn in Hj; lia |].
  cbn [for_of]. unfold bind at 1. unfold bind at 1.
  unfold execute_insert_giocatore, ret at 1.
  destruct j as [| j].
  - cbn [repeat app]. rewrite driver_guasto.
    eexists. split; [reflexivity |].
    cbn [db firstn righe_esempio Z.of_nat].
    rewrite app_nil_r, Z.add_0_r, database_eta. reflexivity.
  - cbn [repeat app]. rewrite driver_riuscito.
    cbn [List.length] in Hj.
    destruct (IH j (snd (insert_giocatore (fst p) (snd p) d))
                ltac:(lia)) as (w' & Hrun & Hdb).
    exists w'. split; [exact Hrun |]. rewrite Hdb.
    cbn [insert_giocatore snd giocatori partite auto_giocatori auto_partite
         firstn righe_esempio].
    rewrite <- app_assoc. cbn [app]. f_equal. lia.
Qed.

(** The loop when the driver refuses none of the inserts. *)
Lemma for_of_insert_tutti (l : list (string * ruolo)) (g : list bool)
    (d : database) (t : option (list Giocatore.t * list Partita.t)) :
  Forall (fun b => b = false) (firstn (List.length l) g) ->
  exists w',
    for_of l (fun p => execute_insert_giocatore (fst p) (snd p) ;; ret tt)%M
      (mkMondo d g t)
    = (Ok tt, w')
    /\ db w'
       = mkDb (giocatori d ++ righe_esempio (auto_giocatori d) l)
           (partite d) (auto_giocatori d + Z.of_nat (List.length l))
           (auto_partite d).
Proof.
  revert g d. induction l as [| p l IH]; intros g d Hg.
  - cbn [for_of ret]. eexists. split; [reflexivity |].
    cbn [db righe_esempio List.length Z.of_nat].
    rewrite app_nil_r, Z.add_0_r, database_eta. reflexivity.
  - cbn [for_of]. unfold bind at 1. unfold bind at 1.
    unfold execute_insert_giocatore, ret at 1.
    assert (Hstep :
      exists g',
        driver (insert_giocatore (fst p) (snd p)) (mkMondo d g t)
        = (Ok (fst (insert_giocatore (fst p) (snd p) d)),
           mkMondo (snd (insert_giocatore (fst p) (snd p) d)) g' t)
        /\ Forall (fun b => b = false) (firstn (List.length l) g')).
    { destruct g as [| b g].
      - exists []. split; [apply driver_senza_guasti |].
        rewrite firstn_nil. constructor.
      - cbn [List.length firstn] in Hg.
        inversion Hg as [| ? ? Hb Hrest]; subst.
        exists g. split; [apply driver_riuscito | exact Hrest]. }
    destruct Hstep as (g' & Hd & Hg').
    rewrite Hd.
    destruct (IH g' (snd (insert_giocatore (fst p) (snd p) d)) Hg')
      as (w' & Hrun & Hdb).
    exists w'. split; [exact Hrun |]. rewrite Hdb.
    cbn [insert_giocatore snd giocatori partite auto_giocatori auto_partite
         righe_esempio List.length].
    rewrite <- app_assoc. cbn [app]. f_equal. lia.
Qed.

(** X4: [insertSampleData] never throws and never touches a table that
    has a row.  All it ever does is append, to an empty table, the rows
    of the first k of the six sample players, numbered from the counter,
    each at 1500 with no match played.  When the driver refuses the
    count query nothing is inserted; when it refuses the insert number
    j + 1 exactly the first j sample players are in the table; when it
    refuses none of the seven statements all six are.  In each case the
    call returns, and the caller is not told. *)
Theorem insertSampleData_prefisso :
  (forall g d,
      exists k : nat,
        (k <= 6)%nat
        /\ esegui insertSampleData g d
           = (Ok tt,
              mkDb (giocatori d
                    ++ righe_esempio (auto_giocatori d)
                         (firstn k samplePlayers))
                   (partite d)
                   (auto_giocatori d + Z.of_nat k)
                   (auto_partite d))
        /\ (giocatori d <> [] -> k = 0%nat))
  /\ (forall rest d, esegui insertSampleData (true :: rest) d = (Ok tt, d))
  /\ (forall (j : nat) rest d,
        giocatori d = [] -> (j < 6)%nat ->
        esegui insertSampleData (false :: repeat false j ++ true :: rest) d
        = (Ok tt,
           mkDb (righe_esempio (auto_giocatori d) (firstn j samplePlayers))
                (partite d)
                (auto_giocatori d + Z.of_nat j)
                (auto_partite d)))
  /\ (forall g d,
        giocatori d = [] ->
        Forall (fun b => b = false) (firstn 7 g) ->
        esegui insertSampleData g d
        = (Ok tt,
           mkDb (righe_esempio (auto_giocatori d) samplePlayers)
                (partite d)
                (auto_giocatori d + 6)
                (auto_partite d))).
Proof.
  split; [| split; [| split]].
  - intros g d. destruct (insertSampleData_corsa g d)
      as (k & Hk & E & Hne & _).
    exists k. split; [exact Hk |]. split; [exact E | exact Hne].
  - intros rest d.
    unfold esegui, insertSampleData, try_catch, execute_query.
    unfold bind at 1. rewrite driver_guasto. reflexivity.
  - intros j rest d Hvuoto Hj.
    unfold esegui, insertSampleData, try_catch, execute_query.
    unfold bind at 1. rewrite driver_riuscito. cbn [fst snd].
    rewrite Hvuoto. cbn [List.length Nat.eqb].
    destruct (for_of_insert_fino samplePlayers j rest d None
                ltac:(cbn; lia)) as (w' & Hrun & Hdb).
    rewrite Hrun. cbn [ret]. rewrite Hdb, Hvuoto. reflexivity.
  - intros g d Hvuoto Hg.
    unfold esegui, insertSampleData, try_catch, execute_query.
    unfold bind at 1.
    assert (Hstep :
      exists g',
        driver (fun d0 => (List.length (giocatori d0), d0))
          (mkMondo d g None)
        = (Ok (List.length (giocatori d)), mkMondo d g' None)
        /\ Forall (fun b => b = false) (firstn 6 g')).
    { destruct g as [| b g].
      - exists []. split; [apply driver_senza_guasti | constructor].
      - cbn [firstn] in Hg. inversion Hg as [| ? ? Hb Hrest]; subst.
        exists g. split; [apply driver_riuscito | exact Hrest]. }
    destruct Hstep as (g' & Hd & Hg'). rewrite Hd.
    rewrite Hvuoto. cbn [List.length Nat.eqb].
    destruct (for_of_insert_tutti samplePlayers g' d None Hg')
      as (w' & Hrun & Hdb).
    rewrite Hrun. rewrite Hdb, Hvuoto. reflexivity.
Qed.

(** ** [resetDatabase] when the driver fails *)

Lemma resetDatabase_corsa (NODE_ENV : option string) (g : list bool)
    (d : database) (res : esito bool) (d' : database) :
  is_production NODE_ENV = false ->
  esegui (resetDatabase NODE_ENV) g d = (res, d') ->
  (res = Throw DriverError
   /\ (d' = d \/ d' = truncate_partite d
       \/ d' = truncate_giocatori (truncate_partite d)))
  \/ (res = Ok true
      /\ exists k : nat,
           (k <= 6)%nat
           /\ d' = mkDb (righe_esempio 1 (firstn k samplePlayers)) []
                     (1 + Z.of_nat k) 1).
Proof.
  intros Hnp E.
  unfold esegui, resetDatabase, try_catch, execute_ddl, throw in E.
  rewrite Hnp in E.
  unfold bind at 1, ret at 1 in E.
  unfold bind at 1 in E.
  destruct (driver_cases (fun d0 => (tt, d0)) (mkMondo d g None))
    as [[r1 H] | [r1 H]]; rewrite H in E; clear H;
    cbn [fst snd db transazione] in E.
  { injection E as <- <-. left. split; [reflexivity |]. left. reflexivity. }
  unfold bind at 1 in E.
  destruct (driver_cases (fun d0 => (tt, truncate_partite d0))
              (mkMondo d r1 None))
    as [[r2 H] | [r2 H]]; rewrite H in E; clear H;
    cbn [fst snd db transazione] in E.
  { injection E as <- <-. left. split; [reflexivity |]. left. reflexivity. }
  unfold bind at 1 in E.
  destruct (driver_cases (fun d0 => (tt, truncate_giocatori d0))
              (mkMondo (truncate_partite d) r2 None))
    as [[r3 H] | [r3 H]]; rewrite H in E; clear H;
    cbn [fst snd db transazione] in E.
  { injection E as <- <-. left. split; [reflexivity |].
    right. left. reflexivity. }
  unfold bind at 1 in E.
  destruct (driver_cases (fun d0 => (tt, d0))
              (mkMondo (truncate_giocatori (truncate_partite d)) r3 None))
    as [[r4 H] | [r4 H]]; rewrite H in E; clear H;
    cbn [fst snd db transazione] in E.
  { injection E as <- <-. left. split; [reflexivity |].
    right. right. reflexivity. }
  unfold bind at 1 in E.
  destruct (insertSampleData_corsa r4 (truncate_giocatori (truncate_partite d)))
    as (k & Hk & Hrun & _).
  unfold esegui in Hrun.
  destruct (insertSampleData
              (mkMondo (truncate_giocatori (truncate_partite d)) r4 None))
    as [r w] eqn:Hw.
  injection Hrun as -> Hdb.
  unfold ret in E. injection E as <- <-.
  right. split; [reflexivity |]. exists k. split; [exact Hk |].
  rewrite Hdb. reflexivity.
Qed.

(** X5: outside production [resetDatabase] is not all-or-nothing.  When
    it throws, the database is the one before the call, or that one
    with the matches gone and the players kept, or the empty one; when
    it returns true, both tables have been emptied and the player table
    holds the first k of the six sample players for some k, possibly
    none.  A driver error on the third statement leaves the matches
    deleted and the players in place; an error on the count query of
    the re-seeding is swallowed, and the call returns true on an empty
    player table. *)
Theorem resetDatabase_guasti (NODE_ENV : option string) (d : database) :
  NODE_ENV <> Some "production"%string ->
  (forall g res d',
      esegui (resetDatabase NODE_ENV) g d = (res, d') ->
      (res = Throw DriverError
       /\ (d' = d \/ d' = truncate_partite d
           \/ d' = truncate_giocatori (truncate_partite d)))
      \/ (res = Ok true
          /\ exists k : nat,
               (k <= 6)%nat
               /\ d' = mkDb (righe_esempio 1 (firstn k samplePlayers)) []
                         (1 + Z.of_nat k) 1))
  /\ esegui (resetDatabase NODE_ENV) [false; false; true] d
     = (Throw DriverError, mkDb (giocatori d) [] (auto_giocatori d) 1)
  /\ esegui (resetDatabase NODE_ENV) [false; false; false; false; true] d
     = (Ok true, mkDb [] [] 1 1).
Proof.
  intros Hne.
  assert (Hnp : is_production NODE_ENV = false).
  { destruct (is_production NODE_ENV) eqn:Hp; [| reflexivity].
    apply is_production_spec in Hp. contradiction. }
  split; [| split].
  - intros g res d'. apply resetDatabase_corsa. exact Hnp.
  - unfold esegui, resetDatabase, try_catch, execute_ddl, throw, bind, ret.
    rewrite Hnp. reflexivity.
  - unfold esegui, resetDatabase, try_catch, execute_ddl, throw, bind, ret.
    rewrite Hnp. reflexivity.
Qed.

(** ** Keys and references *)

Section Integro.

Variable INT_cast : R -> Z.
Variable LOWER : string -> string.
Variable NODE_ENV : option string.

Ltac passo E :=
  match type of E with
  | context [driver ?f ?w] =>
      let H := fresh "H" in
      destruct (driver_cases f w) as [[? H] | [? H]];
      rewrite H in E; clear H;
      cbn [fst snd db guasti transazione annulla ripristina] in E
  end.

Ltac chiusa E :=
  injection E as _ <-; unfold ripristina;
  cbn [auto_partite insert_partita UPDATE_giocatori snd fst]; lia.

(** The counter of [partite] never goes back in [createPartita], and the
    call uses at most one value of it, also when it fails. *)
Lemma createPartita_auto_partite (squadra1 squadra2 : Z * Z) (vincitore : Z)
    (g : list bool) (d : database) (res : esito esito_partita)
    (d' : database) :
  esegui (createPartita INT_cast squadra1 squadra2 vincitore) g d
  = (res, d') ->
  (auto_partite d <= auto_partite d' <= auto_partite d + 1)%Z.
Proof.
  intros E.
  unfold esegui, createPartita in E. cbn [for_of] in E.
  unfold createConnection, beginTransaction, commit, rollback,
    connection_end, execute_select_elo, execute_insert_partita,
    execute_update, bind, try_catch, try_finally, throw, ret in E.
  cbv zeta in E.
  passo E.
  { chiusa E. }
  passo E.
  { passo E; chiusa E. }
  passo E.
  { passo E; chiusa E. }
  destruct (List.length
              (select_elo [fst squadra1; snd squadra1; fst squadra2;
                           snd squadra2] d) =? 4)%nat; cbn [negb] in E.
  2:{ passo E; chiusa E. }
  do 6 (passo E; [passo E; chiusa E |]).
  chiusa E.
Qed.

Lemma aggiorna_riga_nome (l : list aggiornamento) (g : Giocatore.t) :
  Giocatore.nome (aggiorna_riga INT_cast l g) = Giocatore.nome g.
Proof.
  unfold aggiorna_riga. revert g.
  induction l as [| a l IH]; intros g; [reflexivity |].
  cbn [fold_left]. rewrite IH. unfold update_riga, UPDATE_riga.
  destruct (Giocatore.id g =? giocatoreId a)%Z; reflexivity.
Qed.

Lemma scrivi_auto_partite (rows : list (Z * Z)) (squadra1 squadra2 : Z * Z)
    (vincitore : Z) (d : database) :
  auto_partite (scrivi INT_cast rows squadra1 squadra2 vincitore d)
  = (auto_partite d + 1)%Z.
Proof.
  unfold scrivi. cbn [insert_partita snd auto_partite].
  rewrite update_auto_partite. reflexivity.
Qed.

Lemma scrivi_ids (rows : list (Z * Z)) (squadra1 squadra2 : Z * Z)
    (vincitore : Z) (d : database) :
  map Giocatore.id
    (giocatori (scrivi INT_cast rows squadra1 squadra2 vincitore d))
  = map Giocatore.id (giocatori d).
Proof.
  rewrite scrivi_giocatori, map_map. apply map_ext.
  intros g. apply aggiorna_riga_id.
Qed.

Lemma scrivi_nomi (rows : list (Z * Z)) (squadra1 squadra2 : Z * Z)
    (vincitore : Z) (d : database) :
  map Giocatore.nome
    (giocatori (scrivi INT_cast rows squadra1 squadra2 vincitore d))
  = map Giocatore.nome (giocatori d).
Proof.
  rewrite scrivi_giocatori, map_map. apply map_ext.
  intros g. apply aggiorna_riga_nome.
Qed.

Lemma righe_esempio_ids (start : Z) (l : list (string * ruolo)) :
  NoDup (map Giocatore.id (righe_esempio start l))
  /\ Forall (fun g => (start <= Giocatore.id g
                       < start + Z.of_nat (List.length l))%Z)
       (righe_esempio start l).
Proof.
  revert start. induction l as [| p l IH]; intros start.
  - split; constructor.
  - destruct (IH (start + 1)%Z) as [Hnd Hb].
    cbn [righe_esempio map Giocatore.id List.length]. split.
    + apply NoDup_cons; [| exact Hnd].
      intros Hin. apply in_map_iff in Hin. destruct Hin as (g0 & Hid & Hin).
      rewrite Forall_forall in Hb. specialize (Hb g0 Hin). lia.
    + apply Forall_cons; [cbn [Giocatore.id]; lia |].
      eapply Forall_impl; [| exact Hb]. cbv beta. intros g0 Hg0. lia.
Qed.

Lemma esiste_stessi_id (d d' : database) (i : Z) :
  map Giocatore.id (giocatori d') = map Giocatore.id (giocatori d) ->
  esiste i d -> esiste i d'.
Proof. unfold esiste. intros ->. tauto. Qed.

Lemma riferimenti_estesi (d d' : database) :
  partite d' = partite d ->
  (forall i, esiste i d -> esiste i d') ->
  riferimenti d -> riferimenti d'.
Proof.
  unfold riferimenti. intros -> He H.
  eapply Forall_impl; [| exact H]. cbv beta. intros m [Hnd Hall].
  split; [exact Hnd |].
  eapply Forall_impl; [| exact Hall]. cbv beta. exact He.
Qed.

Lemma integro_insert (d : database) (n : string) (r : ruolo) :
  integro d -> integro (snd (insert_giocatore n r d)).
Proof.
  intros (Hpk & Hcp & Hrif). split; [| split].
  - apply primary_key_insert. exact Hpk.
  - exact Hcp.
  - apply (riferimenti_estesi d); [reflexivity | | exact Hrif].
    intros i. unfold esiste. cbn [insert_giocatore snd giocatori].
    rewrite map_app. intros Hi. apply in_or_app. left. exact Hi.
Qed.

Lemma integro_createPartita (squadra1 squadra2 : Z * Z) (vincitore : Z)
    (g : list bool) (d : database) :
  integro d ->
  integro (snd (esegui (createPartita INT_cast squadra1 squadra2 vincitore)
                  g d)).
Proof.
  intros (Hpk & Hcp & Hrif).
  destruct (esegui (createPartita INT_cast squadra1 squadra2 vincitore) g d)
    as [res d'] eqn:E. cbn [snd].
  pose proof (createPartita_auto_partite _ _ _ _ _ _ _ E) as Hauto.
  destruct (createPartita_run INT_cast squadra1 squadra2 vincitore g d
              res d' E)
    as [(e & _ & _ & Hg & Hp & Ha) | (Hlen & _ & Hd)].
  - destruct Hpk as (Hnd & Hpos & Hb). destruct Hcp as (Hnd' & Hpos' & Hb').
    split; [| split].
    + split; [| split]; rewrite ?Hg, ?Ha; assumption.
    + split; [| split]; rewrite ?Hp; [assumption | lia |].
      eapply Forall_impl; [| exact Hb']. cbv beta. intros m Hm. lia.
    + apply (riferimenti_estesi d); [exact Hp | | exact Hrif].
      intros i. apply esiste_stessi_id. rewrite Hg. reflexivity.
  - subst d'.
    assert (Hnew : NoDup (tutti squadra1 squadra2)
                   /\ Forall (fun i => esiste i d) (tutti squadra1 squadra2)).
    { apply (select_elo_tutti _ d Hpk). rewrite Hlen. reflexivity. }
    assert (Hes : forall i,
               esiste i d ->
               esiste i (scrivi INT_cast
                           (select_elo (tutti squadra1 squadra2) d)
                           squadra1 squadra2 vincitore d)).
    { intros i. apply esiste_stessi_id. apply scrivi_ids. }
    destruct Hpk as (Hnd & Hpos & Hb). destruct Hcp as (Hnd' & Hpos' & Hb').
    split; [| split].
    + split; [| split].
      * rewrite scrivi_ids. exact Hnd.
      * rewrite scrivi_auto_giocatori. exact Hpos.
      * rewrite scrivi_auto_giocatori, scrivi_giocatori.
        apply Forall_map. eapply Forall_impl; [| exact Hb]. cbv beta.
        intros g0 Hg0. rewrite aggiorna_riga_id. exact Hg0.
    + split; [| split]; rewrite ?scrivi_partite, ?scrivi_auto_partite.
      * rewrite map_app. cbn [map Partita.id].
        apply NoDup_app; [exact Hnd' | prova_NoDup |].
        intros i Hi [Heq | []]. subst i.
        apply in_map_iff in Hi. destruct Hi as (m & Hid & Hin).
        rewrite Forall_forall in Hb'. specialize (Hb' m Hin). lia.
      * lia.
      * apply Forall_app. split.
        -- eapply Forall_impl; [| exact Hb']. cbv beta. intros m Hm. lia.
        -- apply Forall_cons; [| apply Forall_nil]. cbn [Partita.id]. lia.
    + unfold riferimenti. rewrite scrivi_partite. apply Forall_app. split.
      * eapply Forall_impl; [| exact Hrif]. cbv beta. intros m [Hn Hall].
        split; [exact Hn |].
        eapply Forall_impl; [| exact Hall]. cbv beta. exact Hes.
      * apply Forall_cons; [| apply Forall_nil].
        cbn [Partita.squadra1 Partita.squadra2].
        destruct Hnew as [Hn Hall]. split; [exact Hn |].
        eapply Forall_impl; [| exact Hall]. cbv beta. exact Hes.
Qed.

Lemma integro_esempio (k : nat) :
  (k <= 6)%nat ->
  integro (mkDb (righe_esempio 1 (firstn k samplePlayers)) []
             (1 + Z.of_nat k) 1).
Proof.
  intros Hk.
  destruct (righe_esempio_ids 1 (firstn k samplePlayers)) as [Hnd Hb].
  assert (Hlen : List.length (firstn k samplePlayers) = k).
  { rewrite length_firstn. cbn [samplePlayers List.length]. lia. }
  rewrite Hlen in Hb.
  split; [| split].
  - split; [| split]; cbn [giocatori auto_giocatori].
    + exact Hnd.
    + lia.
    + eapply Forall_impl; [| exact Hb]. cbv beta. intros g0 Hg0. lia.
  - split; [| split]; cbn [partite auto_partite];
      [constructor | lia | constructor].
  - unfold riferimenti. cbn [partite]. constructor.
Qed.

Lemma integro_resetDatabase (g : list bool) (d : database) :
  integro d -> integro (snd (esegui (resetDatabase NODE_ENV) g d)).
Proof.
  intros Hi.
  destruct (is_production NODE_ENV) eqn:Hp.
  { rewrite resetDatabase_produzione by exact Hp. exact Hi. }
  destruct (esegui (resetDatabase NODE_ENV) g d) as [res d'] eqn:E.
  cbn [snd].
  destruct (resetDatabase_corsa NODE_ENV g d res d' Hp E)
    as [(_ & [-> | [-> | ->]]) | (_ & k & Hk & ->)].
  - exact Hi.
  - destruct Hi as (Hpk & _ & _). split; [exact Hpk | split].
    + split; [| split]; cbn [truncate_partite partite auto_partite];
        [constructor | lia | constructor].
    + unfold riferimenti. cbn [truncate_partite partite]. constructor.
  - exact (integro_esempio 0 ltac:(lia)).
  - apply integro_esempio. exact Hk.
Qed.

Lemma integro_dopo (c : chiamata) (g : list bool) (d : database) :
  integro d -> integro (dopo INT_cast LOWER NODE_ENV c g d).
Proof.
  intros Hi. destruct c as [nome r | squadra1 squadra2 vincitore | |];
    cbn [dopo].
  - apply mantiene_esegui; [| exact Hi].
    apply createGiocatore_mantiene. intros d0 n r'. apply integro_insert.
  - apply integro_createPartita. exact Hi.
  - apply mantiene_esegui; [| exact Hi].
    apply insertSampleData_mantiene. intros d0 n r'. apply integro_insert.
  - apply integro_resetDatabase. exact Hi.
Qed.

Lemma integro_raggiungibile (d : database) :
  raggiungibile INT_cast LOWER NODE_ENV d -> integro d.
Proof.
  intros Hr. induction Hr as [| d c g Hr IH].
  - split; [| split].
    + split; [| split]; cbn; [constructor | lia | constructor].
    + split; [| split]; cbn; [constructor | lia | constructor].
    + unfold riferimenti. cbn. constructor.
  - apply integro_dopo. exact IH.
Qed.

(** X6: in every database the methods can produce from the empty
    schema, under any faults of the driver, the ids of the players are
    pairwise distinct, positive and below the table's counter, the same
    holds of the ids of the matches, and every match row names four
    different players each of whom has a row: no match refers to a
    player that does not exist. *)
Theorem raggiungibile_integro (d : database) :
  raggiungibile INT_cast LOWER NODE_ENV d ->
  primary_key d /\ chiave_partite d /\ riferimenti d.
Proof. apply integro_raggiungibile. Qed.

End Integro.

(** ** Names *)

Section Nomi.

Variable INT_cast : R -> Z.
Variable LOWER : string -> string.
Variable NODE_ENV : option string.

Hypothesis esempi_distinti :
  NoDup (map (fun p : string * ruolo => LOWER (fst p)) samplePlayers).

Lemma righe_esempio_nomi (start : Z) (l : list (string * ruolo)) :
  map (fun g => LOWER (Giocatore.nome g)) (righe_esempio start l)
  = map (fun p : string * ruolo => LOWER (fst p)) l.
Proof.
  revert start. induction l as [| p l IH]; intros start; [reflexivity |].
  cbn [righe_esempio map Giocatore.nome]. rewrite IH. reflexivity.
Qed.

Lemma nomi_unici_esempio (k : nat) (p : list Partita.t) (a b : Z) :
  nomi_unici LOWER (mkDb (righe_esempio a (firstn k samplePlayers)) p b 1).
Proof.
  unfold nomi_unici. cbn [giocatori]. rewrite righe_esempio_nomi.
  rewrite <- firstn_map.
  pose proof esempi_distinti as Hnd.
  rewrite <- (firstn_skipn k
                (map (fun p0 : string * ruolo => LOWER (fst p0))
                   samplePlayers)) in Hnd.
  apply NoDup_app_remove_r in Hnd. exact Hnd.
Qed.

Lemma nomi_unici_createGiocatore (nome : string) (r : ruolo)
    (g : list bool) (d : database) :
  nomi_unici LOWER d ->
  nomi_unici LOWER (snd (esegui (createGiocatore LOWER nome r) g d)).
Proof.
  intros Hu.
  destruct (esegui (createGiocatore LOWER nome r) g d) as [res d'] eqn:E.
  cbn [snd].
  destruct (createGiocatore_esiti LOWER nome r g d res d' E)
    as [[_ ->] | [(_ & -> & _) | (_ & -> & Hs)]]; try exact Hu.
  unfold nomi_unici. cbn [insert_giocatore snd giocatori].
  rewrite map_app. cbn [map Giocatore.nome].
  apply NoDup_app; [exact Hu | prova_NoDup |].
  intros x Hx [Heq | []]. subst x.
  apply in_map_iff in Hx. destruct Hx as (g0 & Hn & Hin).
  exact (proj1 (select_per_nome_vuoto LOWER nome d) Hs g0 Hin Hn).
Qed.

Lemma nomi_unici_createPartita (squadra1 squadra2 : Z * Z) (vincitore : Z)
    (g : list bool) (d : database) :
  nomi_unici LOWER d ->
  nomi_unici LOWER
    (snd (esegui (createPartita INT_cast squadra1 squadra2 vincitore) g d)).
Proof.
  intros Hu.
  destruct (esegui (createPartita INT_cast squadra1 squadra2 vincitore) g d)
    as [res d'] eqn:E. cbn [snd].
  destruct (createPartita_run INT_cast squadra1 squadra2 vincitore g d
              res d' E)
    as [(e & _ & _ & Hg & _) | (_ & _ & ->)]; unfold nomi_unici in *.
  - rewrite Hg. exact Hu.
  - rewrite <- (map_map Giocatore.nome LOWER), scrivi_nomi, map_map.
    exact Hu.
Qed.

Lemma nomi_unici_insertSampleData (g : list bool) (d : database) :
  nomi_unici LOWER d ->
  nomi_unici LOWER (snd (esegui insertSampleData g d)).
Proof.
  intros Hu.
  destruct (insertSampleData_corsa g d) as (k & _ & -> & Hne & _).
  cbn [snd].
  destruct (giocatori d) as [| g0 l0] eqn:Hgd.
  - unfold nomi_unici. cbn [giocatori app].
    exact (nomi_unici_esempio k [] (auto_giocatori d) 0).
  - rewrite Hne by discriminate.
    unfold nomi_unici in *. cbn [giocatori firstn righe_esempio].
    rewrite app_nil_r. rewrite Hgd in Hu. exact Hu.
Qed.

Lemma nomi_unici_resetDatabase (g : list bool) (d : database) :
  nomi_unici LOWER d ->
  nomi_unici LOWER (snd (esegui (resetDatabase NODE_ENV) g d)).
Proof.
  intros Hu.
  destruct (is_production NODE_ENV) eqn:Hp.
  { rewrite resetDatabase_produzione by exact Hp. exact Hu. }
  destruct (esegui (resetDatabase NODE_ENV) g d) as [res d'] eqn:E.
  cbn [snd].
  destruct (resetDatabase_corsa NODE_ENV g d res d' Hp E)
    as [(_ & [-> | [-> | ->]]) | (_ & k & Hk & ->)].
  - exact Hu.
  - exact Hu.
  - unfold nomi_unici. cbn. constructor.
  - apply nomi_unici_esempio.
Qed.

(** X7: the sample names being pairwise different under LOWER, no two
    players of a database the methods can produce from the empty schema
    have names that agree under LOWER, whatever the faults of the
    driver: the check of [createGiocatore] is enough to keep the names
    unique when the calls run one after the other. *)
Theorem raggiungibile_nomi_unici (d : database) :
  raggiungibile INT_cast LOWER NODE_ENV d -> nomi_unici LOWER d.
Proof.
  intros Hr. induction Hr as [| d c g Hr IH].
  - unfold nomi_unici. cbn. constructor.
  - destruct c as [nome r | squadra1 squadra2 vincitore | |]; cbn [dopo].
    + apply nomi_unici_createGiocatore. exact IH.
    + apply nomi_unici_createPartita. exact IH.
    + apply nomi_unici_insertSampleData. exact IH.
    + apply nomi_unici_resetDatabase. exact IH.
Qed.

End Nomi.

(** ** A name once taken *)

Section DueVolte.

Variable INT_cast : R -> Z.
Variable LOWER : string -> string.
Variable NODE_ENV : option string.

(** No call but the reset takes a name out of the player table. *)
Lemma nome_resta (c : chiamata) (g : list bool) (d : database) (x : string) :
  c <> ResetDatabase ->
  In x (map (fun g0 => LOWER (Giocatore.nome g0)) (giocatori d)) ->
  In x (map (fun g0 => LOWER (Giocatore.nome g0))
          (giocatori (dopo INT_cast LOWER NODE_ENV c g d))).
Proof.
  intros Hc Hin.
  destruct c as [nome r | squadra1 squadra2 vincitore | |]; cbn [dopo].
  - destruct (esegui (createGiocatore LOWER nome r) g d) as [res d'] eqn:E.
    cbn [snd].
    destruct (createGiocatore_esiti LOWER nome r g d res d' E)
      as [[_ ->] | [(_ & -> & _) | (_ & -> & _)]]; try exact Hin.
    cbn [insert_giocatore snd giocatori]. rewrite map_app.
    apply in_or_app. left. exact Hin.
  - destruct (esegui (createPartita INT_cast squadra1 squadra2 vincitore)
                g d) as [res d'] eqn:E. cbn [snd].
    destruct (createPartita_run INT_cast squadra1 squadra2 vincitore g d
                res d' E)
      as [(e & _ & _ & Hg & _) | (_ & _ & ->)].
    + rewrite Hg. exact Hin.
    + rewrite <- (map_map Giocatore.nome LOWER) in *.
      rewrite scrivi_nomi. exact Hin.
  - destruct (insertSampleData_corsa g d) as (k & _ & -> & _).
    cbn [snd giocatori]. rewrite map_app. apply in_or_app. left. exact Hin.
  - contradiction.
Qed.

Lemma nome_resta_tutte (cs : list (chiamata * list bool)) (d : database)
    (x : string) :
  Forall (fun cg => fst cg <> ResetDatabase) cs ->
  In x (map (fun g0 => LOWER (Giocatore.nome g0)) (giocatori d)) ->
  In x (map (fun g0 => LOWER (Giocatore.nome g0))
          (giocatori (dopo_tutte INT_cast LOWER NODE_ENV cs d))).
Proof.
  intros Hcs. revert d. induction Hcs as [| cg cs Hc Hcs IH]; intros d Hin.
  - exact Hin.
  - unfold dopo_tutte. cbn [fold_left].
    apply IH. apply nome_resta; assumption.
Qed.

(** X3: once a player has been created, and whatever calls of
    [createGiocatore], [createPartita] and [insertSampleData] follow,
    with whatever faults of the driver, a call with a name that agrees
    with theirs under LOWER does not get through, whatever the role
    asked for: it throws and changes nothing, and with the driver
    raising nothing the error is the already-exists one.  No call of
    [resetDatabase] is among those in between. *)
Theorem createGiocatore_due_volte (nome nome' : string) (r r' : ruolo)
    (g : list bool) (d : database) (row : Giocatore.t) (d' : database)
    (cs : list (chiamata * list bool)) :
  esegui (createGiocatore LOWER nome r) g d = (Ok row, d') ->
  LOWER nome' = LOWER nome ->
  Forall (fun cg => fst cg <> ResetDatabase) cs ->
  (forall g', exists e,
      esegui (createGiocatore LOWER nome' r') g'
        (dopo_tutte INT_cast LOWER NODE_ENV cs d')
      = (Throw e, dopo_tutte INT_cast LOWER NODE_ENV cs d'))
  /\ esegui (createGiocatore LOWER nome' r') []
       (dopo_tutte INT_cast LOWER NODE_ENV cs d')
     = (Throw DuplicatePlayer, dopo_tutte INT_cast LOWER NODE_ENV cs d').
Proof.
  intros E Heq Hcs.
  destruct (createGiocatore_esiti LOWER nome r g d (Ok row) d' E)
    as [[H _] | [(H & _) | (_ & Hd & _)]]; try discriminate.
  assert (Hin : In (LOWER nome)
                  (map (fun g0 => LOWER (Giocatore.nome g0)) (giocatori d'))).
  { subst d'. cbn [insert_giocatore snd giocatori]. rewrite map_app.
    apply in_or_app. right. left. reflexivity. }
  apply (nome_resta_tutte cs d' (LOWER nome) Hcs) in Hin.
  apply in_map_iff in Hin. destruct Hin as (g0 & Hn & Hg0).
  set (d2 := dopo_tutte INT_cast LOWER NODE_ENV cs d') in *.
  assert (Hne : select_per_nome LOWER nome' d2 <> []).
  { intros Hv.
    apply (proj1 (select_per_nome_vuoto LOWER nome' d2) Hv g0 Hg0).
    rewrite Hn. symmetry. exact Heq. }
  split.
  - intros g'.
    destruct (esegui (createGiocatore LOWER nome' r') g' d2)
      as [res d3] eqn:E'.
    destruct (createGiocatore_esiti LOWER nome' r' g' d2 res d3 E')
      as [[-> ->] | [(-> & -> & _) | (_ & _ & Hs')]].
    + eexists. reflexivity.
    + eexists. reflexivity.
    + contradiction.
  - rewrite createGiocatore_senza_guasti.
    destruct (select_per_nome LOWER nome' d2); [contradiction | reflexivity].
Qed.

End DueVolte.

(** ** [getNomiGiocatori] *)

Lemma fold_nomiMap_notin (rows : list (Z * string))
    (m : Z -> option string) (i : Z) :
  ~ In i (map fst rows) ->
  fold_left
    (fun (m : Z -> option string) (row : Z * string) =>
       fun i => if (i =? fst row)%Z then Some (snd row) else m i)
    rows m i = m i.
Proof.
  revert m. induction rows as [| g rows IH]; intros m Hni; [reflexivity |].
  cbn [fold_left]. rewrite IH.
  - destruct (Z.eqb_spec i (fst g)) as [Heq | _]; [| reflexivity].
    exfalso. apply Hni. left. symmetry. exact Heq.
  - intros Hin. apply Hni. right. exact Hin.
Qed.

Lemma fold_nomiMap_in (rows : list (Z * string))
    (m : Z -> option string) (i : Z) (n : string) :
  NoDup (map fst rows) -> In (i, n) rows ->
  fold_left
    (fun (m : Z -> option string) (row : Z * string) =>
       fun i => if (i =? fst row)%Z then Some (snd row) else m i)
    rows m i = Some n.
Proof.
  revert m. induction rows as [| g rows IH]; intros m Hnd Hin;
    [contradiction |].
  cbn [fold_left]. cbn [map] in Hnd.
  apply NoDup_cons_iff in Hnd. destruct Hnd as [Hni Hnd].
  destruct Hin as [Heq | Hin].
  - subst g. cbn [fst snd] in *.
    rewrite fold_nomiMap_notin by exact Hni.
    rewrite Z.eqb_refl. reflexivity.
  - apply IH; assumption.
Qed.

Lemma select_nomi_ids (ids : list Z) (d : database) :
  map fst (select_nomi ids d)
  = filter (fun i => existsb (Z.eqb i) ids)
           (map Giocatore.id (giocatori d)).
Proof.
  unfold select_nomi.
  induction (giocatori d) as [| g l IH]; [reflexivity |].
  cbn [filter map].
  destruct (existsb (Z.eqb (Giocatore.id g)) ids); cbn [map fst];
    rewrite IH; reflexivity.
Qed.

(** What [nomiMap] holds under each key. *)
Lemma nomiMap_chiave (ids : list Z) (d : database) (i : Z) :
  primary_key d ->
  crea_nomiMap (select_nomi ids d) i
  = if existsb (Z.eqb i) ids
    then option_map Giocatore.nome (riga i d)
    else None.
Proof.
  intros Hpk. unfold crea_nomiMap.
  assert (Hnd : NoDup (map fst (select_nomi ids d))).
  { rewrite select_nomi_ids. apply NoDup_filter. apply Hpk. }
  destruct (existsb (Z.eqb i) ids) eqn:Hmem.
  - destruct (riga i d) as [g0 |] eqn:Hr; cbn [option_map].
    + apply fold_nomiMap_in; [exact Hnd |].
      apply riga_Some in Hr. destruct Hr as [Hin Hid].
      unfold select_nomi. apply in_map_iff. exists g0. split.
      * rewrite Hid. reflexivity.
      * apply filter_In. split; [exact Hin |]. rewrite Hid. exact Hmem.
    + rewrite fold_nomiMap_notin; [reflexivity |].
      rewrite select_nomi_ids. intros Hin. apply filter_In in Hin.
      destruct Hin as [Hin _].
      assert (He : esiste i d) by exact Hin.
      apply esiste_riga in He. destruct He as [g0 Hg0]. congruence.
  - rewrite fold_nomiMap_notin; [reflexivity |].
    rewrite select_nomi_ids. intros Hin. apply filter_In in Hin.
    destruct Hin as [_ Hin]. congruence.
Qed.

Lemma getNomiGiocatori_senza_guasti (ids : list Z) (d : database) :
  ids <> [] ->
  esegui (getNomiGiocatori ids) [] d
  = (Ok (crea_nomiMap (select_nomi ids d)), d).
Proof.
  intros Hne. destruct ids as [| i ids]; [contradiction |].
  unfold esegui, getNomiGiocatori, try_catch, bind, execute_select_nomi, ret.
  rewrite driver_senza_guasti. reflexivity.
Qed.

(** X8: asked for at least one id, with the driver raising nothing,
    [getNomiGiocatori] returns a map that holds, under each id asked for
    that has a row, the name of that row, and nothing under any other
    key: an id with no row is left out without an error.  The database
    is not written. *)
Theorem getNomiGiocatori_nomi (ids : list Z) (d : database) :
  primary_key d -> ids <> [] ->
  exists nomiMap,
    esegui (getNomiGiocatori ids) [] d = (Ok nomiMap, d)
    /\ forall i,
         nomiMap i = if existsb (Z.eqb i) ids
                     then option_map Giocatore.nome (riga i d)
                     else None.
Proof.
  intros Hpk Hne. exists (crea_nomiMap (select_nomi ids d)). split.
  - apply getNomiGiocatori_senza_guasti. exact Hne.
  - intros i. apply nomiMap_chiave. exact Hpk.
Qed.

(** X9: the name of a player [createGiocatore] has just returned is
    what [getNomiGiocatori] gives back under the returned id. *)
Theorem createGiocatore_poi_nome (LOWER : string -> string) (nome : string)
    (r : ruolo) (g : list bool) (d : database) (row : Giocatore.t)
    (d' : database) :
  primary_key d ->
  esegui (createGiocatore LOWER nome r) g d = (Ok row, d') ->
  exists nomiMap,
    esegui (getNomiGiocatori [Giocatore.id row]) [] d' = (Ok nomiMap, d')
    /\ nomiMap (Giocatore.id row) = Some nome.
Proof.
  intros Hpk E.
  destruct (createGiocatore_esiti LOWER nome r g d (Ok row) d' E)
    as [[H _] | [(H & _) | (Hrow & Hd & _)]]; try discriminate.
  injection Hrow as ->. subst d'.
  exists (crea_nomiMap
            (select_nomi [auto_giocatori d]
               (snd (insert_giocatore nome r d)))).
  split.
  - apply getNomiGiocatori_senza_guasti. discriminate.
  - cbn [Giocatore.id].
    rewrite nomiMap_chiave by (apply primary_key_insert; exact Hpk).
    cbn [existsb]. rewrite Z.eqb_refl. cbn [orb].
    rewrite (riga_nuova d nome r Hpk). reflexivity.
Qed.

(** ** The names [getPartite] asks for *)

Section NomiPartite.

Variable INT_cast : R -> Z.
Variable LOWER : string -> string.
Variable NODE_ENV : option string.

(** X20: for every match row of a database the methods can produce from
    the empty schema, the call [getPartite] makes to [getNomiGiocatori]
    with the row's four ids returns, the driver raising nothing, a map
    that holds a name under each of the four: the name of the player
    with that id. *)
Theorem partite_con_nomi (d : database) (m : Partita.t) :
  raggiungibile INT_cast LOWER NODE_ENV d ->
  In m (partite d) ->
  exists nomiMap,
    esegui (getNomiGiocatori
              [fst (Partita.squadra1 m); snd (Partita.squadra1 m);
               fst (Partita.squadra2 m); snd (Partita.squadra2 m)]) [] d
    = (Ok nomiMap, d)
    /\ Forall (fun i => exists g0,
                 riga i d = Some g0
                 /\ nomiMap i = Some (Giocatore.nome g0))
         [fst (Partita.squadra1 m); snd (Partita.squadra1 m);
          fst (Partita.squadra2 m); snd (Partita.squadra2 m)].
Proof.
  intros Hr Hin.
  destruct (integro_raggiungibile INT_cast LOWER NODE_ENV d Hr)
    as (Hpk & _ & Hrif).
  unfold riferimenti in Hrif. rewrite Forall_forall in Hrif.
  destruct (Hrif m Hin) as [_ Hall]. unfold tutti in Hall.
  set (ids := [fst (Partita.squadra1 m); snd (Partita.squadra1 m);
               fst (Partita.squadra2 m); snd (Partita.squadra2 m)]) in *.
  exists (crea_nomiMap (select_nomi ids d)). split.
  - apply getNomiGiocatori_senza_guasti. discriminate.
  - apply Forall_forall. intros i Hi.
    rewrite Forall_forall in Hall.
    destruct (proj1 (esiste_riga i d) (Hall i Hi)) as [g0 Hg0].
    exists g0. split; [exact Hg0 |].
    rewrite (nomiMap_chiave ids d i Hpk).
    rewrite (proj2 (mem_ids i ids) Hi), Hg0. reflexivity.
Qed.

End NomiPartite.

(** ** [GET /api/statistics] *)

Lemma Math_round_mono (x y : R) : x <= y -> (Math_round x <= Math_round y)%Z.
Proof.
  intros Hxy.
  destruct (Math_round_bounds x) as [Hx _].
  destruct (Math_round_bounds y) as [_ Hy].
  assert (H : IZR (Math_round x) < IZR (Math_round y + 1)).
  { rewrite plus_IZR. lra. }
  apply lt_IZR in H. lia.
Qed.

(** The [reduce] that looks for the best player keeps the accumulator
    unless a later element is strictly better. *)
Lemma reduce_max_primo (rest : list Giocatore.t) (m : Giocatore.t) :
  (reduce_max m rest = m
   /\ Forall (fun g => (Giocatore.elo g <= Giocatore.elo m)%Z) rest)
  \/ (exists l1 l2,
        rest = l1 ++ reduce_max m rest :: l2
        /\ (Giocatore.elo m < Giocatore.elo (reduce_max m rest))%Z
        /\ Forall (fun g => (Giocatore.elo g
                             < Giocatore.elo (reduce_max m rest))%Z) l1
        /\ Forall (fun g => (Giocatore.elo g
                             <= Giocatore.elo (reduce_max m rest))%Z) l2).
Proof.
  revert m. induction rest as [| g rest IH]; intros m.
  - left. split; [reflexivity | constructor].
  - unfold reduce_max. cbn [fold_left].
    destruct (Z.gtb_spec (Giocatore.elo g) (Giocatore.elo m)) as [Hgt | Hle].
    + fold (reduce_max g rest).
      destruct (IH g) as [[Heq Hall] | (l1 & l2 & Hsplit & Hlt & H1 & H2)].
      * right. exists [], rest. rewrite Heq. cbn [app].
        split; [reflexivity |]. split; [lia |].
        split; [constructor | exact Hall].
      * right. exists (g :: l1), l2. cbn [app].
        split; [f_equal; exact Hsplit |]. split; [lia |].
        split; [| exact H2]. constructor; [exact Hlt | exact H1].
    + fold (reduce_max m rest).
      destruct (IH m) as [[Heq Hall] | (l1 & l2 & Hsplit & Hlt & H1 & H2)].
      * left. split; [exact Heq |]. constructor; [lia | exact Hall].
      * right. exists (g :: l1), l2. cbn [app].
        split; [f_equal; exact Hsplit |]. split; [exact Hlt |].
        split; [| exact H2]. constructor; [lia | exact H1].
Qed.



(** X10: [migliore_giocatore] is null exactly on an empty player list;
    otherwise it is an element of the list whose rating no other
    exceeds, and among the players with that rating it is the one that
    comes first in the list. *)
Theorem stats_migliore_giocatore {P : Type} (giocatori : list Giocatore.t)
    (partite : list P) :
  match migliore_giocatore (stats giocatori partite) with
  | None => giocatori = []
  | Some best =>
      exists prima dopo_,
        giocatori = prima ++ best :: dopo_
        /\ Forall (fun g => (Giocatore.elo g < Giocatore.elo best)%Z) prima
        /\ Forall (fun g => (Giocatore.elo g <= Giocatore.elo best)%Z) dopo_
  end.
Proof.
  unfold stats. cbn [migliore_giocatore].
  destruct giocatori as [| g0 rest]; [reflexivity |].
  destruct (reduce_max_primo rest g0)
    as [[Heq Hall] | (l1 & l2 & Hsplit & Hlt & H1 & H2)].
  - exists [], rest. rewrite Heq. cbn [app].
    split; [reflexivity |]. split; [constructor | exact Hall].
  - exists (g0 :: l1), l2. cbn [app].
    split; [f_equal; exact Hsplit |].
    split; [constructor; [exact Hlt | exact H1] | exact H2].
Qed.


(** ** [calcolaELO], further *)

(** The two expected scores of a pairing add up to one. *)
Lemma atteso_somma (eloA eloB : R) : atteso eloA eloB + atteso eloB eloA = 1.
Proof.
  unfold atteso.
  replace ((eloA - eloB) / 400) with (- ((eloB - eloA) / 400)) by lra.
  rewrite Math_pow10_opp.
  pose proof (Math_pow10_pos ((eloB - eloA) / 400)) as Hp.
  set (p := Math_pow10 ((eloB - eloA) / 400)) in *.
  field. split; lra.
Qed.

Lemma Math_pow10_mono (x y : R) : x <= y -> Math_pow10 x <= Math_pow10 y.
Proof. intros H. unfold Math_pow10. apply Rle_Rpower; lra. Qed.

(** The expected score falls as the opponent's rating grows. *)
Lemma atteso_avversario (eloA eloB eloB' : R) :
  eloB <= eloB' -> atteso eloA eloB' <= atteso eloA eloB.
Proof.
  intros H. unfold atteso.
  pose proof (Math_pow10_pos ((eloB - eloA) / 400)) as Hp.
  pose proof (Math_pow10_mono ((eloB - eloA) / 400) ((eloB' - eloA) / 400)
                ltac:(lra)) as Hm.
  unfold Rdiv. rewrite !Rmult_1_l.
  apply Rinv_le_contravar; lra.
Qed.

(** A rating that is a whole or a half number, after a win and after a
    loss, in exact arithmetic. *)
Lemma calcolaELO_mezzi_vittoria (m k : Z) (eloB : R) :
  (0 < k)%Z ->
  IZR m / 2 <= IZR (calcolaELO (IZR m / 2) eloB 1 (IZR k))
  <= IZR m / 2 + IZR k.
Proof.
  intros Hk. unfold calcolaELO.
  pose proof (atteso_range (IZR m / 2) eloB) as [He0 He1].
  set (E := atteso (IZR m / 2) eloB) in *.
  destruct (Math_round_bounds (IZR m / 2 + IZR k * (1 - E))) as [Hlo Hhi].
  set (n := Math_round (IZR m / 2 + IZR k * (1 - E))) in *.
  apply IZR_lt in Hk.
  assert (Hx0 : 0 < IZR k * (1 - E)) by (apply Rmult_lt_0_compat; lra).
  assert (Hx1 : IZR k * (1 - E) < IZR k).
  { rewrite <- (Rmult_1_r (IZR k)) at 2.
    apply Rmult_lt_compat_l; lra. }
  assert (H1 : IZR (m - 1) < IZR (2 * n)).
  { rewrite minus_IZR, mult_IZR. lra. }
  assert (H2 : IZR (2 * n) < IZR (m + 2 * k + 1)).
  { rewrite !plus_IZR, !mult_IZR. lra. }
  apply lt_IZR in H1, H2.
  assert (H3 : (m <= 2 * n)%Z) by lia.
  assert (H4 : (2 * n <= m + 2 * k)%Z) by lia.
  apply IZR_le in H3, H4.
  rewrite plus_IZR, !mult_IZR in H4. rewrite mult_IZR in H3. lra.
Qed.

Lemma calcolaELO_mezzi_sconfitta (m k : Z) (eloB : R) :
  (0 < k)%Z ->
  IZR m / 2 - IZR k <= IZR (calcolaELO (IZR m / 2) eloB 0 (IZR k))
  <= IZR m / 2.
Proof.
  intros Hk. unfold calcolaELO.
  pose proof (atteso_range (IZR m / 2) eloB) as [He0 He1].
  set (E := atteso (IZR m / 2) eloB) in *.
  destruct (Math_round_bounds (IZR m / 2 + IZR k * (0 - E))) as [Hlo Hhi].
  set (n := Math_round (IZR m / 2 + IZR k * (0 - E))) in *.
  apply IZR_lt in Hk.
  assert (Hx0 : 0 < IZR k * E) by (apply Rmult_lt_0_compat; lra).
  assert (Hx1 : IZR k * E < IZR k).
  { rewrite <- (Rmult_1_r (IZR k)) at 2.
    apply Rmult_lt_compat_l; lra. }
  assert (H1 : IZR (m - 2 * k - 1) < IZR (2 * n)).
  { rewrite !minus_IZR, !mult_IZR. lra. }
  assert (H2 : IZR (2 * n) < IZR (m + 1)).
  { rewrite !plus_IZR, !mult_IZR. lra. }
  apply lt_IZR in H1, H2.
  assert (H3 : (m - 2 * k <= 2 * n)%Z) by lia.
  assert (H4 : (2 * n <= m)%Z) by lia.
  apply IZR_le in H3, H4.
  rewrite minus_IZR, !mult_IZR in H3. rewrite mult_IZR in H4. lra.
Qed.

(** X12: for a whole rating and a whole k >= 0 whose sizes add up to at
    most 2^53, a win never lowers the rating and a loss never raises it,
    and neither moves it by more than k, whatever the opponent's
    rating. *)
Theorem calcolaELO_limiti (a k : Z) (eloB : R) :
  (0 <= k)%Z -> (Z.abs a + k <= 2 ^ 53)%Z ->
  (a <= calcolaELO (IZR a) eloB 1 (IZR k) <= a + k)%Z
  /\ (a - k <= calcolaELO (IZR a) eloB 0 (IZR k) <= a)%Z.
Proof.
  intros Hk _. apply IZR_le in Hk.
  pose proof (atteso_range (IZR a) eloB) as [He0 He1].
  unfold calcolaELO. set (E := atteso (IZR a) eloB) in *.
  assert (Hw0 : 0 <= IZR k * (1 - E)) by (apply Rmult_le_pos; lra).
  assert (Hw1 : IZR k * (1 - E) <= IZR k).
  { rewrite <- (Rmult_1_r (IZR k)) at 2. apply Rmult_le_compat_l; lra. }
  assert (Hl0 : 0 <= IZR k * E) by (apply Rmult_le_pos; lra).
  assert (Hl1 : IZR k * E <= IZR k).
  { rewrite <- (Rmult_1_r (IZR k)) at 2. apply Rmult_le_compat_l; lra. }
  assert (Ha : Math_round (IZR a) = a) by apply Math_round_IZR.
  assert (Hak : Math_round (IZR a + IZR k) = (a + k)%Z).
  { rewrite <- plus_IZR. apply Math_round_IZR. }
  assert (Hamk : Math_round (IZR a - IZR k) = (a - k)%Z).
  { rewrite <- minus_IZR. apply Math_round_IZR. }
  pose proof (Math_round_mono (IZR a) (IZR a + IZR k * (1 - E))
                ltac:(lra)) as H1.
  pose proof (Math_round_mono (IZR a + IZR k * (1 - E)) (IZR a + IZR k)
                ltac:(lra)) as H2.
  pose proof (Math_round_mono (IZR a - IZR k) (IZR a + IZR k * (0 - E))
                ltac:(lra)) as H3.
  pose proof (Math_round_mono (IZR a + IZR k * (0 - E)) (IZR a)
                ltac:(lra)) as H4.
  lia.
Qed.

(** X13: with k >= 0 the new rating never goes down when the opponent's
    rating or the result goes up: the same result against a stronger
    opponent is worth at least as much, and a win at least as much as a
    loss. *)
Theorem calcolaELO_monotona (eloA eloB eloB' risultato risultato' k : R) :
  0 <= k -> eloB <= eloB' -> risultato <= risultato' ->
  (calcolaELO eloA eloB risultato k <= calcolaELO eloA eloB' risultato' k)%Z.
Proof.
  intros Hk Hb Hr. unfold calcolaELO. apply Math_round_mono.
  pose proof (atteso_avversario eloA eloB eloB' Hb) as He.
  assert (H : k * (risultato - atteso eloA eloB)
              <= k * (risultato' - atteso eloA eloB')).
  { apply Rmult_le_compat_l; lra. }
  lra.
Qed.

(** ** The deltas of [createPartita] *)

Lemma numero_intero (o : option Z) : exists z : Z, numero o = IZR z.
Proof. destruct o as [z |]; [exists z | exists 0%Z]; reflexivity. Qed.

Lemma media_mezzi (a b : option Z) :
  exists m : Z, (numero a + numero b) / 2 = IZR m / 2.
Proof.
  destruct (numero_intero a) as [za ->]. destruct (numero_intero b) as [zb ->].
  exists (za + zb)%Z. rewrite plus_IZR. reflexivity.
Qed.

(** The deltas of a plan, by winner, in exact arithmetic. *)
Lemma calcola_piano_delta (rows : list (Z * Z)) (squadra1 squadra2 : Z * Z)
    (vincitore : Z) :
  let p := calcola_piano rows squadra1 squadra2 vincitore in
  (vincitore = 1%Z ->
   0 <= deltaElo1 p <= 32 /\ -32 <= deltaElo2 p <= 0)
  /\ (vincitore = 2%Z ->
      -32 <= deltaElo1 p <= 0 /\ 0 <= deltaElo2 p <= 32)
  /\ (vincitore = 1%Z \/ vincitore = 2%Z ->
      -1 < deltaElo1 p + deltaElo2 p <= 1).
Proof.
  unfold calcola_piano. cbv zeta. cbn [deltaElo1 deltaElo2].
  destruct (media_mezzi (crea_eloMap rows (fst squadra1))
              (crea_eloMap rows (snd squadra1))) as [m1 ->].
  destruct (media_mezzi (crea_eloMap rows (fst squadra2))
              (crea_eloMap rows (snd squadra2))) as [m2 ->].
  split; [| split].
  - intros ->. cbn [flag Z.eqb Pos.eqb].
    pose proof (calcolaELO_mezzi_vittoria m1 32 (IZR m2 / 2) ltac:(lia)).
    pose proof (calcolaELO_mezzi_sconfitta m2 32 (IZR m1 / 2) ltac:(lia)).
    lra.
  - intros ->. cbn [flag Z.eqb Pos.eqb].
    pose proof (calcolaELO_mezzi_sconfitta m1 32 (IZR m2 / 2) ltac:(lia)).
    pose proof (calcolaELO_mezzi_vittoria m2 32 (IZR m1 / 2) ltac:(lia)).
    lra.
  - intros Hv. unfold calcolaELO.
    pose proof (atteso_somma (IZR m1 / 2) (IZR m2 / 2)) as Hs.
    assert (Hf : IZR (flag vincitore 1) + IZR (flag vincitore 2) = 1).
    { destruct Hv as [-> | ->]; cbn; lra. }
    destruct (Math_round_bounds
                (IZR m1 / 2
                 + 32 * (IZR (flag vincitore 1)
                         - atteso (IZR m1 / 2) (IZR m2 / 2)))) as [H1 H2].
    destruct (Math_round_bounds
                (IZR m2 / 2
                 + 32 * (IZR (flag vincitore 2)
                         - atteso (IZR m2 / 2) (IZR m1 / 2)))) as [H3 H4].
    lra.
Qed.

Section Delta.

Variable INT_cast : R -> Z.

(** Each delta of a plan is a whole or a half number. *)
Lemma calcola_piano_mezzi (rows : list (Z * Z)) (squadra1 squadra2 : Z * Z)
    (vincitore : Z) :
  let p := calcola_piano rows squadra1 squadra2 vincitore in
  intero (2 * deltaElo1 p) /\ intero (2 * deltaElo2 p).
Proof.
  unfold calcola_piano. cbv zeta. cbn [deltaElo1 deltaElo2].
  destruct (media_mezzi (crea_eloMap rows (fst squadra1))
              (crea_eloMap rows (snd squadra1))) as [m1 ->].
  destruct (media_mezzi (crea_eloMap rows (fst squadra2))
              (crea_eloMap rows (snd squadra2))) as [m2 ->].
  split.
  - exists (2 * calcolaELO (IZR m1 / 2) (IZR m2 / 2)
                  (IZR (flag vincitore 1)) 32 - m1)%Z.
    rewrite minus_IZR, mult_IZR. lra.
  - exists (2 * calcolaELO (IZR m2 / 2) (IZR m1 / 2)
                  (IZR (flag vincitore 2)) 32 - m2)%Z.
    rewrite minus_IZR, mult_IZR. lra.
Qed.

(** X14: the two deltas a recorded match returns, the stored ratings
    being within the range of [INT].  Each is a whole or a half number.
    The winning team's is between 0 and 32.5 and the losing team's
    between -32 and 0.5, the half unit being what [Math.round] can add
    to a team mean that is a half number; and for winner 1 or 2 the two
    add up to between -1 and 1, so that what one team gains is what the
    other loses up to the rounding. *)
Theorem createPartita_delta (squadra1 squadra2 : Z * Z) (vincitore : Z)
    (g : list bool) (d : database) (ris : esito_partita) (d' : database) :
  Forall (fun g0 => (- 2 ^ 31 <= Giocatore.elo g0 < 2 ^ 31)%Z)
    (giocatori d) ->
  esegui (createPartita INT_cast squadra1 squadra2 vincitore) g d
  = (Ok ris, d') ->
  (intero (2 * squadra1_delta ris) /\ intero (2 * squadra2_delta ris))
  /\ (vincitore = 1%Z ->
      0 <= squadra1_delta ris <= 32 + / 2
      /\ -32 <= squadra2_delta ris <= / 2)
  /\ (vincitore = 2%Z ->
      -32 <= squadra1_delta ris <= / 2
      /\ 0 <= squadra2_delta ris <= 32 + / 2)
  /\ (vincitore = 1%Z \/ vincitore = 2%Z ->
      -1 <= squadra1_delta ris + squadra2_delta ris <= 1).
Proof.
  intros _ E.
  destruct (createPartita_run INT_cast squadra1 squadra2 vincitore g d
              (Ok ris) d' E)
    as [(e & He & _) | (_ & Hris & _)]; [discriminate |].
  set (p := calcola_piano (select_elo (tutti squadra1 squadra2) d)
              squadra1 squadra2 vincitore) in *.
  assert (Hd1 : squadra1_delta ris = deltaElo1 p)
    by (injection Hris as ->; reflexivity).
  assert (Hd2 : squadra2_delta ris = deltaElo2 p)
    by (injection Hris as ->; reflexivity).
  rewrite Hd1, Hd2.
  pose proof (calcola_piano_delta (select_elo (tutti squadra1 squadra2) d)
                squadra1 squadra2 vincitore) as H.
  cbv zeta in H. fold p in H. destruct H as (H1 & H2 & H3).
  split; [apply calcola_piano_mezzi |].
  split; [intros Hv; specialize (H1 Hv); lra |].
  split; [intros Hv; specialize (H2 Hv); lra |].
  intros Hv. specialize (H3 Hv). lra.
Qed.

End Delta.

(** ** Column totals *)

Lemma totale_map_una (f : Giocatore.t -> Z) (u : Giocatore.t -> Giocatore.t)
    (i inc : Z) (l : list Giocatore.t) :
  NoDup (map Giocatore.id l) -> In i (map Giocatore.id l) ->
  (forall g, Giocatore.id g = i -> f (u g) = (f g + inc)%Z) ->
  (forall g, Giocatore.id g <> i -> u g = g) ->
  fold_right Z.add 0%Z (map f (map u l))
  = (fold_right Z.add 0%Z (map f l) + inc)%Z.
Proof.
  intros Hnd Hin Hsame Hother.
  induction l as [| g l IH]; [contradiction |].
  cbn [map] in Hnd. apply NoDup_cons_iff in Hnd. destruct Hnd as [Hni Hnd].
  cbn [map fold_right].
  destruct (Z.eq_dec (Giocatore.id g) i) as [Heq | Hne].
  - rewrite (Hsame g Heq).
    assert (Hl : map u l = l).
    { rewrite <- (map_id l) at 2. apply map_ext_in. intros g' Hg'.
      apply Hother. intros Hid. apply Hni. rewrite Heq, <- Hid.
      apply in_map. exact Hg'. }
    rewrite Hl. lia.
  - rewrite (Hother g Hne).
    destruct Hin as [Hin | Hin]; [contradiction |].
    rewrite (IH Hnd Hin). lia.
Qed.

Section Totali.

Variable INT_cast : R -> Z.

Lemma totale_update (f : Giocatore.t -> Z) (inc : aggiornamento -> Z)
    (a : aggiornamento) (d : database) :
  (forall g, Giocatore.id g = giocatoreId a ->
             f (update_riga INT_cast a g) = (f g + inc a)%Z) ->
  NoDup (map Giocatore.id (giocatori d)) -> esiste (giocatoreId a) d ->
  totale f (update_giocatore INT_cast a d) = (totale f d + inc a)%Z.
Proof.
  intros Hf Hnd He. unfold totale, update_giocatore, UPDATE_giocatori.
  cbn [giocatori].
  apply (totale_map_una f _ (giocatoreId a)); [exact Hnd | exact He | |].
  - exact Hf.
  - intros g Hne. apply (update_riga_altro INT_cast a g Hne).
Qed.

Lemma totale_fold (f : Giocatore.t -> Z) (inc : aggiornamento -> Z)
    (l : list aggiornamento) (d : database) :
  (forall a g, Giocatore.id g = giocatoreId a ->
               f (update_riga INT_cast a g) = (f g + inc a)%Z) ->
  NoDup (map Giocatore.id (giocatori d)) ->
  Forall (fun a => esiste (giocatoreId a) d) l ->
  totale f (fold_left (fun d' a => update_giocatore INT_cast a d') l d)
  = (totale f d + fold_right Z.add 0%Z (map inc l))%Z.
Proof.
  intros Hf. revert d. induction l as [| a l IH]; intros d Hnd Hall.
  - cbn. lia.
  - inversion Hall as [| ? ? Ha Hl]; subst. cbn [fold_left map fold_right].
    assert (Hids : map Giocatore.id
                     (giocatori (update_giocatore INT_cast a d))
                   = map Giocatore.id (giocatori d)).
    { unfold update_giocatore, UPDATE_giocatori. cbn [giocatori].
      rewrite map_map. apply map_ext. intros g0.
      apply (update_riga_id INT_cast a g0). }
    rewrite IH.
    + rewrite (totale_update f inc a d (Hf a) Hnd Ha). lia.
    + rewrite Hids. exact Hnd.
    + eapply Forall_impl; [| exact Hl]. cbv beta. intros a' He.
      unfold esiste. rewrite Hids. exact He.
Qed.

Lemma totale_scrivi (f : Giocatore.t -> Z) (inc : aggiornamento -> Z)
    (squadra1 squadra2 : Z * Z) (vincitore : Z) (d : database) :
  (forall a g, Giocatore.id g = giocatoreId a ->
               f (update_riga INT_cast a g) = (f g + inc a)%Z) ->
  primary_key d ->
  List.length (select_elo (tutti squadra1 squadra2) d) = 4%nat ->
  totale f (scrivi INT_cast (select_elo (tutti squadra1 squadra2) d)
              squadra1 squadra2 vincitore d)
  = (totale f d
     + fold_right Z.add 0%Z
         (map inc
            (aggiornamenti
               (calcola_piano (select_elo (tutti squadra1 squadra2) d)
                  squadra1 squadra2 vincitore))))%Z.
Proof.
  intros Hf Hpk Hlen.
  assert (Hnew : NoDup (tutti squadra1 squadra2)
                 /\ Forall (fun i => esiste i d) (tutti squadra1 squadra2)).
  { apply (select_elo_tutti _ d Hpk). rewrite Hlen. reflexivity. }
  destruct Hnew as [_ Hall].
  unfold scrivi. cbn [insert_partita snd].
  unfold totale at 1. cbn [giocatori]. fold (totale f
    (fold_left (fun d' a => update_giocatore INT_cast a d')
       (aggiornamenti
          (calcola_piano (select_elo (tutti squadra1 squadra2) d)
             squadra1 squadra2 vincitore)) d)).
  apply totale_fold; [exact Hf | apply Hpk |].
  rewrite <- (Forall_map giocatoreId (fun i => esiste i d)).
  rewrite aggiornamenti_ids. exact Hall.
Qed.

(** X15: a recorded match with winner 1 or 2 adds, over the whole player
    table, two wins, two losses and four matches played, and one row to
    the match table. *)
Theorem createPartita_totali (squadra1 squadra2 : Z * Z) (vincitore : Z)
    (g : list bool) (d : database) (ris : esito_partita) (d' : database) :
  primary_key d ->
  vincitore = 1%Z \/ vincitore = 2%Z ->
  esegui (createPartita INT_cast squadra1 squadra2 vincitore) g d
  = (Ok ris, d') ->
  totale Giocatore.vittorie d' = (totale Giocatore.vittorie d + 2)%Z
  /\ totale Giocatore.sconfitte d' = (totale Giocatore.sconfitte d + 2)%Z
  /\ totale Giocatore.partite d' = (totale Giocatore.partite d + 4)%Z
  /\ List.length (partite d') = S (List.length (partite d)).
Proof.
  intros Hpk Hv E.
  destruct (createPartita_run INT_cast squadra1 squadra2 vincitore g d
              (Ok ris) d' E)
    as [(e & He & _) | (Hlen & _ & ->)]; [discriminate |].
  split; [| split; [| split]].
  - rewrite (totale_scrivi Giocatore.vittorie isVincitore); try assumption.
    + rewrite aggiornamenti_piano. cbn [map isVincitore fold_right].
      destruct Hv as [-> | ->]; cbn; lia.
    + intros a g0 Hid. rewrite update_riga_stesso by exact Hid. reflexivity.
  - rewrite (totale_scrivi Giocatore.sconfitte
               (fun a => (1 - isVincitore a)%Z)); try assumption.
    + rewrite aggiornamenti_piano. cbn [map isVincitore fold_right].
      destruct Hv as [-> | ->]; cbn; lia.
    + intros a g0 Hid. rewrite update_riga_stesso by exact Hid. reflexivity.
  - rewrite (totale_scrivi Giocatore.partite (fun _ => 1%Z));
      try assumption.
    + rewrite aggiornamenti_piano. cbn [map fold_right]. lia.
    + intros a g0 Hid. rewrite update_riga_stesso by exact Hid. reflexivity.
  - rewrite scrivi_partite, length_app. cbn [List.length]. lia.
Qed.

End Totali.

(** ** [sanitizeString] *)

Lemma trimStart_length (s : js_string) :
  (List.length (trimStart s) <= List.length s)%nat.
Proof.
  induction s as [| c s IH]; [apply Nat.le_refl |].
  cbn [trimStart]. destruct (spazio c); cbn [List.length]; lia.
Qed.

Lemma trimStart_testa (s : js_string) :
  spazio (hd 0%N s) = false -> trimStart s = s.
Proof.
  destruct s as [| c s]; [reflexivity |].
  cbn [hd trimStart]. intros ->. reflexivity.
Qed.

Lemma trimStart_accorcia (s : js_string) :
  spazio (hd 0%N s) = true ->
  (List.length (trimStart s) < List.length s)%nat.
Proof.
  destruct s as [| c s]; [discriminate |].
  cbn [hd trimStart]. intros ->. pose proof (trimStart_length s).
  cbn [List.length]. lia.
Qed.

Lemma trimEnd_length (s : js_string) :
  (List.length (trimEnd s) <= List.length s)%nat.
Proof.
  unfold trimEnd. rewrite length_rev.
  pose proof (trimStart_length (rev s)) as H. rewrite length_rev in H.
  exact H.
Qed.

Lemma hd_rev (s : js_string) : hd 0%N (rev s) = last s 0%N.
Proof.
  induction s as [| c s IH] using rev_ind; [reflexivity |].
  rewrite rev_app_distr, last_last. reflexivity.
Qed.

Lemma trimEnd_coda (s : js_string) :
  spazio (last s 0%N) = false -> trimEnd s = s.
Proof.
  intros H. unfold trimEnd. rewrite trimStart_testa.
  - apply rev_involutive.
  - rewrite hd_rev. exact H.
Qed.

Lemma trimEnd_accorcia (s : js_string) :
  spazio (last s 0%N) = true ->
  (List.length (trimEnd s) < List.length s)%nat.
Proof.
  intros H. unfold trimEnd. rewrite length_rev.
  rewrite <- (length_rev s). apply trimStart_accorcia.
  rewrite hd_rev. exact H.
Qed.

Lemma trim_length (s : js_string) :
  (List.length (trim s) <= List.length s)%nat.
Proof.
  unfold trim. pose proof (trimEnd_length (trimStart s)).
  pose proof (trimStart_length s). lia.
Qed.

Lemma replace_classe_length (classe : N -> bool) (s : js_string) :
  (List.length (replace_classe classe s) <= List.length s)%nat.
Proof. apply filter_length_le. Qed.

Lemma replace_spazi_length (dentro : bool) (s : js_string) :
  (List.length (replace_spazi dentro s) <= List.length s)%nat.
Proof.
  revert dentro. induction s as [| c s IH]; intros dentro;
    [apply Nat.le_refl |].
  cbn [replace_spazi].
  destruct (spazio c); [destruct dentro |]; cbn [List.length];
    try (specialize (IH true); lia); specialize (IH false); lia.
Qed.

(** What [replace(/\s+/g, ' ')] leaves: U+0020, and the code units of
    the argument that are not white space. *)
Lemma replace_spazi_In (dentro : bool) (s : js_string) (c : N) :
  In c (replace_spazi dentro s) ->
  c = 32%N \/ (In c s /\ spazio c = false).
Proof.
  revert dentro. induction s as [| x s IH]; intros dentro Hin;
    [contradiction |].
  cbn [replace_spazi] in Hin.
  destruct (spazio x) eqn:Hx.
  - destruct dentro.
    + destruct (IH true Hin) as [H | [H1 H2]]; [left; exact H |].
      right. split; [right; exact H1 | exact H2].
    + destruct Hin as [Heq | Hin]; [left; symmetry; exact Heq |].
      destruct (IH true Hin) as [H | [H1 H2]]; [left; exact H |].
      right. split; [right; exact H1 | exact H2].
  - destruct Hin as [Heq | Hin].
    + subst x. right. split; [left; reflexivity | exact Hx].
    + destruct (IH false Hin) as [H | [H1 H2]]; [left; exact H |].
      right. split; [right; exact H1 | exact H2].
Qed.

Lemma replace_spazi_testa (s : js_string) :
  spazio (hd 0%N (replace_spazi true s)) = false.
Proof.
  induction s as [| c s IH]; [reflexivity |].
  cbn [replace_spazi]. destruct (spazio c) eqn:Hc; [exact IH |].
  cbn [hd]. exact Hc.
Qed.

Lemma spazi_singoli_cons (c : N) (s : js_string) :
  spazi_singoli (c :: s)
  = negb (spazio c && spazio (hd 0%N s)) && spazi_singoli s.
Proof.
  destruct s as [| c2 s]; [| reflexivity].
  cbn [spazi_singoli hd].
  replace (spazio 0%N) with false by reflexivity.
  rewrite andb_false_r. reflexivity.
Qed.

Lemma replace_spazi_singoli (dentro : bool) (s : js_string) :
  spazi_singoli (replace_spazi dentro s) = true.
Proof.
  revert dentro. induction s as [| c s IH]; intros dentro; [reflexivity |].
  cbn [replace_spazi]. destruct (spazio c) eqn:Hc.
  - destruct dentro; [apply IH |].
    rewrite spazi_singoli_cons, replace_spazi_testa, IH, andb_false_r.
    reflexivity.
  - rewrite spazi_singoli_cons, Hc, IH. reflexivity.
Qed.

Lemma spazi_singoli_firstn (n : nat) (s : js_string) :
  spazi_singoli s = true -> spazi_singoli (firstn n s) = true.
Proof.
  revert s. induction n as [| n IH]; intros s H; [reflexivity |].
  destruct s as [| c s]; [reflexivity |].
  cbn [firstn]. rewrite spazi_singoli_cons in *.
  apply andb_true_iff in H. destruct H as [H1 H2].
  rewrite (IH s H2), andb_true_r.
  destruct (spazio c); [| reflexivity]. cbn [andb negb] in *.
  destruct n as [| n]; [reflexivity |].
  destruct s as [| c2 s]; [reflexivity |]. cbn [firstn hd] in *. exact H1.
Qed.

Lemma firstn_In {A} (n : nat) (l : list A) (x : A) :
  In x (firstn n l) -> In x l.
Proof.
  intros H. rewrite <- (firstn_skipn n l). apply in_or_app. left. exact H.
Qed.

(** The three properties of a code unit of a sanitized string. *)
Lemma sanitizeString_unita (s : js_string) (c : N) :
  In c (replace_spazi false
          (replace_classe virgoletta (replace_classe angolare s))) ->
  angolare c = false /\ virgoletta c = false
  /\ (spazio c = true -> c = 32%N).
Proof.
  intros Hin. apply replace_spazi_In in Hin.
  destruct Hin as [-> | [Hin Hs]].
  - repeat split.
  - unfold replace_classe in Hin.
    apply filter_In in Hin. destruct Hin as [Hin Hv].
    apply filter_In in Hin. destruct Hin as [_ Ha].
    apply negb_true_iff in Hv, Ha.
    split; [exact Ha |]. split; [exact Hv |]. congruence.
Qed.

(** X16: what [sanitizeString] returns holds no angle bracket, no
    apostrophe and no double quote; its only white space is U+0020, never
    twice in a row; it is at most 100 code units long and never longer
    than the argument.  An argument that is not a string gives the
    empty string. *)
Theorem sanitizeString_pulita (str : option js_string) :
  Forall (fun c => angolare c = false /\ virgoletta c = false
                   /\ (spazio c = true -> c = 32%N))
    (sanitizeString str)
  /\ spazi_singoli (sanitizeString str) = true
  /\ (List.length (sanitizeString str) <= 100)%nat
  /\ (List.length (sanitizeString str)
      <= match str with Some s => List.length s | None => 0 end)%nat
  /\ sanitizeString None = [].
Proof.
  destruct str as [s |]; cbn [sanitizeString].
  2:{ repeat split; try (cbn [List.length]; lia). constructor. }
  unfold substring_0.
  split; [| split; [| split; [| split]]].
  - apply Forall_forall. intros c Hin.
    apply (sanitizeString_unita (trim s) c).
    apply (firstn_In 100). exact Hin.
  - apply spazi_singoli_firstn. apply replace_spazi_singoli.
  - apply firstn_le_length.
  - rewrite length_firstn.
    pose proof (replace_spazi_length false
                  (replace_classe virgoletta
                     (replace_classe angolare (trim s)))).
    pose proof (replace_classe_length virgoletta
                  (replace_classe angolare (trim s))).
    pose proof (replace_classe_length angolare (trim s)).
    pose proof (trim_length s). lia.
  - reflexivity.
Qed.

Lemma replace_classe_niente (classe : N -> bool) (s : js_string) :
  Forall (fun c => classe c = false) s -> replace_classe classe s = s.
Proof.
  unfold replace_classe. induction 1 as [| c s Hc Hs IH]; [reflexivity |].
  cbn [filter]. rewrite Hc. cbn [negb]. rewrite IH. reflexivity.
Qed.

Lemma replace_spazi_niente (dentro : bool) (s : js_string) :
  (dentro = true -> spazio (hd 0%N s) = false) ->
  spazi_singoli s = true ->
  Forall (fun c => spazio c = true -> c = 32%N) s ->
  replace_spazi dentro s = s.
Proof.
  revert dentro. induction s as [| c s IH]; intros dentro Hd Hs Hall;
    [reflexivity |].
  inversion Hall as [| ? ? Hc Hrest]; subst.
  rewrite spazi_singoli_cons in Hs. apply andb_true_iff in Hs.
  destruct Hs as [Hs1 Hs2].
  cbn [replace_spazi]. destruct (spazio c) eqn:Hsp.
  - cbn [hd] in Hd. destruct dentro.
    + specialize (Hd eq_refl). congruence.
    + rewrite (Hc eq_refl). f_equal.
      apply IH; [| exact Hs2 | exact Hrest].
      intros _. cbn [andb] in Hs1. apply negb_true_iff in Hs1. exact Hs1.
  - f_equal. apply IH; [discriminate | exact Hs2 | exact Hrest].
Qed.

(** X17: the strings [sanitizeString] gives back unchanged are exactly
    those of at most 100 code units that hold no angle bracket,
    apostrophe or double quote, whose only white space is U+0020, never
    twice in a row, and that neither begin nor end with white space. *)
Theorem sanitizeString_invariata (s : js_string) :
  sanitizeString (Some s) = s
  <-> (Forall (fun c => angolare c = false /\ virgoletta c = false
                        /\ (spazio c = true -> c = 32%N)) s
       /\ spazi_singoli s = true
       /\ spazio (hd 0%N s) = false
       /\ spazio (last s 0%N) = false
       /\ (List.length s <= 100)%nat).
Proof.
  cbn [sanitizeString]. unfold substring_0. split.
  - intros H.
    assert (Hlen : (List.length s <= List.length (trim s))%nat).
    { rewrite <- H at 1. rewrite length_firstn.
      pose proof (replace_spazi_length false
                    (replace_classe virgoletta
                       (replace_classe angolare (trim s)))).
      pose proof (replace_classe_length virgoletta
                    (replace_classe angolare (trim s))).
      pose proof (replace_classe_length angolare (trim s)). lia. }
    assert (Hhd : spazio (hd 0%N s) = false).
    { destruct (spazio (hd 0%N s)) eqn:Hsp; [| reflexivity].
      pose proof (trimStart_accorcia s Hsp).
      pose proof (trimEnd_length (trimStart s)).
      unfold trim in Hlen. lia. }
    assert (Hlast : spazio (last s 0%N) = false).
    { destruct (spazio (last s 0%N)) eqn:Hsp; [| reflexivity].
      unfold trim in Hlen. rewrite (trimStart_testa s Hhd) in Hlen.
      pose proof (trimEnd_accorcia s Hsp). lia. }
    split; [| split; [| split; [| split]]].
    + rewrite <- H. apply Forall_forall. intros c Hin.
      apply (sanitizeString_unita (trim s) c).
      apply (firstn_In 100). exact Hin.
    + rewrite <- H. apply spazi_singoli_firstn. apply replace_spazi_singoli.
    + exact Hhd.
    + exact Hlast.
    + rewrite <- H. apply firstn_le_length.
  - intros (Hall & Hs & Hhd & Hlast & Hlen).
    unfold trim. rewrite (trimStart_testa s Hhd), (trimEnd_coda s Hlast).
    rewrite (replace_classe_niente angolare s).
    2:{ eapply Forall_impl; [| exact Hall]. cbv beta. tauto. }
    rewrite (replace_classe_niente virgoletta s).
    2:{ eapply Forall_impl; [| exact Hall]. cbv beta. tauto. }
    rewrite (replace_spazi_niente false s).
    + apply firstn_all2. exact Hlen.
    + discriminate.
    + exact Hs.
    + eapply Forall_impl; [| exact Hall]. cbv beta. tauto.
Qed.

(** ** [validateId] *)

Lemma trimStart_spazi (sp s : js_string) :
  Forall (fun c => spazio c = true) sp -> trimStart (sp ++ s) = trimStart s.
Proof.
  induction 1 as [| c sp Hc Hsp IH]; [reflexivity |].
  cbn [app trimStart]. rewrite Hc. exact IH.
Qed.

(** The code unit of a decimal digit. *)
Lemma unita_decimale (d : Z) :
  (0 <= d <= 9)%Z ->
  cifra 10 (Z.to_N (48 + d)) = Some d
  /\ spazio (Z.to_N (48 + d)) = false
  /\ (Z.to_N (48 + d) =? 45)%N = false
  /\ (Z.to_N (48 + d) =? 43)%N = false
  /\ ((Z.to_N (48 + d) =? 48)%N = true -> d = 0%Z).
Proof.
  intros Hd.
  assert (H : d = 0%Z \/ d = 1%Z \/ d = 2%Z \/ d = 3%Z \/ d = 4%Z
              \/ d = 5%Z \/ d = 6%Z \/ d = 7%Z \/ d = 8%Z \/ d = 9%Z) by lia.
  repeat (destruct H as [-> | H]); try subst d;
    (repeat split; try reflexivity; cbn; discriminate).
Qed.

(** Reading back the digits [cifre_decimali] writes. *)
Lemma cifre_decimali_lette (fuel : nat) (n : Z) (acc : js_string) :
  (0 <= n < 2 ^ Z.of_nat fuel)%Z -> (1 <= fuel)%nat ->
  cifre 10 None (cifre_decimali fuel n acc) = cifre 10 (Some n) acc.
Proof.
  revert n acc. induction fuel as [| f IH]; intros n acc Hn Hf; [lia |].
  cbn [cifre_decimali].
  pose proof (Z.mod_pos_bound n 10 ltac:(lia)) as Hd.
  pose proof (Z.div_mod n 10 ltac:(lia)) as Hdm.
  destruct (unita_decimale (n mod 10) ltac:(lia)) as (Hc & _).
  destruct (Z.ltb_spec n 10) as [Hlt | Hge].
  - cbn [cifre]. rewrite Hc. f_equal. f_equal.
    rewrite Z.mod_small in * by lia. lia.
  - assert (Hq : (1 <= n / 10)%Z).
    { apply Z.div_le_lower_bound; lia. }
    assert (Hq2 : (n / 10 < 2 ^ Z.of_nat f)%Z).
    { rewrite Nat2Z.inj_succ, Z.pow_succ_r in Hn by lia.
      apply Z.div_lt_upper_bound; lia. }
    assert (Hf1 : (1 <= f)%nat).
    { destruct f as [| f']; [| lia]. cbn in Hq2. lia. }
    rewrite IH by (try lia; split; lia).
    cbn [cifre]. rewrite Hc. f_equal. f_equal. lia.
Qed.

(** A positive number is written without a leading zero. *)
Lemma cifre_decimali_testa (fuel : nat) (n : Z) (acc : js_string) :
  (1 <= n < 2 ^ Z.of_nat fuel)%Z ->
  exists d r, (1 <= d <= 9)%Z
              /\ cifre_decimali fuel n acc = Z.to_N (48 + d) :: r.
Proof.
  revert n acc. induction fuel as [| f IH]; intros n acc Hn.
  - cbn in Hn. lia.
  - cbn [cifre_decimali].
    pose proof (Z.mod_pos_bound n 10 ltac:(lia)) as Hd.
    destruct (Z.ltb_spec n 10) as [Hlt | Hge].
    + exists (n mod 10)%Z, acc. rewrite Z.mod_small in * by lia.
      split; [lia | reflexivity].
    + apply IH. split.
      * apply Z.div_le_lower_bound; lia.
      * rewrite Nat2Z.inj_succ, Z.pow_succ_r in Hn by lia.
        apply Z.div_lt_upper_bound; lia.
Qed.

Lemma cifre_decimali_app (fuel : nat) (n : Z) (acc : js_string) :
  cifre_decimali fuel n acc = cifre_decimali fuel n [] ++ acc.
Proof.
  revert n acc. induction fuel as [| f IH]; intros n acc; [reflexivity |].
  cbn [cifre_decimali]. destruct (n <? 10)%Z; [reflexivity |].
  rewrite IH. rewrite (IH _ [_]). rewrite <- app_assoc. reflexivity.
Qed.

Lemma log2_basta (n : Z) :
  (0 <= n)%Z -> (n < 2 ^ Z.of_nat (S (Z.to_nat (Z.log2 n))))%Z.
Proof.
  intros Hn. rewrite Nat2Z.inj_succ, Z2Nat.id by apply Z.log2_nonneg.
  destruct (Z.eq_dec n 0) as [-> | Hne]; [cbn; lia |].
  apply Z.log2_spec. lia.
Qed.

(** [parseInt] on the digits of a positive number followed by a text
    that does not go on with a digit. *)
Lemma parseInt_positivo (n : Z) (t : js_string) :
  (1 <= n)%Z -> cifra 10 (hd 0%N t) = None ->
  parseInt (cifre_decimali (S (Z.to_nat (Z.log2 n))) n t) = Some n.
Proof.
  intros Hn Ht.
  pose proof (log2_basta n ltac:(lia)) as Hfuel.
  destruct (cifre_decimali_testa (S (Z.to_nat (Z.log2 n))) n t
              ltac:(lia)) as (d & r & Hd & Heq).
  destruct (unita_decimale d ltac:(lia)) as (_ & Hsp & H45 & H43 & H48).
  pose proof (cifre_decimali_lette (S (Z.to_nat (Z.log2 n))) n t
                ltac:(lia) ltac:(lia)) as Hread.
  assert (H48f : (Z.to_N (48 + d) =? 48)%N = false).
  { destruct (Z.to_N (48 + d) =? 48)%N; [| reflexivity].
    specialize (H48 eq_refl). lia. }
  unfold parseInt. rewrite Heq. cbn [trimStart]. rewrite Hsp, H45, H43.
  assert (Hfine : match cifre 10 (Some n) t with
                  | Some m => Some (1 * m)%Z
                  | None => None
                  end = Some n).
  { destruct t as [| c t]; cbn [cifre hd] in *.
    - f_equal. lia.
    - rewrite Ht. f_equal. lia. }
  destruct r as [| c2 r0].
  - cbv iota beta. rewrite <- Heq, Hread. exact Hfine.
  - rewrite H48f. cbn [andb]. cbv iota beta. rewrite <- Heq, Hread.
    exact Hfine.
Qed.

Lemma parseInt_negativo (n : Z) :
  (1 <= n)%Z ->
  parseInt (45%N :: cifre_decimali (S (Z.to_nat (Z.log2 n))) n [])
  = Some (- n)%Z.
Proof.
  intros Hn.
  pose proof (log2_basta n ltac:(lia)) as Hfuel.
  destruct (cifre_decimali_testa (S (Z.to_nat (Z.log2 n))) n []
              ltac:(lia)) as (d & r & Hd & Heq).
  destruct (unita_decimale d ltac:(lia)) as (_ & _ & _ & _ & H48).
  pose proof (cifre_decimali_lette (S (Z.to_nat (Z.log2 n))) n []
                ltac:(lia) ltac:(lia)) as Hread.
  assert (H48f : (Z.to_N (48 + d) =? 48)%N = false).
  { destruct (Z.to_N (48 + d) =? 48)%N; [| reflexivity].
    specialize (H48 eq_refl). lia. }
  unfold parseInt. cbn [trimStart].
  replace (spazio 45) with false by reflexivity.
  replace (45 =? 45)%N with true by reflexivity.
  rewrite Heq.
  destruct r as [| c2 r0].
  - cbv iota beta. rewrite <- Heq, Hread. cbn [cifre]. apply f_equal. lia.
  - rewrite H48f. cbn [andb]. cbv iota beta. rewrite <- Heq, Hread.
    cbn [cifre]. apply f_equal. lia.
Qed.

Lemma parseInt_spazi (sp s : js_string) :
  Forall (fun c => spazio c = true) sp -> parseInt (sp ++ s) = parseInt s.
Proof.
  intros H. unfold parseInt. rewrite (trimStart_spazi sp s H). reflexivity.
Qed.

(** X18: an id that is an integer number below 2^53 in absolute value
    is accepted exactly when it is between 1 and 999999: zero and the
    negative integers are refused. *)
Theorem validateId_intero (n : Z) :
  (Z.abs n < 2 ^ 53)%Z ->
  validateId (Number_toString n) = ((1 <=? n)%Z && (n <=? 999999)%Z)%bool.
Proof.
  intros _. unfold validateId, Number_toString.
  destruct (Z.ltb_spec n 0) as [Hneg | Hpos].
  - rewrite (parseInt_negativo (- n)) by lia.
    replace (- - n)%Z with n by lia.
    destruct (Z.ltb_spec 0 n); [lia |].
    destruct (Z.leb_spec 1 n); [lia |]. reflexivity.
  - destruct (Z.eq_dec n 0) as [-> | Hne]; [reflexivity |].
    rewrite (parseInt_positivo n []) by (try lia; reflexivity).
    destruct (Z.ltb_spec 0 n); [| lia].
    destruct (Z.leb_spec 1 n); [| lia]. reflexivity.
Qed.

(** X19: [validateId] stops reading at the first code unit that is not
    a digit: the decimal digits of a number between 1 and 999999 are
    accepted with any white space before them and any text after them
    that does not go on with a decimal digit. *)
Theorem validateId_prefisso (sp t : js_string) (n : Z) :
  Forall (fun c => spazio c = true) sp ->
  (1 <= n <= 999999)%Z ->
  cifra 10 (hd 0%N t) = None ->
  validateId (sp ++ Number_toString n ++ t) = true.
Proof.
  intros Hsp Hn Ht. unfold validateId.
  rewrite (parseInt_spazi sp _ Hsp). unfold Number_toString.
  destruct (Z.ltb_spec n 0) as [Hneg | _]; [lia |].
  rewrite <- cifre_decimali_app.
  rewrite (parseInt_positivo n t) by (try lia; exact Ht).
  destruct (Z.ltb_spec 0 n); [| lia].
  destruct (Z.leb_spec n 999999); [| lia]. reflexivity.
Qed.

(** ** Instances

    The statements above at concrete inputs, with [Math.round] as the
    server's conversion to [INT]. *)

Lemma scenario_1_witness :
  let r := esegui (createPartita Math_round (1, 2)%Z (3, 4)%Z 1) []
             db_quattro in
  (exists ris, fst r = Ok ris
               /\ squadra1_delta ris = 16 /\ squadra2_delta ris = -16)
  /\ map (fun g => (Giocatore.id g, Giocatore.elo g, Giocatore.partite g,
                    Giocatore.vittorie g, Giocatore.sconfitte g))
         (giocatori (snd r))
     = [ (1, 1516, 1, 1, 0); (2, 1516, 1, 1, 0);
         (3, 1484, 1, 0, 1); (4, 1484, 1, 0, 1) ]%Z
  /\ partite (snd r) = [ Partita.mk 1 (1, 2)%Z (3, 4)%Z 1 ].
Proof.
  apply (scenario_1 Math_round). exact Math_round_IZR.
Defined.

(** A fault injected after the four player updates, at the insert. *)
Lemma guasto_all_insert :
  esegui (createPartita Math_round (1, 2)%Z (3, 4)%Z 1)
    [false; false; false; false; false; false; false; true] db_quattro
  = (Throw DriverError, db_quattro).
Proof. lazy. reflexivity. Qed.

Lemma createPartita_atomica_witness :
  (giocatori
     (snd (esegui (createPartita Math_round (1, 2)%Z (3, 4)%Z 1)
             [false; false; false; false; false; false; false; true]
             db_quattro))
   = giocatori db_quattro
   /\ partite
        (snd (esegui (createPartita Math_round (1, 2)%Z (3, 4)%Z 1)
                [false; false; false; false; false; false; false; true]
                db_quattro))
      = partite db_quattro)
  /\ (exists g0,
        riga 1 db_quattro = Some g0
        /\ riga 1
             (snd (esegui (createPartita Math_round (1, 2)%Z (3, 4)%Z 1) []
                     db_quattro))
           = Some (Giocatore.mk 1 (Giocatore.nome g0) (Giocatore.ruolo g0)
                     (Math_round (IZR (Giocatore.elo g0) + 16))
                     (Giocatore.partite g0 + 1)
                     (Giocatore.vittorie g0 + 1)
                     (Giocatore.sconfitte g0 + 0)))
  /\ (exists g0,
        riga 3 db_quattro = Some g0
        /\ riga 3
             (snd (esegui (createPartita Math_round (1, 2)%Z (3, 4)%Z 1) []
                     db_quattro))
           = Some (Giocatore.mk 3 (Giocatore.nome g0) (Giocatore.ruolo g0)
                     (Math_round (IZR (Giocatore.elo g0) + -16))
                     (Giocatore.partite g0 + 1)
                     (Giocatore.vittorie g0 + 0)
                     (Giocatore.sconfitte g0 + 1))).
Proof.
  assert (Hint : Forall (fun g0 => (- 2 ^ 31 <= Giocatore.elo g0 < 2 ^ 31)%Z)
                   (giocatori db_quattro)).
  { unfold db_quattro. cbn [giocatori].
    repeat (apply Forall_cons; [cbn; lia |]). apply Forall_nil. }
  split; [| split].
  - pose proof (createPartita_atomica Math_round (1, 2)%Z (3, 4)%Z 1
                  [false; false; false; false; false; false; false; true]
                  db_quattro) as H.
    cbv zeta in H. rewrite guasto_all_insert in H. exact H.
  - pose proof (createPartita_atomica Math_round (1, 2)%Z (3, 4)%Z 1 []
                  db_quattro) as H.
    cbv zeta in H.
    rewrite (scenario_1_run Math_round Math_round_IZR) in *.
    cbn [fst snd squadra1_delta squadra2_delta] in *.
    destruct H as (_ & H). destruct (H primary_key_quattro Hint) as (H1 & _).
    apply (H1 1%Z). cbn. tauto.
  - pose proof (createPartita_atomica Math_round (1, 2)%Z (3, 4)%Z 1 []
                  db_quattro) as H.
    cbv zeta in H.
    rewrite (scenario_1_run Math_round Math_round_IZR) in *.
    cbn [fst snd squadra1_delta squadra2_delta] in *.
    destruct H as (_ & H). destruct (H primary_key_quattro Hint) as (_ & H2 & _).
    apply (H2 3%Z). cbn. tauto.
Defined.

Lemma createPartita_unknown_player_witness :
  esegui (createPartita Math_round (1, 2)%Z (3, 9)%Z 1) [] db_quattro
  = (Throw UnknownPlayer, db_quattro)
  /\ (forall g,
        fst (esegui (createPartita Math_round (1, 2)%Z (3, 4)%Z 1) g db_quattro)
        <> Throw UnknownPlayer).
Proof.
  split.
  - apply (createPartita_unknown_player Math_round (1, 2)%Z (3, 9)%Z 1
             db_quattro primary_key_quattro).
    exists 9%Z. split; [cbn; tauto |].
    unfold esiste. cbn. intuition discriminate.
  - apply (createPartita_unknown_player Math_round (1, 2)%Z (3, 4)%Z 1
             db_quattro primary_key_quattro).
    + cbn. prova_NoDup.
    + repeat (apply Forall_cons; [unfold esiste; cbn; tauto |]).
      apply Forall_nil.
Defined.

Lemma createPartita_duplicate_witness :
  (forall g,
      let r := esegui (createPartita Math_round (1, 1)%Z (2, 3)%Z 1) g
                 db_quattro in
      (exists e, fst r = Throw e)
      /\ giocatori (snd r) = giocatori db_quattro
      /\ partite (snd r) = partite db_quattro)
  /\ esegui (createPartita Math_round (1, 1)%Z (2, 3)%Z 1) [] db_quattro
     = (Throw UnknownPlayer, db_quattro).
Proof.
  apply (createPartita_duplicate Math_round (1, 1)%Z (2, 3)%Z 1 db_quattro
           primary_key_quattro).
  cbn. intros H. apply NoDup_cons_iff in H. destruct H as [H _].
  apply H. left. reflexivity.
Defined.

Lemma contatori_invariante_witness :
  Forall contatori_ok (giocatori db_esempio_2)
  /\ (exists g0 g1,
        riga 1 db_esempio_2 = Some g0
        /\ riga 1 (db_esempio_3 Math_round) = Some g1
        /\ una_partita_in_piu g0 g1)
  /\ contatori_monotoni db_esempio_2
       (dopo Math_round (fun s => s) None
          (CreatePartita (1, 5)%Z (2, 6)%Z 1) [] db_esempio_2)
  /\ Forall fresca
       (giocatori
          (dopo Math_round (fun s => s) None ResetDatabase [] db_esempio_2)).
Proof.
  destruct (contatori_invariante Math_round (fun s => s) None db_esempio_2
              (raggiungibile_esempio_2 Math_round (fun s => s) None
                 Math_round_IZR))
    as (H1 & _ & H3 & H4 & H5).
  split; [exact H1 |]. split; [| split].
  - destruct (H3 (1, 5)%Z (2, 6)%Z 1%Z [] _ _
                (esempio_3 Math_round)) as [Hp _].
    apply (Hp 1%Z). cbn. tauto.
  - apply H4. discriminate.
  - destruct (H5 []) as [Hsame | Hfresh]; [| exact Hfresh].
    exfalso. cbn [dopo] in Hsame.
    rewrite resetDatabase_sviluppo in Hsame by reflexivity.
    discriminate Hsame.
Defined.

(** C7, as stated for every operation, fails at the development reset:
    after two recorded matches the player with id 1 has two matches and
    two wins; [resetDatabase] outside production truncates the table and
    inserts the sample players again, and the player with id 1 has zero
    matches. *)
Lemma reset_abbassa_contatori :
  ~ contatori_mai_in_calo Math_round (fun s => s) None.
Proof.
  intros H.
  specialize (H db_esempio_2 ResetDatabase []
                (raggiungibile_esempio_2 Math_round (fun s => s) None
                   Math_round_IZR)).
  cbn [dopo] in H. rewrite resetDatabase_sviluppo in H by reflexivity.
  cbn [snd] in H.
  destruct (H 1%Z (Giocatore.mk 1 "Mario" portiere 1531 2 2 0) eq_refl)
    as [g1 [Hg1 Hle]].
  injection Hg1 as <-. unfold contatori_le in Hle. cbn in Hle. lia.
Qed.

Lemma createPartita_lost_update_witness :
  intercalate Math_round (1, 2)%Z (3, 4)%Z 1 (1, 5)%Z (6, 7)%Z 1 db_sette
  = db_intercalato
  /\ riga 1 db_intercalato = Some (Giocatore.mk 1 "A" portiere 1516 2 2 0)
  /\ snd (esegui (createPartita Math_round (1, 5)%Z (6, 7)%Z 1) []
            (snd (esegui (createPartita Math_round (1, 2)%Z (3, 4)%Z 1) []
                    db_sette)))
     = db_serie_AB
  /\ riga 1 db_serie_AB = Some (Giocatore.mk 1 "A" portiere 1532 2 2 0)
  /\ snd (esegui (createPartita Math_round (1, 2)%Z (3, 4)%Z 1) []
            (snd (esegui (createPartita Math_round (1, 5)%Z (6, 7)%Z 1) []
                    db_sette)))
     = db_serie_BA
  /\ riga 1 db_serie_BA = Some (Giocatore.mk 1 "A" portiere 1532 2 2 0).
Proof.
  apply (createPartita_lost_update Math_round). exact Math_round_IZR.
Defined.

Lemma createPartita_rating_non_intero_witness :
  raggiungibile Math_round (fun s => s) None db_esempio_2
  /\ esegui (createPartita Math_round (1, 5)%Z (2, 6)%Z 1) [] db_esempio_2
     = (Ok (mkEsito 3 (1, 5)%Z (2, 6)%Z 1 (33 / 2) (- 31 / 2)),
        db_esempio_3 Math_round)
  /\ ~ intero (3095 / 2).
Proof.
  destruct (createPartita_rating_non_intero Math_round (fun s => s) None
              Math_round_IZR) as (H1 & H2 & _ & _ & _ & H3 & _).
  split; [exact H1 |]. split; [exact H2 | exact H3].
Defined.

(** ** Instances of the further statements *)

Lemma createGiocatore_duplicato_witness :
  (forall g, exists e,
      esegui (createGiocatore (fun s => s) "Mario" attaccante) g db_esempio
      = (Throw e, db_esempio))
  /\ esegui (createGiocatore (fun s => s) "Mario" attaccante) [] db_esempio
     = (Throw DuplicatePlayer, db_esempio).
Proof.
  apply (createGiocatore_duplicato (fun s => s) "Mario" attaccante db_esempio).
  exists (nuovo 1 "Mario" portiere 1500). split.
  - cbn. tauto.
  - reflexivity.
Defined.

Lemma createGiocatore_nuovo_witness :
  (forall g0, In g0 (giocatori db_quattro) -> Giocatore.nome g0 <> "E"%string)
  /\ ~ esiste 5 db_quattro
  /\ primary_key
       (mkDb (giocatori db_quattro ++ [nuovo 5 "E" portiere 1500]) [] 6 1).
Proof.
  destruct (createGiocatore_nuovo (fun s => s) "E" portiere [] db_quattro
              (nuovo 5 "E" portiere 1500)
              (mkDb (giocatori db_quattro ++ [nuovo 5 "E" portiere 1500])
                 [] 6 1)
              primary_key_quattro eq_refl)
    as (H1 & _ & H3 & _ & _ & _ & H7).
  split; [exact H1 |]. split; [exact H3 | exact H7].
Defined.

Lemma createGiocatore_due_volte_witness :
  esegui (createGiocatore (fun s => s) "E" attaccante) []
    (dopo_tutte Math_round (fun s => s) None
       [ (CreatePartita (1, 2)%Z (3, 4)%Z 1, []);
         (CreateGiocatore "F" portiere, [true]);
         (InsertSampleData, []) ]
       (mkDb (giocatori db_quattro ++ [nuovo 5 "E" portiere 1500]) [] 6 1))
  = (Throw DuplicatePlayer,
     dopo_tutte Math_round (fun s => s) None
       [ (CreatePartita (1, 2)%Z (3, 4)%Z 1, []);
         (CreateGiocatore "F" portiere, [true]);
         (InsertSampleData, []) ]
       (mkDb (giocatori db_quattro ++ [nuovo 5 "E" portiere 1500]) [] 6 1)).
Proof.
  apply (createGiocatore_due_volte Math_round (fun s => s) None "E" "E"
           portiere attaccante [] db_quattro (nuovo 5 "E" portiere 1500)).
  - reflexivity.
  - reflexivity.
  - repeat (apply Forall_cons; [cbn [fst]; discriminate |]).
    apply Forall_nil.
Defined.

Lemma insertSampleData_prefisso_witness :
  esegui insertSampleData [false; false; false; true] database_vuoto
  = (Ok tt,
     mkDb [ nuovo 1 "Mario" portiere 1500; nuovo 2 "Luigi" attaccante 1500 ]
       [] 3 1)
  /\ esegui insertSampleData [] database_vuoto
     = (Ok tt, mkDb (righe_esempio 1 samplePlayers) [] 7 1).
Proof.
  destruct insertSampleData_prefisso as (_ & _ & H3 & H4).
  split.
  - apply (H3 2%nat [] database_vuoto); [reflexivity | lia].
  - apply (H4 [] database_vuoto); [reflexivity | constructor].
Defined.

Lemma resetDatabase_guasti_witness :
  esegui (resetDatabase None) [false; false; true] db_quattro
  = (Throw DriverError, mkDb (giocatori db_quattro) [] 5 1)
  /\ esegui (resetDatabase None) [false; false; false; false; true] db_quattro
     = (Ok true, mkDb [] [] 1 1).
Proof.
  destruct (resetDatabase_guasti None db_quattro ltac:(discriminate))
    as (_ & H2 & H3).
  split; [exact H2 | exact H3].
Defined.

Lemma raggiungibile_integro_witness :
  primary_key db_esempio_2 /\ chiave_partite db_esempio_2
  /\ riferimenti db_esempio_2.
Proof.
  apply (raggiungibile_integro Math_round (fun s => s) None db_esempio_2).
  apply raggiungibile_esempio_2. exact Math_round_IZR.
Defined.

Lemma raggiungibile_nomi_unici_witness :
  nomi_unici (fun s => s) db_esempio_2.
Proof.
  apply (raggiungibile_nomi_unici Math_round (fun s => s) None).
  - cbn [map samplePlayers fst]. prova_NoDup.
  - apply raggiungibile_esempio_2. exact Math_round_IZR.
Defined.

Lemma getNomiGiocatori_nomi_witness :
  exists nomiMap,
    esegui (getNomiGiocatori [1; 9]%Z) [] db_quattro = (Ok nomiMap, db_quattro)
    /\ nomiMap 1%Z = Some "A"%string /\ nomiMap 9%Z = None
    /\ nomiMap 2%Z = None.
Proof.
  destruct (getNomiGiocatori_nomi [1; 9]%Z db_quattro primary_key_quattro
              ltac:(discriminate)) as (m & E & H).
  exists m. split; [exact E |].
  split; [rewrite H; reflexivity |].
  split; rewrite H; reflexivity.
Defined.

Lemma createGiocatore_poi_nome_witness :
  exists nomiMap,
    esegui (getNomiGiocatori [5]%Z) []
      (mkDb (giocatori db_quattro ++ [nuovo 5 "E" portiere 1500]) [] 6 1)
    = (Ok nomiMap,
       mkDb (giocatori db_quattro ++ [nuovo 5 "E" portiere 1500]) [] 6 1)
    /\ nomiMap 5%Z = Some "E"%string.
Proof.
  apply (createGiocatore_poi_nome (fun s => s) "E" portiere [] db_quattro
           (nuovo 5 "E" portiere 1500)
           (mkDb (giocatori db_quattro ++ [nuovo 5 "E" portiere 1500])
              [] 6 1)
           primary_key_quattro eq_refl).
Defined.


Lemma calcolaELO_limiti_witness :
  (1500 <= calcolaELO (IZR 1500) 1600 1 (IZR 32) <= 1500 + 32)%Z
  /\ (1500 - 32 <= calcolaELO (IZR 1500) 1600 0 (IZR 32) <= 1500)%Z.
Proof.
  apply (calcolaELO_limiti 1500 32 1600).
  - lia.
  - apply Z.leb_le. reflexivity.
Defined.

Lemma calcolaELO_monotona_witness :
  (calcolaELO 1500 1400 0 32 <= calcolaELO 1500 1600 1 32)%Z.
Proof.
  apply (calcolaELO_monotona 1500 1400 1600 0 1 32); lra.
Defined.

Lemma createPartita_delta_witness :
  let ris := mkEsito 1 (1, 2)%Z (3, 4)%Z 1 16 (-16) in
  (0 <= squadra1_delta ris <= 32 + / 2 /\ -32 <= squadra2_delta ris <= / 2)
  /\ -1 <= squadra1_delta ris + squadra2_delta ris <= 1.
Proof.
  cbv zeta.
  assert (Hint : Forall (fun g0 => (- 2 ^ 31 <= Giocatore.elo g0 < 2 ^ 31)%Z)
                   (giocatori db_quattro)).
  { unfold db_quattro. cbn [giocatori].
    repeat (apply Forall_cons; [cbn; lia |]). apply Forall_nil. }
  destruct (createPartita_delta Math_round (1, 2)%Z (3, 4)%Z 1 [] db_quattro
              _ _ Hint (scenario_1_run Math_round Math_round_IZR))
    as (_ & H1 & _ & H3).
  split; [exact (H1 eq_refl) | apply H3; left; reflexivity].
Defined.

Lemma createPartita_totali_witness :
  totale Giocatore.vittorie
    (snd (esegui (createPartita Math_round (1, 2)%Z (3, 4)%Z 1) [] db_quattro))
  = (totale Giocatore.vittorie db_quattro + 2)%Z
  /\ totale Giocatore.sconfitte
       (snd (esegui (createPartita Math_round (1, 2)%Z (3, 4)%Z 1) []
               db_quattro))
     = (totale Giocatore.sconfitte db_quattro + 2)%Z.
Proof.
  destruct (createPartita_totali Math_round (1, 2)%Z (3, 4)%Z 1 [] db_quattro
              _ _ primary_key_quattro (or_introl eq_refl)
              (scenario_1_run Math_round Math_round_IZR))
    as (H1 & H2 & _).
  rewrite (scenario_1_run Math_round Math_round_IZR). cbn [snd].
  split; [exact H1 | exact H2].
Defined.

Lemma validateId_intero_witness :
  validateId (Number_toString 7) = true
  /\ validateId (Number_toString 0) = false
  /\ validateId (Number_toString 1000000) = false.
Proof.
  split; [| split].
  - rewrite (validateId_intero 7) by (cbn; lia). reflexivity.
  - rewrite (validateId_intero 0) by (cbn; lia). reflexivity.
  - rewrite (validateId_intero 1000000) by (cbn; lia). reflexivity.
Defined.

Lemma validateId_prefisso_witness :
  validateId ([32; 9] ++ Number_toString 12 ++ [97; 98; 99])%N = true.
Proof.
  apply (validateId_prefisso [32; 9]%N [97; 98; 99]%N 12).
  - repeat constructor.
  - lia.
  - reflexivity.
Defined.

Lemma partite_con_nomi_witness :
  exists nomiMap,
    esegui (getNomiGiocatori [1; 2; 3; 4]%Z) [] db_esempio_2
    = (Ok nomiMap, db_esempio_2)
    /\ Forall (fun i => exists g0,
                 riga i db_esempio_2 = Some g0
                 /\ nomiMap i = Some (Giocatore.nome g0))
         [1; 2; 3; 4]%Z.
Proof.
  apply (partite_con_nomi Math_round (fun s => s) None db_esempio_2
           (Partita.mk 1 (1, 2)%Z (3, 4)%Z 1)).
  - apply raggiungibile_esempio_2. exact Math_round_IZR.
  - cbn. tauto.
Defined.
